(** * Post-processing of the YOLOv5 TensorRT processor

    A shallow embedding of [python/lib/Processor.py]: the fragment of NumPy
    the file uses (arrays as a shape with row-major data), the grid
    generator, the box decoder, the class-score fusion, the reshape stage
    of [detect], the corner conversion and the two suppression routines.

    Numbers: the code computes in IEEE floating point.  Everything that is
    a matter of indexing, broadcasting, filtering and of which operation is
    applied to which value is stated over an abstract scalar type (class
    [Scalar], with [Exponential] for [exp]), and concrete runs are at the
    instance of the rationals.  The order properties of the decoded values
    are stated at an instance with NaN ([flt]: a real number or NaN, every
    comparison with NaN false); they are the ones that rounding to nearest
    keeps, and they hold for raw outputs without NaN only.  The real numbers
    serve where only the order of one comparison matters.  The conversions
    between [float32] and [float64] are the identity of the scalar type, and
    what the code prints is left out.
    [pre_process] and [inference] call OpenCV and the TensorRT engine; they
    are outside this development, which starts from the engine's outputs. *)

From Stdlib Require Import List Arith ZArith QArith Reals Lia Lra Bool.
Import ListNotations.

Close Scope Q_scope.
Close Scope R_scope.
Open Scope nat_scope.

Set Implicit Arguments.

(** ** Exceptions and fallible results *)

Inductive exn : Type :=
| ValueError
| IndexError
| TypeError
| SystemExit.

Inductive res (A : Type) : Type :=
| Ok (a : A)
| Raise (e : exn).

Arguments Ok {A} a.
Arguments Raise {A} e.

Definition bind {A B : Type} (m : res A) (k : A -> res B) : res B :=
  match m with
  | Ok a => k a
  | Raise e => Raise e
  end.

Declare Scope res_scope.
Delimit Scope res_scope with res.
Notation "x <- m ;; k" := (bind m (fun x => k))
  (at level 61, m at next level, right associativity) : res_scope.
Notation "' p <- m ;; k" := (bind m (fun x => match x with p => k end))
  (at level 61, p pattern, m at next level, right associativity) : res_scope.
Open Scope res_scope.

(** [for x in l: acc.append(f x)], stopping at the first exception. *)
Fixpoint mapM {A B : Type} (f : A -> res B) (l : list A) : res (list B) :=
  match l with
  | [] => Ok []
  | x :: l' => y <- f x ;; ys <- mapM f l' ;; Ok (y :: ys)
  end.

(** ** Scalars *)

Class Default (A : Type) : Type := dflt : A.

#[export] Instance Default_Z : Default Z := 0%Z.
#[export] Instance Default_bool : Default bool := false.

(** The arithmetic the code performs on array elements. [lit] is a float
    literal, [of_int] the conversion of an integer operand. *)
Class Scalar (F : Type) : Type := {
  lit : Q -> F;
  of_int : Z -> F;
  fadd : F -> F -> F;
  fsub : F -> F -> F;
  fmul : F -> F -> F;
  fdiv : F -> F -> F;
  fneg : F -> F;
  fgt : F -> F -> bool
}.

Class Exponential (F : Type) : Type := {
  fexp : F -> F
}.

#[export] Instance Default_Scalar {F : Type} `{Scalar F} : Default F := @lit F _ 0%Q.

(** [sigmoid] of the source, on one element:
    [np.reciprocal(np.exp(-x) + 1.0)]. *)
Definition sigmoid {F : Type} `{Scalar F} `{Exponential F} (x : F) : F :=
  fdiv (lit 1%Q) (fadd (fexp (fneg x)) (lit 1%Q)).

(** ** Arrays: a shape and the elements in row-major order *)

Record ndarray (A : Type) : Type := mk_ndarray {
  shape : list nat;
  data : list A
}.

Arguments mk_ndarray {A} shape data.
Arguments shape {A} n.
Arguments data {A} n.

Fixpoint size (s : list nat) : nat :=
  match s with
  | [] => 1
  | d :: s' => d * size s'
  end.

Definition wf {A : Type} (t : ndarray A) : Prop :=
  length (data t) = size (shape t).

(** Row-major offset of a multi-index, and its inverse. *)
Fixpoint ravel (s idx : list nat) : nat :=
  match s, idx with
  | _ :: s', i :: idx' => i * size s' + ravel s' idx'
  | _, _ => 0
  end.

Fixpoint unravel (s : list nat) (p : nat) : list nat :=
  match s with
  | [] => []
  | _ :: s' => p / size s' :: unravel s' (p mod size s')
  end.

Definition get {A : Type} `{Default A} (t : ndarray A) (idx : list nat) : A :=
  nth (ravel (shape t) idx) (data t) dflt.

(** [k] consecutive blocks of [n] elements. *)
Fixpoint chunks {A : Type} (n k : nat) (l : list A) : list (list A) :=
  match k with
  | 0 => []
  | S k' => firstn n l :: chunks n k' (skipn n l)
  end.

(** Python's [l[lo:hi]] for non-negative bounds. *)
Definition slice {A : Type} (lo hi : nat) (l : list A) : list A :=
  firstn (hi - lo) (skipn lo l).

Definition shape_eqb (s1 s2 : list nat) : bool :=
  if list_eq_dec Nat.eq_dec s1 s2 then true else false.

(** [row[lo:lo+len(v)] = v] inside one block. *)
Definition splice {A : Type} (lo : nat) (row v : list A) : list A :=
  firstn lo row ++ v ++ skipn (lo + length v) row.

Module np.

Section Arrays.
Context {A : Type} `{Default A}.

(** [a.reshape(s)]: same elements, new shape; the sizes must agree. *)
Definition reshape (a : ndarray A) (s : list nat) : res (ndarray A) :=
  if size (shape a) =? size s
  then Ok (mk_ndarray s (data a))
  else Raise ValueError.

(** [np.meshgrid(a, b)] with the default ['xy'] indexing: both results
    have shape [(len b, len a)]; the first repeats [a] along the rows,
    the second repeats each element of [b] along its row. *)
Definition meshgrid (a b : ndarray A) : ndarray A * ndarray A :=
  let s := [length (data b); length (data a)] in
  (mk_ndarray s (flat_map (fun _ => data a) (data b)),
   mk_ndarray s (flat_map (fun y => map (fun _ => y) (data a)) (data b))).

(** [np.stack((a, b), axis=2)] of two 2-D arrays: a new last axis of
    length 2. *)
Definition stack2 (a b : ndarray A) : res (ndarray A) :=
  match shape a with
  | [_; _] =>
      if shape_eqb (shape a) (shape b)
      then Ok (mk_ndarray (shape a ++ [2])
                 (flat_map (fun p => [fst p; snd p]) (combine (data a) (data b))))
      else Raise ValueError
  | _ => Raise ValueError
  end.

(** *** Broadcasting *)

(** The common shape of two shapes of equal rank. *)
Fixpoint bshape (s1 s2 : list nat) : option (list nat) :=
  match s1, s2 with
  | [], [] => Some []
  | d1 :: s1', d2 :: s2' =>
      match bshape s1' s2' with
      | Some s =>
          if d1 =? d2 then Some (d1 :: s)
          else if d1 =? 1 then Some (d2 :: s)
          else if d2 =? 1 then Some (d1 :: s)
          else None
      | None => None
      end
  | _, _ => None
  end.

(** Shapes are aligned on the right: the shorter one gets leading 1s. *)
Definition pad (r : nat) (s : list nat) : list nat :=
  repeat 1 (r - length s) ++ s.

Definition broadcast_shapes (s1 s2 : list nat) : option (list nat) :=
  let r := Nat.max (length s1) (length s2) in
  bshape (pad r s1) (pad r s2).

(** The index inside an operand of shape [s] that a result index reads:
    an axis of length 1 is read at 0. *)
Fixpoint bidx (s idx : list nat) : list nat :=
  match s, idx with
  | d :: s', i :: idx' => (if d =? 1 then 0 else i) :: bidx s' idx'
  | _, _ => []
  end.

Definition bget (a : ndarray A) (r : nat) (idx : list nat) : A :=
  let s := pad r (shape a) in
  nth (ravel s (bidx s idx)) (data a) dflt.

(** [a] seen with shape [s]; [ValueError] when it does not broadcast
    to [s]. *)
Definition broadcast_to (s : list nat) (a : ndarray A) : res (ndarray A) :=
  match broadcast_shapes (shape a) s with
  | Some s' =>
      if shape_eqb s' s
      then Ok (mk_ndarray s
                 (map (fun p => bget a (length s) (unravel s p)) (seq 0 (size s))))
      else Raise ValueError
  | None => Raise ValueError
  end.

(** *** Basic indexing *)

(** [a[..., lo:hi]] *)
Definition slice_last (lo hi : nat) (a : ndarray A) : res (ndarray A) :=
  match shape a with
  | [] => Raise IndexError
  | _ =>
      let n := last (shape a) 0 in
      let k := size (removelast (shape a)) in
      Ok (mk_ndarray (removelast (shape a) ++ [Nat.min hi n - Nat.min lo n])
            (flat_map (slice lo hi) (chunks n k (data a))))
  end.

(** [a[..., lo:]] *)
Definition slice_last_from (lo : nat) (a : ndarray A) : res (ndarray A) :=
  slice_last lo (last (shape a) 0) a.

(** [a[..., j]] *)
Definition index_last (j : nat) (a : ndarray A) : res (ndarray A) :=
  match shape a with
  | [] => Raise IndexError
  | _ =>
      let n := last (shape a) 0 in
      let k := size (removelast (shape a)) in
      if j <? n
      then Ok (mk_ndarray (removelast (shape a))
                 (map (fun row => nth j row dflt) (chunks n k (data a))))
      else Raise IndexError
  end.

(** [a[..., lo:hi] = v] *)
Definition set_slice_last (lo hi : nat) (a v : ndarray A) : res (ndarray A) :=
  match shape a with
  | [] => Raise IndexError
  | _ =>
      let n := last (shape a) 0 in
      let k := size (removelast (shape a)) in
      let len := Nat.min hi n - Nat.min lo n in
      v' <- broadcast_to (removelast (shape a) ++ [len]) v ;;
      Ok (mk_ndarray (shape a)
            (concat (map (fun rv => splice (Nat.min lo n) (fst rv) (snd rv))
                       (combine (chunks n k (data a)) (chunks len k (data v'))))))
  end.

(** [len(a)] *)
Definition len (a : ndarray A) : res nat :=
  match shape a with
  | d0 :: _ => Ok d0
  | [] => Raise TypeError
  end.

(** [a[i]] *)
Definition index0 (i : nat) (a : ndarray A) : res (ndarray A) :=
  match shape a with
  | d0 :: rest =>
      if i <? d0
      then Ok (mk_ndarray rest (slice (i * size rest) ((i + 1) * size rest) (data a)))
      else Raise IndexError
  | [] => Raise IndexError
  end.

(** Iterating an array: its sub-arrays along axis 0. *)
Definition iter0 (a : ndarray A) : list (ndarray A) :=
  match shape a with
  | d0 :: rest => map (mk_ndarray rest) (chunks (size rest) d0 (data a))
  | [] => []
  end.

(** [a[:, lo:hi]] *)
Definition slice_axis1 (lo hi : nat) (a : ndarray A) : res (ndarray A) :=
  match shape a with
  | d0 :: d1 :: rest =>
      let inner := size rest in
      Ok (mk_ndarray (d0 :: (Nat.min hi d1 - Nat.min lo d1) :: rest)
            (flat_map (slice (lo * inner) (hi * inner))
               (chunks (d1 * inner) d0 (data a))))
  | _ => Raise IndexError
  end.

(** [a[:, lo:hi] = v] *)
Definition set_slice_axis1 (lo hi : nat) (a v : ndarray A) : res (ndarray A) :=
  match shape a with
  | d0 :: d1 :: rest =>
      let inner := size rest in
      let len := Nat.min hi d1 - Nat.min lo d1 in
      v' <- broadcast_to (d0 :: len :: rest) v ;;
      Ok (mk_ndarray (shape a)
            (concat (map (fun rv => splice (Nat.min lo d1 * inner) (fst rv) (snd rv))
                       (combine (chunks (d1 * inner) d0 (data a))
                                (chunks (len * inner) d0 (data v'))))))
  | _ => Raise IndexError
  end.

(** [a[:, j]] *)
Definition index_axis1 (j : nat) (a : ndarray A) : res (ndarray A) :=
  match shape a with
  | d0 :: d1 :: rest =>
      let inner := size rest in
      if j <? d1
      then Ok (mk_ndarray (d0 :: rest)
                 (flat_map (slice (j * inner) ((j + 1) * inner))
                    (chunks (d1 * inner) d0 (data a))))
      else Raise IndexError
  | _ => Raise IndexError
  end.

(** [a[:, j] = v] *)
Definition set_index_axis1 (j : nat) (a v : ndarray A) : res (ndarray A) :=
  match shape a with
  | d0 :: d1 :: rest =>
      let inner := size rest in
      if j <? d1
      then
        v' <- broadcast_to (d0 :: rest) v ;;
        Ok (mk_ndarray (shape a)
              (concat (map (fun rv => splice (j * inner) (fst rv) (snd rv))
                         (combine (chunks (d1 * inner) d0 (data a))
                                  (chunks inner d0 (data v'))))))
      else Raise IndexError
  | _ => Raise IndexError
  end.

(** *** Boolean-mask indexing and concatenation *)

(** [a[m]] for a boolean array [m]: the sub-arrays of [a] at the
    positions where [m] holds, in order. *)
Definition mask_index (a : ndarray A) (m : ndarray bool) : res (ndarray A) :=
  let r := length (shape m) in
  if shape_eqb (firstn r (shape a)) (shape m)
  then
    let rest := skipn r (shape a) in
    let kept :=
      map snd (filter fst
                 (combine (data m) (chunks (size rest) (size (shape m)) (data a)))) in
    Ok (mk_ndarray (length kept :: rest) (concat kept))
  else Raise IndexError.

(** [np.concatenate(l, 1)] *)
Definition concatenate1 (l : list (ndarray A)) : res (ndarray A) :=
  match l with
  | [] => Raise ValueError
  | a :: _ =>
      match shape a with
      | d0 :: _ :: rest =>
          if forallb (fun b => match shape b with
                               | e0 :: _ :: rest' => (e0 =? d0) && shape_eqb rest' rest
                               | _ => false
                               end) l
          then
            let inner := size rest in
            let d1 b := nth 1 (shape b) 0 in
            Ok (mk_ndarray (d0 :: list_sum (map d1 l) :: rest)
                  (flat_map (fun i =>
                     flat_map (fun b =>
                       slice (i * (d1 b * inner)) ((i + 1) * (d1 b * inner)) (data b)) l)
                     (seq 0 d0)))
          else Raise ValueError
      | _ => Raise ValueError
      end
  end.

End Arrays.

(** *** Element-wise operations *)

Definition elementwise {A B : Type} (f : A -> B) (a : ndarray A) : ndarray B :=
  mk_ndarray (shape a) (map f (data a)).

(** A binary operation on two arrays, with broadcasting. *)
Definition broadcast2 {A B C : Type} `{Default A} `{Default B}
    (f : A -> B -> C) (a : ndarray A) (b : ndarray B) : res (ndarray C) :=
  match broadcast_shapes (shape a) (shape b) with
  | Some s =>
      Ok (mk_ndarray s
            (map (fun p => let idx := unravel s p in
                           f (bget a (length s) idx) (bget b (length s) idx))
               (seq 0 (size s))))
  | None => Raise ValueError
  end.

Definition arange (n : nat) : ndarray Z :=
  mk_ndarray [n] (map Z.of_nat (seq 0 n)).

Section Float.
Context {F : Type} `{Scalar F}.

(** [np.zeros_like(a)] keeps the dtype of [a]; the methods call it on float
    arrays, and this is the case embedded. *)
Definition zeros_like (a : ndarray F) : ndarray F :=
  mk_ndarray (shape a) (repeat (lit 0%Q) (size (shape a))).

Definition negative (a : ndarray F) : ndarray F := elementwise fneg a.
Definition reciprocal (a : ndarray F) : ndarray F := elementwise (fdiv (lit 1%Q)) a.
Definition exp `{Exponential F} (a : ndarray F) : ndarray F := elementwise fexp a.

(** Array with a scalar operand on the right. *)
Definition add_s (a : ndarray F) (c : F) : ndarray F := elementwise (fun x => fadd x c) a.
Definition sub_s (a : ndarray F) (c : F) : ndarray F := elementwise (fun x => fsub x c) a.
Definition mul_s (a : ndarray F) (c : F) : ndarray F := elementwise (fun x => fmul x c) a.
Definition div_s (a : ndarray F) (c : F) : ndarray F := elementwise (fun x => fdiv x c) a.
Definition gt_s (a : ndarray F) (c : F) : ndarray bool := elementwise (fun x => fgt x c) a.

(** [a ** 2] *)
Definition square (a : ndarray F) : ndarray F := elementwise (fun x => fmul x x) a.

(** [a.astype('float')] of a float array: a copy. *)
Definition astype_float (a : ndarray F) : ndarray F := elementwise (fun x => x) a.

(** An integer array as operand of a float operation. *)
Definition as_float (a : ndarray Z) : ndarray F := elementwise of_int a.

Definition add (a b : ndarray F) : res (ndarray F) := broadcast2 fadd a b.
Definition subtract (a b : ndarray F) : res (ndarray F) := broadcast2 fsub a b.
Definition multiply (a b : ndarray F) : res (ndarray F) := broadcast2 fmul a b.
End Float.

End np.

(** ** GridGenerator: [make_grid] *)

Definition make_grid (nx ny : nat) : res (ndarray Z) :=
  let nx_vec := np.arange nx in
  let ny_vec := np.arange ny in
  let '(yv, xv) := np.meshgrid ny_vec nx_vec in
  grid <- np.stack2 yv xv ;;
  np.reshape grid [1; 1; ny; nx; 2].

(** ** The processor *)

(** What [nms] hands back: [None], or a list of kept indices. *)
Inductive pyresult : Type :=
| PyNone
| PyList (l : list nat).

(** The post-processing configuration that [__init__] stores in [self]. *)
Record Processor (F : Type) : Type := mk_Processor {
  output_shapes : list (list nat);
  strides : list F;
  nl : nat;
  nc : nat;
  no : nat;
  na : nat;
  anchors : ndarray F;
  anchor_grid : ndarray F
}.

Section Methods.
Context {F : Type} `{Scalar F} `{Exponential F}.

(** [__init__], post-processing part. [a.reshape(nl, -1, 2)] keeps the
    shape [(3, 3, 2)]; [anchor_grid] is the same data seen with shape
    [(nl, 1, na, 1, 1, 2)]. *)
Definition init : Processor F :=
  let anchors :=
    mk_ndarray [3; 3; 2]
      (map of_int [10; 13; 16; 30; 33; 23;
                   30; 61; 62; 45; 59; 119;
                   116; 90; 156; 198; 373; 326]%Z) in
  let nl := nth 0 (shape anchors) 0 in
  let nc := 80 in
  let na := nth 1 (shape anchors) 0 in
  mk_Processor
    [[1; 3; 80; 80; 85]; [1; 3; 40; 40; 85]; [1; 3; 20; 20; 85]]
    [lit 8%Q; lit 16%Q; lit 32%Q]
    nl nc (nc + 5) na
    anchors
    (mk_ndarray [nl; 1; na; 1; 1; 2] (data anchors)).

(** [make_grid]: see above; it does not use [self]. *)

Definition sigmoid_v (array : ndarray F) : ndarray F :=
  np.reciprocal (np.add_s (np.exp (np.negative array)) (lit 1%Q)).

(** [detect], after the external engine has produced [outputs]: the flat
    outputs are reshaped to the configured shapes. *)
Definition detect (self : Processor F) (outputs : list (ndarray F))
  : res (list (ndarray F)) :=
  mapM (fun os => np.reshape (fst os) (snd os))
       (combine outputs (output_shapes self)).

Definition extract_object_grids (output : list (ndarray F)) : res (list (ndarray F)) :=
  mapM (fun out =>
          o <- np.slice_last 4 5 out ;;
          Ok (sigmoid_v o)) output.

(** The body of the loop of [extract_class_grids]. *)
Definition class_grid (out : ndarray F) : res (ndarray F) :=
  o <- np.slice_last 4 5 out ;;
  let object_probs := sigmoid_v o in
  c <- np.slice_last_from 5 out ;;
  let class_probs := sigmoid_v c in
  np.multiply class_probs object_probs.

Definition extract_class_grids (output : list (ndarray F)) : res (list (ndarray F)) :=
  mapM class_grid output.

(** [_, _, width, height, _ = out.shape] *)
Definition unpack5 (s : list nat) : res (nat * nat) :=
  match s with
  | [_; _; width; height; _] => Ok (width, height)
  | _ => Raise ValueError
  end.

Definition xywh2xyxy (x : ndarray F) : res (ndarray F) :=
  let y : ndarray F := np.zeros_like x in
  x0 <- np.index_axis1 0 x ;; x2 <- np.index_axis1 2 x ;;
  v <- np.subtract x0 (np.div_s x2 (of_int 2)) ;;
  y <- np.set_index_axis1 0 y v ;;
  x1 <- np.index_axis1 1 x ;; x3 <- np.index_axis1 3 x ;;
  v <- np.subtract x1 (np.div_s x3 (of_int 2)) ;;
  y <- np.set_index_axis1 1 y v ;;
  x0 <- np.index_axis1 0 x ;; x2 <- np.index_axis1 2 x ;;
  v <- np.add x0 (np.div_s x2 (of_int 2)) ;;
  y <- np.set_index_axis1 2 y v ;;
  x1 <- np.index_axis1 1 x ;; x3 <- np.index_axis1 3 x ;;
  v <- np.add x1 (np.div_s x3 (of_int 2)) ;;
  y <- np.set_index_axis1 3 y v ;;
  Ok y.

(** The first loop of [extract_boxes]. *)
Definition activate (out : ndarray F) : res (ndarray F * ndarray Z) :=
  let out := sigmoid_v out in
  '(width, height) <- unpack5 (shape out) ;;
  grid <- make_grid width height ;;
  Ok (out, grid).

(** The body of the second loop of [extract_boxes]. *)
Definition decode (ogsa : ndarray F * ndarray Z * F * ndarray F) : res (ndarray F) :=
  let '(out, grid, stride, anchor) := ogsa in
  '(width, height) <- unpack5 (shape out) ;;
  xy <- np.slice_last 0 2 out ;;
  v <- np.add (np.sub_s (np.mul_s xy (lit 2%Q)) (lit (1 # 2)%Q)) (np.as_float grid) ;;
  out <- np.set_slice_last 0 2 out (np.mul_s v stride) ;;
  wh <- np.slice_last 2 4 out ;;
  v <- np.multiply (np.square (np.mul_s wh (of_int 2))) anchor ;;
  out <- np.set_slice_last 2 4 out v ;;
  np.reshape out [1; 3 * width * height; 85].

Definition zip4 {A B C D : Type} (a : list A) (b : list B) (c : list C) (d : list D)
  : list (A * B * C * D) :=
  combine (combine (combine a b) c) d.

(** [pred] of [extract_boxes], before the confidence filter. *)
Definition predictions (self : Processor F) (output : list (ndarray F))
  : res (ndarray F) :=
  sg <- mapM activate output ;;
  let scaled := map fst sg in
  let grids := map snd sg in
  z <- mapM decode (zip4 scaled grids (strides self) (np.iter0 (anchor_grid self))) ;;
  np.concatenate1 z.

Definition extract_boxes (self : Processor F) (output : list (ndarray F))
    (conf_thres : F) : res (ndarray F) :=
  pred <- predictions self output ;;
  o <- np.index_last 4 pred ;;
  let xc := np.gt_s o conf_thres in
  pred <- np.mask_index pred xc ;;
  b <- np.slice_axis1 0 4 pred ;;
  xywh2xyxy b.

(** [nms]: the empty list for no boxes; otherwise the function ends
    after the conversion, without a [return], and the call yields
    [None]. *)
Definition nms (boxes scores : ndarray F) (iou_thres : F) (max_det : Z) : res pyresult :=
  n <- np.len boxes ;;
  if n =? 0 then Ok (PyList [])
  else
    let boxes := np.astype_float boxes in
    Ok PyNone.

(** The default of [conf_thres] in [extract_boxes]. *)
Definition conf_thres_default : F := lit (1 # 2)%Q.

End Methods.

(** ** Three instances of the scalars *)

(** Exact rational arithmetic, used to run the code on concrete inputs. *)
#[export] Instance Scalar_Q : Scalar Q := {|
  lit := Qred;
  of_int := inject_Z;
  fadd := fun a b => Qred (Qplus a b);
  fsub := fun a b => Qred (Qminus a b);
  fmul := fun a b => Qred (Qmult a b);
  fdiv := fun a b => Qred (Qdiv a b);
  fneg := fun a => Qred (Qopp a);
  fgt := fun a b => negb (Qle_bool a b)
|}.

(** The real numbers: floating-point values without NaN, infinities and
    rounding. *)
Definition Rgtb (a b : R) : bool := if Rlt_dec b a then true else false.

#[export] Instance Scalar_R : Scalar R := {|
  lit := Q2R;
  of_int := IZR;
  fadd := Rplus;
  fsub := Rminus;
  fmul := Rmult;
  fdiv := Rdiv;
  fneg := Ropp;
  fgt := Rgtb
|}.

#[export] Instance Exponential_R : Exponential R := {| fexp := exp |}.

(** A floating-point value as far as the order properties need it: a
    real number, or NaN.  An operation with a NaN operand gives NaN, and a
    comparison with a NaN operand is false.  There are no infinities and no
    rounding; a division by zero, which the methods never perform on
    numbers (they divide by [exp(..) + 1] and by 2), is NaN. *)
Inductive flt : Type :=
| Num (x : R)
| NaN.

Definition flt_op2 (f : R -> R -> R) (a b : flt) : flt :=
  match a, b with
  | Num x, Num y => Num (f x y)
  | _, _ => NaN
  end.

Definition flt_div (a b : flt) : flt :=
  match a, b with
  | Num x, Num y => if Req_EM_T y 0 then NaN else Num (x / y)
  | _, _ => NaN
  end.

Definition flt_neg (a : flt) : flt :=
  match a with
  | Num x => Num (- x)
  | NaN => NaN
  end.

Definition flt_gt (a b : flt) : bool :=
  match a, b with
  | Num x, Num y => Rgtb x y
  | _, _ => false
  end.

Definition flt_exp (a : flt) : flt :=
  match a with
  | Num x => Num (exp x)
  | NaN => NaN
  end.

#[export] Instance Scalar_flt : Scalar flt := {|
  lit := fun q => Num (Q2R q);
  of_int := fun z => Num (IZR z);
  fadd := flt_op2 Rplus;
  fsub := flt_op2 Rminus;
  fmul := flt_op2 Rmult;
  fdiv := flt_div;
  fneg := flt_neg;
  fgt := flt_gt
|}.

#[export] Instance Exponential_flt : Exponential flt := {| fexp := flt_exp |}.

(** ** Arrays as objects

    The methods again, with the arrays they create and write held in a
    store of buffers.  An array object is a buffer of the store seen with a
    shape; [reshape] returns a second object on the same buffer.  Expression
    temporaries, the integer grids and the boolean masks stay values. *)

Module Obj.

Record ref : Type := mk_ref { loc : nat; shp : list nat }.

Definition store (F : Type) : Type := list (list F).

Definition M (F A : Type) : Type := store F -> res A * store F.

Definition ret {F A : Type} (a : A) : M F A := fun s => (Ok a, s).

Definition bind {F A B : Type} (m : M F A) (k : A -> M F B) : M F B :=
  fun s => match m s with
           | (Ok a, s') => k a s'
           | (Raise e, s') => (Raise e, s')
           end.

Definition raise {F A : Type} (e : exn) : M F A := fun s => (Raise e, s).

(** A computation on values, inside the store monad. *)
Definition lift {F A : Type} (x : res A) : M F A := fun s => (x, s).

Declare Scope obj_scope.
Delimit Scope obj_scope with obj.
Notation "x <- m ;; k" := (bind m (fun x => k))
  (at level 61, m at next level, right associativity) : obj_scope.
Notation "' p <- m ;; k" := (bind m (fun x => match x with p => k end))
  (at level 61, p pattern, m at next level, right associativity) : obj_scope.
Notation "m ;; k" := (bind m (fun _ => k))
  (at level 61, right associativity) : obj_scope.

Fixpoint update {A : Type} (i : nat) (x : A) (l : list A) : list A :=
  match l, i with
  | [], _ => []
  | _ :: l', 0 => x :: l'
  | y :: l', S i' => y :: update i' x l'
  end.

Section Methods.
Context {F : Type} `{Scalar F} `{Exponential F}.
Local Open Scope obj_scope.

Fixpoint mapM {A B : Type} (f : A -> M F B) (l : list A) : M F (list B) :=
  match l with
  | [] => ret []
  | x :: l' => y <- f x ;; ys <- mapM f l' ;; ret (y :: ys)
  end.

(** The value an object has in a store. *)
Definition deref (s : store F) (r : ref) : ndarray F :=
  mk_ndarray (shp r) (nth (loc r) s []).

Definition load (r : ref) : M F (ndarray F) := fun s => (Ok (deref s r), s).

(** A new array object for the value [v]. *)
Definition new (v : ndarray F) : M F ref :=
  fun s => (Ok (mk_ref (length s) (shape v)), s ++ [data v]).

(** The buffer of [r] overwritten with the elements of [v]. *)
Definition assign (r : ref) (v : ndarray F) : M F unit :=
  fun s => (Ok tt, update (loc r) (data v) s).

(** [r.reshape(s)]: the same buffer, seen with shape [s]. *)
Definition reshape (r : ref) (s : list nat) : M F ref :=
  if size (shp r) =? size s then ret (mk_ref (loc r) s) else raise ValueError.

(** [r[..., lo:hi] = v] *)
Definition set_slice_last (lo hi : nat) (r : ref) (v : ndarray F) : M F unit :=
  a <- load r ;; a' <- lift (np.set_slice_last lo hi a v) ;; assign r a'.

(** [r[:, lo:hi] = v] *)
Definition set_slice_axis1 (lo hi : nat) (r : ref) (v : ndarray F) : M F unit :=
  a <- load r ;; a' <- lift (np.set_slice_axis1 lo hi a v) ;; assign r a'.

(** [r[:, j] = v] *)
Definition set_index_axis1 (j : nat) (r : ref) (v : ndarray F) : M F unit :=
  a <- load r ;; a' <- lift (np.set_index_axis1 j a v) ;; assign r a'.

(** [xywh2xyxy]: [x] is only read; [y] is a new object, written column
    by column. *)
Definition xywh2xyxy (x : ndarray F) : M F ref :=
  y <- new (np.zeros_like x) ;;
  x0 <- lift (np.index_axis1 0 x) ;; x2 <- lift (np.index_axis1 2 x) ;;
  v <- lift (np.subtract x0 (np.div_s x2 (of_int 2))) ;;
  set_index_axis1 0 y v ;;
  x1 <- lift (np.index_axis1 1 x) ;; x3 <- lift (np.index_axis1 3 x) ;;
  v <- lift (np.subtract x1 (np.div_s x3 (of_int 2))) ;;
  set_index_axis1 1 y v ;;
  x0 <- lift (np.index_axis1 0 x) ;; x2 <- lift (np.index_axis1 2 x) ;;
  v <- lift (np.add x0 (np.div_s x2 (of_int 2))) ;;
  set_index_axis1 2 y v ;;
  x1 <- lift (np.index_axis1 1 x) ;; x3 <- lift (np.index_axis1 3 x) ;;
  v <- lift (np.add x1 (np.div_s x3 (of_int 2))) ;;
  set_index_axis1 3 y v ;;
  ret y.

(** The body of the loop of [extract_class_grids]. *)
Definition class_grid (out : ref) : M F ref :=
  a <- load out ;;
  o <- lift (np.slice_last 4 5 a) ;;
  object_probs <- new (sigmoid_v o) ;;
  c <- lift (np.slice_last_from 5 a) ;;
  class_probs <- new (sigmoid_v c) ;;
  cp <- load class_probs ;; op <- load object_probs ;;
  obj_class_probs <- lift (np.multiply cp op) ;;
  new obj_class_probs.

(** The body of the loop of [extract_object_grids]: the slice is only
    read, [sigmoid_v] makes a new object. *)
Definition object_grid (out : ref) : M F ref :=
  a <- load out ;;
  o <- lift (np.slice_last 4 5 a) ;;
  new (sigmoid_v o).

Definition extract_object_grids (output : list ref) : M F (list ref) :=
  mapM object_grid output.

Definition extract_class_grids (output : list ref) : M F (list ref) :=
  mapM class_grid output.

(** The first loop of [extract_boxes]: [out] is rebound to a new
    object, the input object is only read. *)
Definition activate (out : ref) : M F (ref * ndarray Z) :=
  a <- load out ;;
  out <- new (sigmoid_v a) ;;
  '(width, height) <- lift (unpack5 (shp out)) ;;
  grid <- lift (make_grid width height) ;;
  ret (out, grid).

(** The body of the second loop: the two slice assignments write into
    the object made by the first loop. *)
Definition decode (ogsa : ref * ndarray Z * F * ndarray F) : M F ref :=
  let '(out, grid, stride, anchor) := ogsa in
  '(width, height) <- lift (unpack5 (shp out)) ;;
  a <- load out ;;
  xy <- lift (np.slice_last 0 2 a) ;;
  v <- lift (np.add (np.sub_s (np.mul_s xy (lit 2%Q)) (lit (1 # 2)%Q))
                    (np.as_float grid)) ;;
  set_slice_last 0 2 out (np.mul_s v stride) ;;
  a <- load out ;;
  wh <- lift (np.slice_last 2 4 a) ;;
  v <- lift (np.multiply (np.square (np.mul_s wh (of_int 2))) anchor) ;;
  set_slice_last 2 4 out v ;;
  reshape out [1; 3 * width * height; 85].

Definition extract_boxes (self : Processor F) (output : list ref) (conf_thres : F)
  : M F ref :=
  sg <- mapM activate output ;;
  let scaled := map fst sg in
  let grids := map snd sg in
  z <- mapM decode (zip4 scaled grids (strides self) (np.iter0 (anchor_grid self))) ;;
  zv <- mapM load z ;;
  p <- lift (np.concatenate1 zv) ;;
  pred <- new p ;;
  a <- load pred ;;
  o <- lift (np.index_last 4 a) ;;
  let xc := np.gt_s o conf_thres in
  p <- lift (np.mask_index a xc) ;;
  pred <- new p ;;
  a <- load pred ;;
  b <- lift (np.slice_axis1 0 4 a) ;;
  xywh2xyxy b.

(** One round of the loop of [non_max_suppression], up to
    [sys.exit()]; the statements after it are never reached. *)
Definition suppress_one (pred : ref) (xc : ndarray bool) (xi : nat) : M F unit :=
  p <- load pred ;;
  x <- lift (np.index0 xi p) ;;
  m <- lift (np.index0 xi xc) ;;
  xk <- lift (np.mask_index x m) ;;
  x <- new xk ;;
  a <- load x ;;
  l <- lift (np.slice_axis1 5 (nth 1 (shape a) 0) a) ;;
  r <- lift (np.slice_axis1 4 5 a) ;;
  v <- lift (np.multiply l r) ;;
  set_slice_axis1 5 (nth 1 (shape a) 0) x v ;;
  a <- load x ;;
  _ <- lift (np.index_axis1 4 a) ;;
  x0 <- lift (np.index0 0 a) ;;
  _ <- lift (np.slice_last_from 5 x0) ;;
  b <- lift (np.slice_axis1 0 4 a) ;;
  box <- xywh2xyxy b ;;
  raise SystemExit.

Definition non_max_suppression (pred : ref) (conf_thres iou_thres : F)
    (classes : option (list nat)) : M F (list (option ref)) :=
  p <- load pred ;;
  p0 <- lift (np.index0 0 p) ;;
  _ <- lift (match shape p0 with
             | _ :: d1 :: _ => Ok (Z.of_nat d1 - 5)%Z
             | _ => Raise IndexError
             end) ;;
  o <- lift (np.index_last 4 p) ;;
  let xc := np.gt_s o (lit (1 # 10)%Q) in
  n <- lift (np.len p) ;;
  let output := repeat None n in
  mapM (suppress_one pred xc) (seq 0 n) ;;
  ret output.

End Methods.

End Obj.


(** * Vocabulary of the statements *)

(** ** Indices, grids and cells *)

(** [idx] is a valid index of an array of shape [s]. *)
Definition inb (idx s : list nat) : Prop := Forall2 lt idx s.

(** The elements of the grid, before the final reshape: pair number [m]
    holds [(m mod ny, m / ny)]. *)
Definition grid_data (nx ny : nat) : list Z :=
  flat_map (fun p => [fst p; snd p])
    (combine (flat_map (fun _ => map Z.of_nat (seq 0 ny)) (map Z.of_nat (seq 0 nx)))
             (flat_map (fun y => map (fun _ => y) (map Z.of_nat (seq 0 ny)))
                       (map Z.of_nat (seq 0 nx)))).

(** Row number of the cell of anchor [a], row [gy] and column [gx] in an
    array of shape [(1, 3, n, n, _)]. *)
Definition cell (n a gy gx : nat) : nat := (a * n + gy) * n + gx.

(** Grid size of an output of shape [(1, 3, n, n, 85)]. *)
Definition gsize {A : Type} (out : ndarray A) : nat := nth 2 (shape out) 0.

Definition shaped {A : Type} (out : ndarray A) : Prop :=
  shape out = [1; 3; gsize out; gsize out; 85] /\ wf out.

(** Number of rows that the scales before scale [i] contribute. *)
Definition offset {A : Type} (output : list (ndarray A)) (i : nat) : nat :=
  list_sum (map (fun out => 3 * gsize out * gsize out) (firstn i output)).

(** ** Decoded rows, boxes and candidates *)

Section Rows.
Context {F : Type} `{Scalar F}.

(** Entry [k] of a decoded row, from the activated row [o], the cell's
    column [gx] and row [gy], the stride and the anchor [(aw, ah)]. *)
Definition decoded (stride aw ah : F) (gx gy : nat) (o : nat -> F) (k : nat) : F :=
  match k with
  | 0 => fmul (fadd (fsub (fmul (o 0) (lit 2%Q)) (lit (1 # 2)%Q))
                    (of_int (Z.of_nat gx))) stride
  | 1 => fmul (fadd (fsub (fmul (o 1) (lit 2%Q)) (lit (1 # 2)%Q))
                    (of_int (Z.of_nat gy))) stride
  | 2 => fmul (fmul (fmul (o 2) (of_int 2)) (fmul (o 2) (of_int 2))) aw
  | 3 => fmul (fmul (fmul (o 3) (of_int 2)) (fmul (o 3) (of_int 2))) ah
  | _ => o k
  end.

(** One row [x, y, w, h] in corner form. *)
Definition xyxy (r : list F) : list F :=
  [fsub (nth 0 r dflt) (fdiv (nth 2 r dflt) (of_int 2));
   fsub (nth 1 r dflt) (fdiv (nth 3 r dflt) (of_int 2));
   fadd (nth 0 r dflt) (fdiv (nth 2 r dflt) (of_int 2));
   fadd (nth 1 r dflt) (fdiv (nth 3 r dflt) (of_int 2))].

(** The rows of [pred] whose objectness (entry 4) exceeds the threshold. *)
Definition kept_rows (conf_thres : F) (N : nat) (pred : ndarray F) : list (list F) :=
  filter (fun row => fgt (nth 4 row dflt) conf_thres) (chunks 85 N (data pred)).

(** An output whose element count differs from that of its shape. *)
Definition mismatch (os : ndarray F * list nat) : bool :=
  negb (size (shape (fst os)) =? size (snd os)).

End Rows.

Section Scales.
Context {F : Type} `{Scalar F} `{Exponential F}.

(** [z] is the decoded form of the raw output [out] for one scale. *)
Definition decodes (out : ndarray F) (stride : F) (anchor : ndarray F) (z : ndarray F)
  : Prop :=
  let n := gsize out in
  shape z = [1; 3 * n * n; 85] /\ wf z /\
  forall a gy gx k d, a < 3 -> gy < n -> gx < n -> k < 85 ->
    nth (cell n a gy gx * 85 + k) (data z) d =
    decoded stride (nth (a * 2) (data anchor) dflt) (nth (a * 2 + 1) (data anchor) dflt)
      gx gy (fun j => sigmoid (nth (cell n a gy gx * 85 + j) (data out) d)) k.

(** The outputs, strides and anchors that the second loop pairs up, and
    the decoded arrays it appends to [z]. *)
Inductive decoded_scales :
  list (ndarray F) -> list F -> list (ndarray F) -> list (ndarray F) -> Prop :=
| ds_nil_out ss ancs : decoded_scales [] ss ancs []
| ds_nil_stride outs ancs : decoded_scales outs [] ancs []
| ds_nil_anchor outs ss : decoded_scales outs ss [] []
| ds_cons out outs s ss anc ancs z zs :
    decodes out s anc z -> decoded_scales outs ss ancs zs ->
    decoded_scales (out :: outs) (s :: ss) (anc :: ancs) (z :: zs).

(** [g] holds the fused class scores of the raw output [out]. *)
Definition fuses (out g : ndarray F) : Prop :=
  let o := removelast (shape out) in
  let m := last (shape out) 0 in
  shape g = o ++ [m - 5] /\
  forall idx c, inb idx o -> c < m - 5 ->
    get g (idx ++ [c]) =
    fmul (sigmoid (get out (idx ++ [5 + c]))) (sigmoid (get out (idx ++ [4]))).

(** No candidate of [output] has an activated objectness above
    [conf_thres]. *)
Definition none_above (conf_thres : F) (output : list (ndarray F)) : Prop :=
  forall i out a gy gx,
    nth_error output i = Some out -> i < 3 ->
    a < 3 -> gy < gsize out -> gx < gsize out ->
    fgt (sigmoid (get out [0; a; gy; gx; 4])) conf_thres = false.

End Scales.

(** ** Order of floating-point values, and rows of numbers *)

(** [a <= b] on floating-point values: false when an operand is NaN. *)
Definition fle (a b : flt) : Prop :=
  match a, b with
  | Num x, Num y => (x <= y)%R
  | _, _ => False
  end.

Definition is_num (a : flt) : Prop := a <> NaN.

(** An array without NaN. *)
Definition no_nan (out : ndarray flt) : Prop := Forall is_num (data out).

(** The tests a decoded row passes when the raw values are numbers: the
    four box entries are numbers, width and height are not negative, and the
    activated entries (objectness and class probabilities) lie in (0, 1). *)
Definition row_num (row : list flt) : Prop :=
  (exists cx cy w h,
      nth 0 row dflt = Num cx /\ nth 1 row dflt = Num cy /\
      nth 2 row dflt = Num w /\ nth 3 row dflt = Num h /\
      (0 <= w)%R /\ (0 <= h)%R) /\
  forall k, 4 <= k < 85 -> exists s, nth k row dflt = Num s /\ (0 < s < 1)%R.

(** The indices of the boxes that a result of [nms] holds. *)
Definition kept (r : pyresult) : list nat :=
  match r with
  | PyNone => []
  | PyList l => l
  end.

(** ** Concrete inputs *)

(** An all-zero raw output of one scale with a 1 by 1 grid. *)
Definition zeros_1x1 : ndarray R := mk_ndarray [1; 3; 1; 1; 85] (repeat 0%R 255).

(** A raw output of one scale with a 1 by 1 grid: the first anchor has the
    box parameter [tx] and the objectness 1000, all other entries are 0. *)
Definition one_candidate (tx : flt) : ndarray flt :=
  mk_ndarray [1; 3; 1; 1; 85]
    ([tx; Num 0; Num 0; Num 0; Num 1000] ++ repeat (Num 0) 250).

(** The flat all-zero outputs of the engine for the three configured
    scales. *)
Definition zeros_flat (n : nat) : ndarray R := mk_ndarray [n] (repeat 0%R n).

Definition engine_zeros : list (ndarray R) :=
  [zeros_flat (3 * 80 * 80 * 85); zeros_flat (3 * 40 * 40 * 85); zeros_flat (3 * 20 * 20 * 85)].

(** One box with score 0.9, and the defaults of [nms]. *)
Definition one_box : ndarray Q := mk_ndarray [1; 4] [0; 0; 1; 1]%Q.

Definition one_score : ndarray Q := mk_ndarray [1] [(9 # 10)%Q].

(** The store with one all-zero raw output, and the object for it. *)
Definition zeros_store : Obj.store R := [repeat 0%R 255].

Definition zeros_ref : Obj.ref := Obj.mk_ref 0 [1; 3; 1; 1; 85].

(** One image with two candidates of one class: objectness 0.5 and 0.05. *)
Definition two_candidates : Obj.store Q :=
  [[0; 0; 2; 2; 1 # 2; 1;
    4; 4; 2; 2; 1 # 20; 1]%Q].

Definition two_candidates_ref : Obj.ref := Obj.mk_ref 0 [1; 2; 6].

(** ** Runs of the object-level methods *)

(** An object made after the first [n] buffers. *)
Definition later (n : nat) (r : Obj.ref) : Prop := n <= Obj.loc r.

Section Runs.
Context {F : Type} `{Scalar F} `{Exponential F}.

(** [m] leaves the first [n] buffers of the store as they are, raises or
    not, and returns only values that satisfy [P]. *)
Definition keeps {A : Type} (n : nat) (P : A -> Prop) (m : Obj.M F A) : Prop :=
  forall s, n <= length s ->
    (n <= length (snd (m s)) /\ firstn n (snd (m s)) = firstn n s) /\
    forall a, fst (m s) = Ok a -> P a.

(** [m] ends in an exception from every store. *)
Definition fails {A : Type} (m : Obj.M F A) : Prop :=
  forall s, exists e, fst (m s) = Raise e.

(** [m] ends in the exception [e] from every store. *)
Definition raises {A : Type} (e : exn) (m : Obj.M F A) : Prop :=
  forall s, fst (m s) = Raise e.

(** The object-level computation [m], run from the store [s], follows
    the value-level result [x]: it raises as [x] does, or returns a result
    and a store that [Q] relates to the value of [x]. *)
Definition runs {A V : Type} (m : Obj.M F A) (s : Obj.store F) (x : res V)
    (Q : A -> Obj.store F -> V -> Prop) : Prop :=
  match x with
  | Ok v => exists a s', m s = (Ok a, s') /\ Q a s' v
  | Raise e => exists s', m s = (Raise e, s')
  end.

(** The objects of the first loop, made one after the other from buffer
    [n] on, for the activated values [sgv]. *)
Fixpoint activated (n : nat) (sgv : list (ndarray F * ndarray Z))
  : list (Obj.ref * ndarray Z) :=
  match sgv with
  | [] => []
  | vg :: sgv' => (Obj.mk_ref n (shape (fst vg)), snd vg) :: activated (S n) sgv'
  end.

(** The buffer and the value of the array of an item of the second
    loop. *)
Definition item_loc (it : Obj.ref * ndarray Z * F * ndarray F) : nat :=
  Obj.loc (fst (fst (fst it))).

Definition item_val (s : Obj.store F) (it : Obj.ref * ndarray Z * F * ndarray F)
  : ndarray F * ndarray Z * F * ndarray F :=
  let '(r, g, st, anc) := it in (Obj.deref s r, g, st, anc).

End Runs.

(** * Properties *)

(** ** Lists: blocks, slices and tabulated lists *)

Section ListFacts.
Context {A : Type}.
Implicit Types (l : list A) (ll : list (list A)).

Lemma length_chunks n k l : length (chunks n k l) = k.
Proof. revert l; induction k; simpl; intros; [reflexivity | now rewrite IHk]. Qed.

Lemma chunks_uniform n k l :
  length l = k * n -> Forall (fun c => length c = n) (chunks n k l).
Proof.
  revert l; induction k; simpl; intros l Hl; constructor.
  - rewrite length_firstn. lia.
  - apply IHk. rewrite length_skipn. lia.
Qed.

Lemma concat_chunks n k l : length l = k * n -> concat (chunks n k l) = l.
Proof.
  revert l; induction k; simpl; intros l Hl.
  - destruct l; [reflexivity | discriminate].
  - rewrite IHk by (rewrite length_skipn; lia). apply firstn_skipn.
Qed.

Lemma chunks_concat n ll :
  Forall (fun c => length c = n) ll -> chunks n (length ll) (concat ll) = ll.
Proof.
  induction 1 as [|c ll Hc _ IH]; simpl; [reflexivity|].
  rewrite firstn_app, skipn_app, Hc, Nat.sub_diag, firstn_all2, skipn_all2 by lia.
  simpl. rewrite app_nil_r. now rewrite IH.
Qed.

Lemma length_concat_uniform n ll :
  Forall (fun c => length c = n) ll -> length (concat ll) = length ll * n.
Proof. induction 1; simpl; [reflexivity | rewrite length_app; lia]. Qed.

Lemma nth_concat_uniform n ll i j d :
  Forall (fun c => length c = n) ll -> j < n ->
  nth (i * n + j) (concat ll) d = nth j (nth i ll []) d.
Proof.
  intros Hu Hj. revert i. induction Hu as [|c ll Hc _ IH]; intros i.
  - assert (Hnil : forall B k (e : B), nth k [] e = e) by (now intros B [|k]).
    cbn [concat]. now rewrite !Hnil.
  - destruct i; simpl.
    + apply app_nth1. lia.
    + rewrite app_nth2 by lia. rewrite <- IH. f_equal. lia.
Qed.

Lemma nth_chunks n k l i :
  i < k -> nth i (chunks n k l) [] = firstn n (skipn (i * n) l).
Proof.
  revert l i; induction k; intros l i Hi; [lia|].
  destruct i; simpl; [reflexivity|].
  rewrite IHk by lia. now rewrite skipn_skipn, Nat.add_comm.
Qed.

Lemma nth_firstn_skipn n m j l d :
  j < n -> nth j (firstn n (skipn m l)) d = nth (m + j) l d.
Proof.
  intros Hj. rewrite nth_firstn.
  destruct (Nat.ltb_spec j n); [|lia]. apply nth_skipn.
Qed.

Lemma nth_slice lo hi j l d :
  lo + j < hi -> nth j (slice lo hi l) d = nth (lo + j) l d.
Proof. intros Hj. unfold slice. apply nth_firstn_skipn. lia. Qed.

Lemma length_slice lo hi l :
  length (slice lo hi l) = Nat.min hi (length l) - Nat.min lo (length l).
Proof. unfold slice. rewrite length_firstn, length_skipn. lia. Qed.

Lemma nth_chunk_elem n k l i j d :
  i < k -> j < n -> nth j (nth i (chunks n k l) []) d = nth (i * n + j) l d.
Proof. intros Hi Hj. rewrite nth_chunks by assumption. now apply nth_firstn_skipn. Qed.

Lemma length_splice lo (row v : list A) :
  lo + length v <= length row -> length (splice lo row v) = length row.
Proof.
  intros Hb. unfold splice.
  rewrite !length_app, length_firstn, length_skipn. lia.
Qed.

Lemma nth_splice lo (row v : list A) j d :
  lo + length v <= length row ->
  nth j (splice lo row v) d =
  if (lo <=? j) && (j <? lo + length v) then nth (j - lo) v d else nth j row d.
Proof.
  intros Hb. unfold splice.
  destruct (Nat.leb_spec lo j) as [Hlo|Hlo]; simpl.
  - rewrite app_nth2 by (rewrite length_firstn; lia).
    rewrite length_firstn, Nat.min_l by lia.
    destruct (Nat.ltb_spec j (lo + length v)) as [Hhi|Hhi].
    + apply app_nth1. lia.
    + rewrite app_nth2 by lia. rewrite nth_skipn. f_equal. lia.
  - rewrite app_nth1 by (rewrite length_firstn; lia).
    rewrite nth_firstn. destruct (Nat.ltb_spec j lo); [reflexivity | lia].
Qed.

Lemma tabulate_nth (l : list A) d :
  map (fun p => nth p l d) (seq 0 (length l)) = l.
Proof.
  apply nth_ext with (d := d) (d' := d).
  - now rewrite length_map, length_seq.
  - intros n Hn. rewrite length_map, length_seq in Hn.
    rewrite (nth_indep _ d (nth 0 l d)) by now rewrite length_map, length_seq.
    rewrite (map_nth (fun p => nth p l d)), seq_nth by assumption. reflexivity.
Qed.

Lemma nth_tabulate (f : nat -> A) n p d :
  p < n -> nth p (map f (seq 0 n)) d = f p.
Proof.
  intros Hp. rewrite (nth_indep _ d (f 0)) by now rewrite length_map, length_seq.
  rewrite (map_nth f), seq_nth by assumption. reflexivity.
Qed.

End ListFacts.

Lemma chunks_map {A B : Type} (f : A -> B) n k (l : list A) :
  chunks n k (map f l) = map (map f) (chunks n k l).
Proof.
  revert l; induction k; simpl; intros; [reflexivity|].
  now rewrite firstn_map, skipn_map, IHk.
Qed.

Lemma nth_map_in {A B : Type} (f : A -> B) (l : list A) p d d' :
  p < length l -> nth p (map f l) d' = f (nth p l d).
Proof.
  intros Hp. rewrite (nth_indep _ d' (f d)) by now rewrite length_map.
  apply map_nth.
Qed.

(** ** Shapes and multi-indices *)


Lemma ravel_lt s idx : inb idx s -> ravel s idx < size s.
Proof.
  induction 1 as [|i d idx s Hi _ IH]; simpl; [lia|]. nia.
Qed.

Lemma unravel_ravel s idx : inb idx s -> unravel s (ravel s idx) = idx.
Proof.
  induction 1 as [|i d idx s Hi Hr IH]; simpl; [reflexivity|].
  pose proof (ravel_lt Hr) as Hlt.
  assert (Hs : size s <> 0) by lia.
  rewrite Nat.div_add_l, Nat.div_small, Nat.add_0_r by assumption.
  f_equal. rewrite Nat.add_comm, Nat.Div0.mod_add, Nat.mod_small by assumption.
  exact IH.
Qed.

Lemma unravel_inb s p : p < size s -> inb (unravel s p) s.
Proof.
  revert p; induction s as [|d s IH]; simpl; intros p Hp; constructor.
  - assert (Hs : size s <> 0) by (intros E; rewrite E in Hp; lia).
    apply Nat.Div0.div_lt_upper_bound. lia.
  - apply IH. apply Nat.mod_upper_bound. intros E; rewrite E in Hp; lia.
Qed.

Lemma ravel_unravel s p : p < size s -> ravel s (unravel s p) = p.
Proof.
  revert p; induction s as [|d s IH]; simpl; intros p Hp; [lia|].
  assert (Hs : size s <> 0) by (intros E; rewrite E in Hp; lia).
  rewrite IH by (apply Nat.mod_upper_bound; assumption).
  rewrite (Nat.div_mod_eq p (size s)) at 3. lia.
Qed.

Lemma inb_length idx s : inb idx s -> length idx = length s.
Proof. induction 1; simpl; congruence. Qed.

Lemma nth_flat_map_uniform {A B : Type} (f : A -> list B) n (l : list A) i j d :
  (forall x, length (f x) = n) -> i < length l -> j < n ->
  forall e, nth (i * n + j) (flat_map f l) d = nth j (f (nth i l e)) d.
Proof.
  intros Hf Hi Hj e. rewrite flat_map_concat_map.
  rewrite nth_concat_uniform with (n := n); [|apply Forall_map, Forall_forall; auto|assumption].
  now rewrite (nth_map_in f l e []) by assumption.
Qed.

Lemma length_flat_map_uniform {A B : Type} (f : A -> list B) n (l : list A) :
  (forall x, length (f x) = n) -> length (flat_map f l) = length l * n.
Proof.
  intros Hf. rewrite flat_map_concat_map.
  rewrite length_concat_uniform with (n := n), length_map; [reflexivity|].
  apply Forall_map, Forall_forall; auto.
Qed.

Lemma shape_eqb_refl s : shape_eqb s s = true.
Proof. unfold shape_eqb. now destruct (list_eq_dec Nat.eq_dec s s). Qed.

Lemma shape_eqb_eq s1 s2 : shape_eqb s1 s2 = true <-> s1 = s2.
Proof.
  unfold shape_eqb. destruct (list_eq_dec Nat.eq_dec s1 s2); split; congruence.
Qed.

(** ** [make_grid] *)


Lemma make_grid_ok nx ny :
  make_grid nx ny = Ok (mk_ndarray [1; 1; ny; nx; 2] (grid_data nx ny)).
Proof.
  unfold make_grid, np.meshgrid, np.stack2, np.arange; cbn [shape data bind].
  rewrite shape_eqb_refl. cbn [bind]. unfold np.reshape; cbn [shape data app].
  rewrite !length_map, !length_seq.
  replace (size [nx; ny; 2] =? size [1; 1; ny; nx; 2]) with true
    by (symmetry; apply Nat.eqb_eq; simpl; lia).
  reflexivity.
Qed.

Lemma length_grid_data nx ny : length (grid_data nx ny) = nx * ny * 2.
Proof.
  unfold grid_data.
  rewrite length_flat_map_uniform with (n := 2) by reflexivity.
  rewrite length_combine.
  rewrite !length_flat_map_uniform with (n := ny)
    by (intros; now rewrite ?length_map, length_seq).
  rewrite !length_map, length_seq. lia.
Qed.

Lemma grid_data_nth nx ny m c :
  m < nx * ny -> c < 2 ->
  nth (m * 2 + c) (grid_data nx ny) 0%Z =
  Z.of_nat (if c =? 0 then m mod ny else m / ny).
Proof.
  intros Hm Hc. unfold grid_data.
  assert (Hny : ny <> 0) by (intros ->; lia).
  assert (Hi : m / ny < nx) by (apply Nat.Div0.div_lt_upper_bound; lia).
  assert (Hj : m mod ny < ny) by now apply Nat.mod_upper_bound.
  assert (Em : m = (m / ny) * ny + m mod ny) by (rewrite (Nat.div_mod_eq m ny) at 1; lia).
  set (yv := flat_map (fun _ : Z => map Z.of_nat (seq 0 ny)) _).
  set (xv := flat_map (fun y : Z => map (fun _ => y) _) _).
  assert (Ly : length yv = nx * ny).
  { unfold yv. rewrite length_flat_map_uniform with (n := ny)
      by (intros; now rewrite length_map, length_seq).
    now rewrite length_map, length_seq. }
  assert (Lx : length xv = nx * ny).
  { unfold xv. rewrite length_flat_map_uniform with (n := ny)
      by (intros; now rewrite !length_map, length_seq).
    now rewrite length_map, length_seq. }
  rewrite nth_flat_map_uniform with (n := 2) (e := (0%Z, 0%Z));
    [|reflexivity|rewrite length_combine; lia|assumption].
  rewrite combine_nth by congruence. cbn [fst snd].
  assert (Ey : nth m yv 0%Z = Z.of_nat (m mod ny)).
  { unfold yv. rewrite Em at 1.
    rewrite nth_flat_map_uniform with (n := ny) (e := 0%Z);
      [|intros; now rewrite length_map, length_seq
       |now rewrite length_map, length_seq|assumption].
    rewrite nth_map_in with (d := 0) by now rewrite length_seq.
    now rewrite seq_nth. }
  assert (Ex : nth m xv 0%Z = Z.of_nat (m / ny)).
  { unfold xv. rewrite Em at 1.
    rewrite nth_flat_map_uniform with (n := ny) (e := 0%Z);
      [|intros; now rewrite !length_map, length_seq
       |now rewrite length_map, length_seq|assumption].
    rewrite nth_map_in with (d := 0%Z) by now rewrite length_map, length_seq.
    rewrite nth_map_in with (d := 0) by now rewrite length_seq.
    now rewrite seq_nth. }
  destruct c as [|[|c]]; [| |lia]; simpl; congruence.
Qed.

(** The content of every cell of the grid, for every width and height:
    the cell in row [gy] and column [gx] holds the pair numbered
    [gy * nx + gx] of the row-major enumeration of an [nx] by [ny] array. *)
Lemma make_grid_cell nx ny g gy gx :
  make_grid nx ny = Ok g -> gy < ny -> gx < nx ->
  get g [0; 0; gy; gx; 0] = Z.of_nat ((gy * nx + gx) mod ny) /\
  get g [0; 0; gy; gx; 1] = Z.of_nat ((gy * nx + gx) / ny).
Proof.
  rewrite make_grid_ok. intros [= <-] Hy Hx. unfold get; simpl.
  assert (Hm : gy * nx + gx < nx * ny) by nia.
  split.
  - replace (_ + _) with ((gy * nx + gx) * 2 + 0) by lia.
    unfold dflt, Default_Z. now rewrite grid_data_nth by (assumption || lia).
  - replace (_ + _) with ((gy * nx + gx) * 2 + 1) by lia.
    unfold dflt, Default_Z. now rewrite grid_data_nth by (assumption || lia).
Qed.

Example make_grid_2_2 :
  make_grid 2 2 = Ok (mk_ndarray [1; 1; 2; 2; 2] [0; 0; 1; 0; 0; 1; 1; 1]%Z).
Proof. reflexivity. Qed.

Example make_grid_2_3 :
  make_grid 2 3 =
  Ok (mk_ndarray [1; 1; 3; 2; 2] [0; 0; 1; 0; 2; 0; 0; 1; 1; 1; 2; 1]%Z).
Proof. reflexivity. Qed.

(** C2, as the code has it.  For every width and height the grid has shape
    [(1, 1, height, width, 2)]; in a square grid the cell in row [gy] and
    column [gx] stores the pair [(gx, gy)]: the column first, then the
    row. *)
Theorem make_grid_square_cells :
  (forall nx ny, exists g, make_grid nx ny = Ok g /\ shape g = [1; 1; ny; nx; 2]) /\
  (forall n gy gx, gy < n -> gx < n ->
     exists g, make_grid n n = Ok g /\
               get g [0; 0; gy; gx; 0] = Z.of_nat gx /\
               get g [0; 0; gy; gx; 1] = Z.of_nat gy).
Proof.
  split.
  - intros nx ny. rewrite make_grid_ok. eexists; split; reflexivity.
  - intros n gy gx Hy Hx.
    destruct (make_grid n n) as [g|e] eqn:Eg; [|now rewrite make_grid_ok in Eg].
    exists g. split; [reflexivity|].
    destruct (make_grid_cell Eg Hy Hx) as [E0 E1]. rewrite E0, E1.
    split; f_equal.
    + rewrite Nat.add_comm, Nat.Div0.mod_add. now apply Nat.mod_small.
    + rewrite Nat.div_add_l by lia. rewrite Nat.div_small by assumption. lia.
Qed.

Lemma make_grid_square_cells_witness :
  0 < 2 /\ 1 < 2 /\
  exists g, make_grid 2 2 = Ok g /\
            get g [0; 0; 0; 1; 0] = Z.of_nat 1 /\
            get g [0; 0; 0; 1; 1] = Z.of_nat 0.
Proof.
  assert (H0 : 0 < 2) by lia. assert (H1 : 1 < 2) by lia.
  split; [exact H0|]. split; [exact H1|].
  exact (proj2 make_grid_square_cells 2 0 1 H0 H1).
Defined.

(** C2, counterexample.  In the 2 by 2 grid the cell in row 0 and column 1
    stores [(1, 0)], not [(0, 1)]; and in the grid of width 2 and height 3
    the cell in row 1 and column 0 stores [(2, 0)], which is neither
    [(gy, gx)] nor [(gx, gy)]: the order of the pair is the other one, and
    it is a pair of cell coordinates only when width and height agree. *)
Lemma make_grid_not_row_then_column :
  (exists g, make_grid 2 2 = Ok g /\
             get g [0; 0; 0; 1; 0] = 1%Z /\ get g [0; 0; 0; 1; 1] = 0%Z /\
             ~ (get g [0; 0; 0; 1; 0] = Z.of_nat 0 /\ get g [0; 0; 0; 1; 1] = Z.of_nat 1)) /\
  (exists g, make_grid 2 3 = Ok g /\
             get g [0; 0; 1; 0; 0] = 2%Z /\ get g [0; 0; 1; 0; 1] = 0%Z /\
             ~ (get g [0; 0; 1; 0; 0] = Z.of_nat 1 /\ get g [0; 0; 1; 0; 1] = Z.of_nat 0)).
Proof.
  split; eexists; (split; [reflexivity|]); cbn;
    (split; [reflexivity|]); (split; [reflexivity|]); intros [E _]; discriminate E.
Qed.

(** ** Broadcasting *)

Lemma pad_same s : np.pad (length s) s = s.
Proof. unfold np.pad. now rewrite Nat.sub_diag. Qed.

Lemma bidx_id s idx : inb idx s -> np.bidx s idx = idx.
Proof.
  induction 1 as [|i d idx s Hi _ IH]; simpl; [reflexivity|].
  rewrite IH. destruct (Nat.eqb_spec d 1); [f_equal; lia | reflexivity].
Qed.

Lemma bshape_refl s : np.bshape s s = Some s.
Proof. induction s as [|d s IH]; simpl; [reflexivity|]. now rewrite IH, Nat.eqb_refl. Qed.

Lemma bshape_length s1 s2 s :
  np.bshape s1 s2 = Some s -> length s1 = length s /\ length s2 = length s.
Proof.
  revert s2 s; induction s1 as [|d1 s1 IH]; intros [|d2 s2] s; simpl; try discriminate.
  - now intros [= <-].
  - destruct (np.bshape s1 s2) as [s'|] eqn:E; [|discriminate].
    destruct (IH _ _ E) as [H1 H2].
    destruct (d1 =? d2); [|destruct (d1 =? 1); [|destruct (d2 =? 1); [|discriminate]]];
      intros [= <-]; simpl; auto.
Qed.

Lemma broadcast_shapes_same_rank s1 s2 :
  length s1 = length s2 -> np.broadcast_shapes s1 s2 = np.bshape s1 s2.
Proof.
  intros E. unfold np.broadcast_shapes. rewrite <- E, Nat.max_id.
  rewrite pad_same. rewrite E at 1. now rewrite pad_same.
Qed.

Lemma bget_same_rank {A : Type} `{Default A} (a : ndarray A) idx :
  np.bget a (length (shape a)) idx =
  nth (ravel (shape a) (np.bidx (shape a) idx)) (data a) dflt.
Proof. unfold np.bget. now rewrite pad_same. Qed.

Lemma bget_inb {A : Type} `{Default A} (a : ndarray A) s idx :
  shape a = s -> inb idx s -> np.bget a (length s) idx = get a idx.
Proof.
  intros <- Hi. rewrite bget_same_rank, bidx_id by assumption. reflexivity.
Qed.

(** What a broadcasting operation computes at each index of its result. *)
Lemma broadcast2_spec {A B C : Type} `{Default A} `{Default B}
    (f : A -> B -> C) (a : ndarray A) (b : ndarray B) s :
  np.broadcast_shapes (shape a) (shape b) = Some s ->
  exists c, np.broadcast2 f a b = Ok c /\ shape c = s /\ wf c /\
    forall idx d, inb idx s ->
      nth (ravel s idx) (data c) d =
      f (np.bget a (length s) idx) (np.bget b (length s) idx).
Proof.
  intros Hs. unfold np.broadcast2. rewrite Hs. eexists; split; [reflexivity|].
  cbn [shape data]. split; [reflexivity|]. split.
  - unfold wf; cbn [shape data]. now rewrite length_map, length_seq.
  - intros idx d Hi. rewrite nth_tabulate by now apply ravel_lt.
    cbv zeta. now rewrite unravel_ravel.
Qed.

Lemma broadcast2_same {A B C : Type} `{Default A} `{Default B}
    (f : A -> B -> C) (a : ndarray A) (b : ndarray B) :
  shape a = shape b -> wf a -> wf b ->
  np.broadcast2 f a b =
  Ok (mk_ndarray (shape a) (map (fun p => f (fst p) (snd p)) (combine (data a) (data b)))).
Proof.
  intros Es Wa Wb. unfold np.broadcast2.
  rewrite broadcast_shapes_same_rank, <- Es, bshape_refl by now rewrite Es.
  do 2 f_equal.
  unfold wf in Wa, Wb. rewrite <- Es in Wb.
  destruct (data a) as [|a0 la] eqn:Ea.
  { simpl in Wa. rewrite <- Wa. reflexivity. }
  destruct (data b) as [|b0 lb] eqn:Eb.
  { rewrite <- Wb. reflexivity. }
  rewrite <- Ea in Wa |- *. rewrite <- Eb in Wb |- *. clear Ea Eb.
  apply nth_ext with (d := f a0 b0) (d' := f a0 b0).
  - rewrite !length_map, length_seq, length_combine. lia.
  - intros p Hp. rewrite length_map, length_seq in Hp.
    rewrite nth_tabulate by assumption. cbv zeta.
    rewrite (nth_map_in (fun p => f (fst p) (snd p)) _ (a0, b0))
      by (rewrite length_combine; lia).
    rewrite combine_nth by lia. cbn [fst snd].
    pose proof (unravel_inb _ Hp) as Hi.
    rewrite (bget_inb a eq_refl Hi), (bget_inb b (eq_sym Es) Hi).
    unfold get. rewrite <- Es, ravel_unravel by assumption.
    f_equal; apply nth_indep; lia.
Qed.

Lemma broadcast_to_same {A : Type} `{Default A} (a : ndarray A) :
  wf a -> np.broadcast_to (shape a) a = Ok a.
Proof.
  intros Wa. unfold np.broadcast_to.
  rewrite broadcast_shapes_same_rank, bshape_refl, shape_eqb_refl by reflexivity.
  destruct a as [s l]; cbn [shape data] in *. do 2 f_equal.
  unfold wf in Wa; cbn [shape data] in Wa. rewrite <- Wa.
  rewrite <- (tabulate_nth l dflt) at 2. apply map_ext_in.
  intros p Hp. apply in_seq in Hp.
  assert (Hp' : p < size s) by lia.
  rewrite (@bget_inb _ _ (mk_ndarray s l) s _ eq_refl (unravel_inb _ Hp')).
  unfold get; cbn [shape data]. now rewrite ravel_unravel.
Qed.

(** ** Slices of the last axis *)

Lemma size_app s1 s2 : size (s1 ++ s2) = size s1 * size s2.
Proof. induction s1; simpl; [lia | rewrite IHs1; lia]. Qed.

Lemma size_last s : s <> [] -> size s = size (removelast s) * last s 0.
Proof.
  intros Hs. rewrite (app_removelast_last 0 Hs) at 1.
  rewrite size_app. simpl. lia.
Qed.

Lemma nth_map_combine {A B C : Type} (g : A * B -> list C) (l1 : list A) (l2 : list B) r :
  r < length l1 -> r < length l2 ->
  forall d1 d2, nth r (map g (combine l1 l2)) [] = g (nth r l1 d1, nth r l2 d2).
Proof.
  intros H1 H2 d1 d2.
  rewrite (nth_map_in g _ (d1, d2)) by (rewrite length_combine; lia).
  revert l2 r H1 H2; induction l1 as [|x l1 IH]; intros [|y l2] [|r] H1 H2;
    simpl in *; try lia; [reflexivity | apply IH; lia].
Qed.

Section SliceFacts.
Context {A : Type} `{Default A}.

Lemma slice_last_unfold lo hi (a : ndarray A) :
  shape a <> [] ->
  np.slice_last lo hi a =
  Ok (mk_ndarray
        (removelast (shape a) ++
           [Nat.min hi (last (shape a) 0) - Nat.min lo (last (shape a) 0)])
        (flat_map (slice lo hi)
           (chunks (last (shape a) 0) (size (removelast (shape a))) (data a)))).
Proof. unfold np.slice_last. destruct (shape a); [congruence | reflexivity]. Qed.

Lemma set_slice_last_unfold lo hi (a v : ndarray A) :
  shape a <> [] ->
  np.set_slice_last lo hi a v =
  let n := last (shape a) 0 in
  let k := size (removelast (shape a)) in
  let len := Nat.min hi n - Nat.min lo n in
  v' <- np.broadcast_to (removelast (shape a) ++ [len]) v ;;
  Ok (mk_ndarray (shape a)
        (concat (map (fun rv => splice (Nat.min lo n) (fst rv) (snd rv))
                   (combine (chunks n k (data a)) (chunks len k (data v')))))).
Proof. unfold np.set_slice_last. destruct (shape a); [congruence | reflexivity]. Qed.

Lemma slice_last_spec lo hi (a : ndarray A) :
  shape a <> [] -> wf a ->
  let n := last (shape a) 0 in
  let K := size (removelast (shape a)) in
  let len := Nat.min hi n - Nat.min lo n in
  exists b, np.slice_last lo hi a = Ok b /\
    shape b = removelast (shape a) ++ [len] /\ wf b /\
    forall r j d, r < K -> lo + j < Nat.min hi n ->
      nth (r * len + j) (data b) d = nth (r * n + (lo + j)) (data a) d.
Proof.
  intros Hs Wa n K len. rewrite slice_last_unfold by assumption.
  fold n K len. eexists; split; [reflexivity|]. cbn [shape data].
  assert (Hl : length (data a) = K * n) by (rewrite Wa; now apply size_last).
  pose proof (chunks_uniform n K (data a) Hl) as Hu.
  assert (Hu' : Forall (fun c => length c = len) (map (slice lo hi) (chunks n K (data a)))).
  { apply Forall_map. eapply Forall_impl; [|exact Hu].
    intros c Hc. cbv beta in Hc. rewrite length_slice, Hc. reflexivity. }
  split; [reflexivity|]. split.
  - unfold wf; cbn [shape data]. rewrite size_app, flat_map_concat_map.
    rewrite (length_concat_uniform Hu'), length_map, length_chunks. simpl. lia.
  - intros r j d Hr Hj. rewrite flat_map_concat_map.
    rewrite (nth_concat_uniform _ _ Hu') by lia.
    rewrite (nth_map_in (slice lo hi) _ []) by now rewrite length_chunks.
    rewrite nth_slice by lia.
    rewrite nth_chunk_elem by lia. reflexivity.
Qed.

Lemma set_slice_last_spec lo hi (a v : ndarray A) :
  shape a <> [] -> wf a -> wf v ->
  let n := last (shape a) 0 in
  let K := size (removelast (shape a)) in
  let len := Nat.min hi n - Nat.min lo n in
  let lo' := Nat.min lo n in
  shape v = removelast (shape a) ++ [len] ->
  exists c, np.set_slice_last lo hi a v = Ok c /\
    shape c = shape a /\ wf c /\
    forall r k d, r < K -> k < n ->
      nth (r * n + k) (data c) d =
      if (lo' <=? k) && (k <? lo' + len)
      then nth (r * len + (k - lo')) (data v) d
      else nth (r * n + k) (data a) d.
Proof.
  intros Hs Wa Wv n K len lo' Ev. rewrite set_slice_last_unfold by assumption.
  cbv zeta. fold n K len lo'. rewrite <- Ev, broadcast_to_same by assumption. cbn [bind].
  eexists; split; [reflexivity|]. cbn [shape data].
  assert (Hl : length (data a) = K * n) by (rewrite Wa; now apply size_last).
  assert (Hlv : length (data v) = K * len).
  { rewrite Wv, Ev, size_app. simpl. lia. }
  pose proof (chunks_uniform n K (data a) Hl) as Hu.
  pose proof (chunks_uniform len K (data v) Hlv) as Huv.
  set (g := fun rv : list A * list A => splice lo' (fst rv) (snd rv)).
  assert (Hu' : Forall (fun c => length c = n)
                  (map g (combine (chunks n K (data a)) (chunks len K (data v))))).
  { apply Forall_map, Forall_forall. intros [row vr] Hin.
    pose proof (in_combine_l _ _ _ _ Hin) as H1.
    pose proof (in_combine_r _ _ _ _ Hin) as H2.
    rewrite Forall_forall in Hu, Huv. specialize (Hu _ H1). specialize (Huv _ H2).
    unfold g; cbn [fst snd]. rewrite length_splice; [assumption|].
    rewrite Hu, Huv. unfold lo', len. lia. }
  split; [reflexivity|]. split.
  - unfold wf; cbn [shape data].
    rewrite (length_concat_uniform Hu'), length_map, length_combine, !length_chunks.
    rewrite Nat.min_id. now rewrite <- Hl.
  - intros r k d Hr Hk.
    rewrite (nth_concat_uniform _ _ Hu') by assumption.
    rewrite (nth_map_combine g) with (d1 := []) (d2 := [])
      by now rewrite length_chunks.
    unfold g; cbn [fst snd].
    assert (L1 : length (nth r (chunks n K (data a)) []) = n).
    { rewrite Forall_forall in Hu. apply Hu, nth_In. now rewrite length_chunks. }
    assert (L2 : length (nth r (chunks len K (data v)) []) = len).
    { rewrite Forall_forall in Huv. apply Huv, nth_In. now rewrite length_chunks. }
    rewrite nth_splice by (rewrite L1, L2; unfold lo', len; lia).
    rewrite L2.
    destruct ((lo' <=? k) && (k <? lo' + len)) eqn:Ek.
    + apply andb_true_iff in Ek as [E1 E2].
      apply Nat.leb_le in E1. apply Nat.ltb_lt in E2.
      apply nth_chunk_elem; lia.
    + now apply nth_chunk_elem.
Qed.

End SliceFacts.

Section CellFacts.
Context {A : Type} `{Default A}.

(** The two lemmas above for an array whose rows have length [m] and a
    slice inside the row. *)
Lemma slice_last_cells lo hi (a : ndarray A) o m :
  shape a = o ++ [m] -> wf a -> lo <= hi -> hi <= m ->
  exists b, np.slice_last lo hi a = Ok b /\
    shape b = o ++ [hi - lo] /\ wf b /\
    forall r j d, r < size o -> j < hi - lo ->
      nth (r * (hi - lo) + j) (data b) d = nth (r * m + (lo + j)) (data a) d.
Proof.
  intros Es Wa Hlo Hhi.
  assert (Hs : shape a <> []) by (rewrite Es; now destruct o).
  destruct (slice_last_spec lo hi Hs Wa) as (b & Eb & Sb & Wb & Hb).
  rewrite Es, removelast_last, last_last in Sb, Hb.
  rewrite !Nat.min_l in Sb, Hb by lia.
  exists b. repeat split; try assumption.
  intros r j d Hr Hj. apply Hb; [assumption | lia].
Qed.

Lemma set_slice_last_cells lo hi (a v : ndarray A) o m :
  shape a = o ++ [m] -> shape v = o ++ [hi - lo] -> wf a -> wf v ->
  lo <= hi -> hi <= m ->
  exists c, np.set_slice_last lo hi a v = Ok c /\
    shape c = o ++ [m] /\ wf c /\
    forall r k d, r < size o -> k < m ->
      nth (r * m + k) (data c) d =
      if (lo <=? k) && (k <? hi)
      then nth (r * (hi - lo) + (k - lo)) (data v) d
      else nth (r * m + k) (data a) d.
Proof.
  intros Es Ev Wa Wv Hlo Hhi.
  assert (Hs : shape a <> []) by (rewrite Es; now destruct o).
  destruct (@set_slice_last_spec _ _ lo hi a v Hs Wa Wv) as (c & Ec & Sc & Wc & Hc).
  { rewrite Es, removelast_last, last_last, !Nat.min_l by lia. exact Ev. }
  rewrite Es, removelast_last, last_last in Hc.
  rewrite !Nat.min_l in Hc by lia.
  exists c. repeat split; try assumption; [congruence|].
  intros r k d Hr Hk. rewrite Hc by assumption.
  replace (lo + (hi - lo)) with hi by lia. reflexivity.
Qed.

End CellFacts.

Lemma wf_elementwise {A B : Type} (f : A -> B) (a : ndarray A) :
  wf a -> wf (np.elementwise f a).
Proof. unfold wf, np.elementwise; cbn [shape data]. now rewrite length_map. Qed.

Lemma nth_elementwise {A B : Type} (f : A -> B) (a : ndarray A) p d d' :
  p < length (data a) ->
  nth p (data (np.elementwise f a)) d' = f (nth p (data a) d).
Proof. intros Hp. unfold np.elementwise; cbn [data]. now apply nth_map_in. Qed.

(** ** The decoder of one scale *)


Lemma cell_lt n a gy gx : a < 3 -> gy < n -> gx < n -> cell n a gy gx < 3 * n * n.
Proof. unfold cell. nia. Qed.

Lemma ravel_cell n m a gy gx c :
  ravel [1; 3; n; n; m] [0; a; gy; gx; c] = cell n a gy gx * m + c.
Proof. unfold cell. simpl. ring. Qed.

Lemma size_cells n : size [1; 3; n; n] = 3 * n * n.
Proof. simpl. ring. Qed.

Lemma bshape_grid n : np.bshape [1; 3; n; n; 2] [1; 1; n; n; 2] = Some [1; 3; n; n; 2].
Proof. simpl. now rewrite Nat.eqb_refl. Qed.

Lemma bshape_anchor n : np.bshape [1; 3; n; n; 2] [1; 3; 1; 1; 2] = Some [1; 3; n; n; 2].
Proof.
  simpl. destruct (n =? 1) eqn:E; [apply Nat.eqb_eq in E; subst|]; reflexivity.
Qed.

Lemma inb_cell n m a gy gx c :
  a < 3 -> gy < n -> gx < n -> c < m -> inb [0; a; gy; gx; c] [1; 3; n; n; m].
Proof. intros. unfold inb. repeat (apply Forall2_cons; [assumption || lia|]). constructor. Qed.

Section DecodeFacts.
Context {F : Type} `{Scalar F}.


(** The grid operand at the index of a cell: the column for [c = 0], the
    row for [c = 1]. *)
Lemma bget_grid n a gy gx c :
  a < 3 -> gy < n -> gx < n -> c < 2 ->
  np.bget (np.as_float (F := F) (mk_ndarray [1; 1; n; n; 2] (grid_data n n))) 5
    [0; a; gy; gx; c] =
  of_int (Z.of_nat (if c =? 0 then gx else gy)).
Proof.
  intros Ha Hy Hx Hc.
  change 5 with (length (shape (np.as_float (F := F)
                   (mk_ndarray [1; 1; n; n; 2] (grid_data n n))))).
  rewrite bget_same_rank. cbn [np.as_float np.elementwise shape data np.bidx].
  replace (if n =? 1 then 0 else gy) with gy
    by (destruct (Nat.eqb_spec n 1); lia).
  replace (if n =? 1 then 0 else gx) with gx
    by (destruct (Nat.eqb_spec n 1); lia).
  cbn [Nat.eqb].
  assert (Hr : ravel [1; 1; n; n; 2] [0; 0; gy; gx; c] = (gy * n + gx) * 2 + c)
    by (simpl; ring).
  rewrite Hr.
  assert (Hm : gy * n + gx < n * n) by nia.
  rewrite nth_map_in with (d := 0%Z) by (rewrite length_grid_data; lia).
  rewrite grid_data_nth by assumption.
  f_equal. f_equal.
  destruct (c =? 0).
  - rewrite Nat.add_comm, Nat.Div0.mod_add. now apply Nat.mod_small.
  - rewrite Nat.div_add_l by lia. rewrite Nat.div_small by assumption. lia.
Qed.

Lemma bget_anchor (anchor : ndarray F) n a gy gx c :
  shape anchor = [1; 3; 1; 1; 2] ->
  a < 3 -> gy < n -> gx < n -> c < 2 ->
  np.bget anchor 5 [0; a; gy; gx; c] = nth (a * 2 + c) (data anchor) dflt.
Proof.
  intros Es Ha Hy Hx Hc.
  change 5 with (length [1; 3; 1; 1; 2]). rewrite <- Es.
  rewrite bget_same_rank, Es. cbn [np.bidx Nat.eqb].
  f_equal. simpl. lia.
Qed.

Lemma decode_spec (out : ndarray F) n stride (anchor : ndarray F) :
  shape out = [1; 3; n; n; 85] -> wf out ->
  shape anchor = [1; 3; 1; 1; 2] ->
  exists z,
    decode (out, mk_ndarray [1; 1; n; n; 2] (grid_data n n), stride, anchor) = Ok z /\
    shape z = [1; 3 * n * n; 85] /\ wf z /\
    forall a gy gx k d, a < 3 -> gy < n -> gx < n -> k < 85 ->
      nth (cell n a gy gx * 85 + k) (data z) d =
      decoded stride (nth (a * 2) (data anchor) dflt) (nth (a * 2 + 1) (data anchor) dflt)
        gx gy (fun j => nth (cell n a gy gx * 85 + j) (data out) d) k.
Proof.
  intros Es Wo Ea.
  unfold decode. rewrite Es; cbn [unpack5 bind].
  (* out[..., 0:2] *)
  destruct (slice_last_cells (lo := 0) (hi := 2) [1; 3; n; n] Es Wo) as (xy & Exy & Sxy & Wxy & Hxy);
    [lia | lia |]. rewrite Exy; cbn [bind]. cbn [app Nat.sub] in Sxy.
  cbn [Nat.sub Nat.add] in Hxy.
  set (t := np.sub_s (np.mul_s xy (lit 2%Q)) (lit (1 # 2)%Q)).
  assert (St : shape t = [1; 3; n; n; 2]) by exact Sxy.
  set (g := np.as_float (mk_ndarray [1; 1; n; n; 2] (grid_data n n))).
  destruct (broadcast2_spec fadd t g (s := [1; 3; n; n; 2])) as (v & Ev & Sv & Wv & Hv).
  { rewrite St. unfold g, np.as_float, np.elementwise; cbn [shape].
    rewrite broadcast_shapes_same_rank by reflexivity. apply bshape_grid. }
  unfold np.add. rewrite Ev; cbn [bind].
  (* out[..., 0:2] = ... *)
  destruct (set_slice_last_cells (lo := 0) (hi := 2) (a := out) (v := np.mul_s v stride) [1; 3; n; n] (m := 85))
    as (o1 & Eo1 & So1 & Wo1 & Ho1);
    try (assumption || lia || (apply wf_elementwise; assumption)).
  rewrite Eo1; cbn [bind]. cbn [app] in So1. cbn [Nat.sub] in Ho1.
  (* out[..., 2:4] *)
  destruct (slice_last_cells (lo := 2) (hi := 4) [1; 3; n; n] So1 Wo1) as (wh & Ewh & Swh & Wwh & Hwh);
    [lia | lia |]. rewrite Ewh; cbn [bind]. cbn [app Nat.sub] in Swh.
  cbn [Nat.sub] in Hwh.
  set (u := np.square (np.mul_s wh (of_int 2))).
  assert (Su : shape u = [1; 3; n; n; 2]) by exact Swh.
  destruct (broadcast2_spec fmul u anchor (s := [1; 3; n; n; 2])) as (w & Ew & Sw & Ww & Hw).
  { rewrite Su, Ea, broadcast_shapes_same_rank by reflexivity. apply bshape_anchor. }
  unfold np.multiply. rewrite Ew; cbn [bind].
  destruct (set_slice_last_cells (lo := 2) (hi := 4) (a := o1) (v := w) [1; 3; n; n] (m := 85))
    as (o2 & Eo2 & So2 & Wo2 & Ho2); try assumption; try lia.
  rewrite Eo2; cbn [bind]. cbn [app] in So2. cbn [Nat.sub] in Ho2.
  (* reshape *)
  unfold np.reshape. rewrite So2.
  replace (size [1; 3; n; n; 85] =? size [1; 3 * n * n; 85]) with true
    by (symmetry; apply Nat.eqb_eq; simpl; ring).
  eexists; split; [reflexivity|]. cbn [shape data].
  split; [reflexivity|]. split.
  { unfold wf in *; cbn [shape data]. rewrite Wo2, So2. simpl; ring. }
  intros a gy gx k d Ha Hy Hx Hk.
  pose proof (cell_lt Ha Hy Hx) as Hr.
  assert (Hrav : forall m c, ravel [1; 3; n; n; m] [0; a; gy; gx; c] = cell n a gy gx * m + c)
    by (intros; apply ravel_cell).
  remember (cell n a gy gx) as r eqn:Er.
  assert (Hr' : r < size [1; 3; n; n]) by now rewrite size_cells.
  assert (Lxy : length (data xy) = 3 * n * n * 2).
  { rewrite Wxy, Sxy. simpl; ring. }
  assert (Lwh : length (data wh) = 3 * n * n * 2).
  { rewrite Wwh, Swh. simpl; ring. }
  (* the two assignments *)
  rewrite Ho2 by assumption.
  assert (V : forall c, c < 2 ->
    nth (r * 2 + c) (data (np.mul_s v stride)) d =
    fmul (fadd (fsub (fmul (nth (r * 85 + c) (data out) d) (lit 2%Q)) (lit (1 # 2)%Q))
               (of_int (Z.of_nat (if c =? 0 then gx else gy)))) stride).
  { intros c Hc. unfold np.mul_s.
    rewrite nth_elementwise with (d := d) by (rewrite Wv, Sv; simpl; nia).
    f_equal. rewrite <- (Hrav 2 c).
    rewrite Hv by now apply inb_cell.
    cbn [length]. unfold g. rewrite bget_grid by assumption. f_equal.
    rewrite (bget_inb t St) by now apply inb_cell.
    unfold get. rewrite St, Hrav.
    unfold t, np.sub_s, np.mul_s.
    rewrite nth_elementwise with (d := d)
      by (unfold np.elementwise; cbn [data]; rewrite length_map; nia).
    rewrite nth_elementwise with (d := d) by nia.
    do 2 f_equal. rewrite (Hxy r c d Hr') by lia. reflexivity. }
  assert (W : forall c, c < 2 ->
    nth (r * 2 + c) (data w) d =
    fmul (fmul (fmul (nth (r * 85 + (2 + c)) (data out) d) (of_int 2))
               (fmul (nth (r * 85 + (2 + c)) (data out) d) (of_int 2)))
         (nth (a * 2 + c) (data anchor) dflt)).
  { intros c Hc. rewrite <- (Hrav 2 c).
    rewrite Hw by now apply inb_cell.
    cbn [length]. rewrite (bget_anchor _ Ea Ha Hy Hx Hc). f_equal.
    rewrite (bget_inb u Su) by now apply inb_cell.
    unfold get. rewrite Su, Hrav.
    unfold u, np.square, np.mul_s.
    rewrite nth_elementwise with (d := d)
      by (unfold np.elementwise; cbn [data]; rewrite length_map; nia).
    rewrite nth_elementwise with (d := d) by nia.
    rewrite (Hwh r c d Hr') by lia.
    rewrite Ho1 by (assumption || lia).
    replace ((0 <=? 2 + c) && (2 + c <? 2)) with false
      by (symmetry; apply andb_false_iff; right; apply Nat.ltb_ge; lia).
    reflexivity. }
  destruct k as [|[|[|[|k]]]]; cbn [Nat.leb Nat.ltb andb decoded].
  - rewrite Ho1 by (assumption || lia). cbn [Nat.leb Nat.ltb andb Nat.sub].
    rewrite (V 0) by lia. now rewrite !Nat.add_0_r.
  - rewrite Ho1 by (assumption || lia). cbn [Nat.leb Nat.ltb andb Nat.sub].
    now rewrite (V 1) by lia.
  - cbn [Nat.sub]. rewrite (W 0) by lia. now rewrite !Nat.add_0_r.
  - cbn [Nat.sub]. now rewrite (W 1) by lia.
  - rewrite Ho1 by (assumption || lia). reflexivity.
Qed.

End DecodeFacts.

(** ** The two loops of [extract_boxes] *)


Section LoopFacts.
Context {F : Type} `{Scalar F} `{Exponential F}.

Lemma sigmoid_v_elementwise (a : ndarray F) :
  sigmoid_v a = np.elementwise sigmoid a.
Proof.
  unfold sigmoid_v, np.reciprocal, np.add_s, np.exp, np.negative, np.elementwise.
  cbn [shape data]. now rewrite !map_map.
Qed.

Lemma activate_spec (out : ndarray F) :
  shaped out ->
  activate out =
  Ok (np.elementwise sigmoid out,
      mk_ndarray [1; 1; gsize out; gsize out; 2] (grid_data (gsize out) (gsize out))).
Proof.
  intros [Es _]. unfold activate. rewrite sigmoid_v_elementwise.
  cbn [np.elementwise shape]. rewrite Es; cbn [unpack5 bind].
  now rewrite make_grid_ok.
Qed.


Lemma decode_activated (out : ndarray F) stride anchor :
  shaped out -> shape anchor = [1; 3; 1; 1; 2] ->
  exists z,
    decode (np.elementwise sigmoid out,
            mk_ndarray [1; 1; gsize out; gsize out; 2] (grid_data (gsize out) (gsize out)),
            stride, anchor) = Ok z /\
    decodes out stride anchor z.
Proof.
  intros [Es Wo] Ea.
  destruct (decode_spec (out := np.elementwise sigmoid out) (n := gsize out) stride anchor)
    as (z & Ez & Sz & Wz & Hz); try assumption.
  { now apply wf_elementwise. }
  exists z. split; [exact Ez|]. split; [exact Sz|]. split; [exact Wz|].
  intros a gy gx k d Ha Hy Hx Hk. rewrite Hz by assumption.
  pose proof (cell_lt Ha Hy Hx) as Hr.
  assert (Hl : length (data out) = 3 * gsize out * gsize out * 85).
  { rewrite Wo, Es. simpl. ring. }
  assert (E : forall j, j < 85 ->
    nth (cell (gsize out) a gy gx * 85 + j) (data (np.elementwise sigmoid out)) d =
    sigmoid (nth (cell (gsize out) a gy gx * 85 + j) (data out) d)).
  { intros j Hj. apply nth_elementwise. nia. }
  destruct k as [|[|[|[|k]]]]; cbn [decoded]; rewrite ?E by lia; reflexivity.
Qed.


Lemma mapM_activate output :
  Forall shaped output ->
  mapM activate output =
  Ok (map (fun out => (np.elementwise sigmoid out,
                       mk_ndarray [1; 1; gsize out; gsize out; 2]
                         (grid_data (gsize out) (gsize out)))) output).
Proof.
  induction 1 as [|out output Ho _ IH]; [reflexivity|].
  cbn [mapM map]. rewrite (activate_spec Ho); cbn [bind]. now rewrite IH.
Qed.

Lemma mapM_decode output ss ancs :
  Forall shaped output -> Forall (fun anc => shape anc = [1; 3; 1; 1; 2]) ancs ->
  let sg := map (fun out => (np.elementwise sigmoid out,
                             mk_ndarray [1; 1; gsize out; gsize out; 2]
                               (grid_data (gsize out) (gsize out)))) output in
  exists zs, mapM decode (zip4 (map fst sg) (map snd sg) ss ancs) = Ok zs /\
             decoded_scales output ss ancs zs.
Proof.
  intros Ho. revert ss ancs. induction Ho as [|out output Hout _ IH]; intros ss ancs Ha; cbv zeta.
  - exists []. split; [reflexivity | constructor].
  - destruct ss as [|s ss]; [exists []; split; [reflexivity | constructor]|].
    destruct ancs as [|anc ancs]; [exists []; split; [reflexivity | constructor]|].
    inversion Ha as [|? ? Hanc Hancs]; subst.
    destruct (@decode_activated out s anc Hout Hanc) as (z & Ez & Hz).
    destruct (IH ss ancs Hancs) as (zs & Ezs & Hzs).
    exists (z :: zs). split; [|now constructor].
    unfold zip4 in *. cbn [map fst snd combine mapM].
    rewrite Ez; cbn [bind]. cbv zeta in Ezs. now rewrite Ezs.
Qed.

End LoopFacts.

(** ** Rows of a matrix: column reads and writes *)

Lemma slice_single {A : Type} j (row : list A) d :
  j < length row -> slice j (j + 1) row = [nth j row d].
Proof.
  intros Hj. unfold slice. replace (j + 1 - j) with 1 by lia.
  revert j Hj. induction row as [|x row IH]; intros j Hj; [simpl in Hj; lia|].
  destruct j; [reflexivity|]. simpl in *. apply IH. lia.
Qed.

Lemma chunks_one {A : Type} (l : list A) :
  chunks 1 (length l) l = map (fun e => [e]) l.
Proof. induction l as [|x l IH]; simpl; [reflexivity | now rewrite IH]. Qed.

Lemma combine_map_both {A B C : Type} (f : A -> B) (g : A -> C) (l : list A) :
  combine (map f l) (map g l) = map (fun x => (f x, g x)) l.
Proof. induction l; simpl; [reflexivity | now f_equal]. Qed.

Lemma filter_combine_map {A : Type} (t : A -> bool) (l : list A) :
  map snd (filter fst (combine (map t l) l)) = filter t l.
Proof.
  induction l as [|x l IH]; simpl; [reflexivity|].
  destruct (t x); simpl; now rewrite IH.
Qed.

Lemma repeat_concat {A : Type} (z : A) k m :
  repeat z (k * m) = concat (repeat (repeat z m) k).
Proof. induction k; simpl; [reflexivity | now rewrite repeat_app, IHk]. Qed.

Lemma repeat_as_map {A B : Type} (c : B) (l : list A) :
  repeat c (length l) = map (fun _ => c) l.
Proof. induction l; simpl; [reflexivity | now f_equal]. Qed.

Section MatrixFacts.
Context {A : Type} `{Default A}.

Lemma index_axis1_rows j K m (rows : list (list A)) :
  length rows = K -> Forall (fun r => length r = m) rows -> j < m ->
  np.index_axis1 j (mk_ndarray [K; m] (concat rows)) =
  Ok (mk_ndarray [K] (map (fun r => nth j r dflt) rows)).
Proof.
  intros <- Hu Hj. unfold np.index_axis1; cbn [shape data size].
  destruct (Nat.ltb_spec j m); [|lia]. do 2 f_equal.
  rewrite !Nat.mul_1_r, (chunks_concat Hu), flat_map_concat_map.
  induction Hu as [|r rows Hr _ IH]; [reflexivity|].
  cbn [map concat]. rewrite IH, (slice_single _ dflt) by lia. reflexivity.
Qed.

Lemma set_index_axis1_rows j K m (rows : list (list A)) (lv : list A) :
  length rows = K -> Forall (fun r => length r = m) rows -> j < m -> length lv = K ->
  np.set_index_axis1 j (mk_ndarray [K; m] (concat rows)) (mk_ndarray [K] lv) =
  Ok (mk_ndarray [K; m]
        (concat (map (fun rv => splice j (fst rv) [snd rv]) (combine rows lv)))).
Proof.
  intros <- Hu Hj Hl. unfold np.set_index_axis1; cbn [shape data size].
  destruct (Nat.ltb_spec j m); [|lia].
  change [length rows] with (shape (mk_ndarray [length rows] lv)) at 1.
  rewrite broadcast_to_same by (unfold wf; cbn [shape data size]; lia).
  cbn [bind data]. do 3 f_equal.
  rewrite !Nat.mul_1_r, (chunks_concat Hu), <- Hl, chunks_one.
  clear. revert lv. induction rows as [|r rows IH]; intros [|e lv]; simpl; try reflexivity.
  now rewrite IH.
Qed.

Lemma slice_axis1_rows lo hi K m (rows : list (list A)) :
  length rows = K -> Forall (fun r => length r = m) rows -> lo <= hi -> hi <= m ->
  np.slice_axis1 lo hi (mk_ndarray [K; m] (concat rows)) =
  Ok (mk_ndarray [K; hi - lo] (flat_map (slice lo hi) rows)).
Proof.
  intros <- Hu Hlo Hhi. unfold np.slice_axis1; cbn [shape data size].
  rewrite !Nat.mul_1_r, (chunks_concat Hu), !Nat.min_l by lia. reflexivity.
Qed.

Lemma index_last_rows j (a : ndarray A) o m :
  shape a = o ++ [m] -> j < m ->
  np.index_last j a =
  Ok (mk_ndarray o (map (fun row => nth j row dflt) (chunks m (size o) (data a)))).
Proof.
  intros Es Hj. unfold np.index_last.
  destruct (shape a) as [|d0 s0] eqn:E; [now destruct o|]. rewrite Es.
  rewrite removelast_last, last_last.
  destruct (Nat.ltb_spec j m); [reflexivity | lia].
Qed.

Lemma mask_index_rows (a : ndarray A) N m (t : list A -> bool) :
  shape a = [1; N; m] ->
  np.mask_index a (mk_ndarray [1; N] (map t (chunks m N (data a)))) =
  let kept := filter t (chunks m N (data a)) in
  Ok (mk_ndarray [length kept; m] (concat kept)).
Proof.
  intros Es. unfold np.mask_index; cbn [shape data length]. rewrite Es.
  cbn [firstn skipn]. rewrite shape_eqb_refl.
  replace (size [m]) with m by (simpl; lia).
  replace (size [1; N]) with N by (simpl; lia).
  now rewrite filter_combine_map.
Qed.

End MatrixFacts.

(** ** [xywh2xyxy] *)

Section CornerFacts.
Context {F : Type} `{Scalar F}.


Lemma column_op (f : F -> F -> F) K (rows : list (list F)) i j :
  length rows = K ->
  np.broadcast2 f (mk_ndarray [K] (map (fun r => nth i r dflt) rows))
    (np.div_s (mk_ndarray [K] (map (fun r => nth j r dflt) rows)) (of_int 2)) =
  Ok (mk_ndarray [K]
        (map (fun r => f (nth i r dflt) (fdiv (nth j r dflt) (of_int 2))) rows)).
Proof.
  intros HK. rewrite broadcast2_same; cbn [shape data np.div_s np.elementwise];
    [|reflexivity
     |unfold wf, np.div_s, np.elementwise; cbn [shape data size];
      rewrite !length_map; lia ..].
  rewrite map_map, combine_map_both, map_map. reflexivity.
Qed.

Lemma xywh2xyxy_rows K (rows : list (list F)) :
  length rows = K -> Forall (fun r => length r = 4) rows ->
  xywh2xyxy (mk_ndarray [K; 4] (concat rows)) =
  Ok (mk_ndarray [K; 4] (flat_map xyxy rows)).
Proof.
  intros HK Hu. unfold xywh2xyxy, np.subtract, np.add.
  assert (Z0 : np.zeros_like (F := F) (mk_ndarray [K; 4] (concat rows)) =
               mk_ndarray [K; 4] (concat (map (fun _ => repeat (lit 0%Q) 4) rows))).
  { unfold np.zeros_like; cbn [shape size]. f_equal.
    replace (K * (4 * 1)) with (K * 4) by lia.
    now rewrite repeat_concat, <- HK, repeat_as_map. }
  rewrite Z0.
  rewrite !(index_axis1_rows (j := 0) HK Hu) by lia.
  rewrite !(index_axis1_rows (j := 1) HK Hu) by lia.
  rewrite !(index_axis1_rows (j := 2) HK Hu) by lia.
  rewrite !(index_axis1_rows (j := 3) HK Hu) by lia.
  cbn [bind].
  do 4 (rewrite column_op by exact HK; cbn [bind];
        rewrite set_index_axis1_rows;
        [ cbn [bind]; rewrite combine_map_both, map_map;
          cbn [fst snd repeat splice firstn skipn app Nat.add length]
        | now rewrite length_map
        | apply Forall_map, Forall_forall; intros; reflexivity
        | lia
        | now rewrite length_map ]).
  rewrite flat_map_concat_map. reflexivity.
Qed.

End CornerFacts.

(** ** Confidence filter and corner conversion *)

Section SelectFacts.
Context {F : Type} `{Scalar F}.


Lemma xyxy_slice (row : list F) :
  4 <= length row -> xyxy (slice 0 4 row) = xyxy row.
Proof.
  intros Hl. unfold xyxy.
  rewrite !(nth_slice 0 (hi := 4)) by lia. reflexivity.
Qed.

Lemma select_spec conf_thres N (pred : ndarray F) :
  shape pred = [1; N; 85] -> wf pred ->
  (o <- np.index_last 4 pred ;;
   let xc := np.gt_s o conf_thres in
   p <- np.mask_index pred xc ;;
   b <- np.slice_axis1 0 4 p ;;
   xywh2xyxy b) =
  Ok (mk_ndarray [length (kept_rows conf_thres N pred); 4]
        (flat_map xyxy (kept_rows conf_thres N pred))).
Proof.
  intros Es Wp.
  rewrite (index_last_rows (j := 4) pred [1; N] (m := 85) Es) by lia. cbn [bind].
  replace (size [1; N]) with N by (simpl; lia).
  unfold np.gt_s, np.elementwise; cbn [shape data]. rewrite map_map.
  rewrite (mask_index_rows pred (fun row => fgt (nth 4 row dflt) conf_thres) Es).
  cbv zeta. fold (kept_rows conf_thres N pred). cbn [bind].
  assert (Hl : length (data pred) = N * 85).
  { rewrite Wp, Es. simpl. lia. }
  assert (Hu : Forall (fun r => length r = 85) (kept_rows conf_thres N pred)).
  { apply Forall_forall. intros r Hr. apply filter_In in Hr as [Hr _].
    pose proof (chunks_uniform 85 N (data pred) Hl) as Hc.
    rewrite Forall_forall in Hc. now apply Hc. }
  rewrite (slice_axis1_rows (lo := 0) (hi := 4) eq_refl Hu) by lia. cbn [bind Nat.sub].
  rewrite flat_map_concat_map.
  rewrite xywh2xyxy_rows.
  - do 2 f_equal. rewrite !flat_map_concat_map, map_map. f_equal.
    apply map_ext_in. intros r Hr. apply xyxy_slice.
    rewrite Forall_forall in Hu. rewrite (Hu _ Hr). lia.
  - now rewrite length_map.
  - apply Forall_map. eapply Forall_impl; [|exact Hu].
    intros r Hr. cbv beta in Hr. rewrite length_slice, Hr. reflexivity.
Qed.

End SelectFacts.

(** ** Concatenation of the scales *)

Lemma concatenate1_rows {A : Type} C (zs : list (ndarray A)) :
  zs <> [] ->
  Forall (fun z => shape z = [1; nth 1 (shape z) 0; C] /\ wf z) zs ->
  np.concatenate1 zs =
  Ok (mk_ndarray [1; list_sum (map (fun z => nth 1 (shape z) 0) zs); C]
        (concat (map data zs))).
Proof.
  intros Hne Hz. unfold np.concatenate1.
  destruct zs as [|z0 zs0] eqn:E; [congruence|]. rewrite <- E in *. clear Hne.
  assert (Hz0 : shape z0 = [1; nth 1 (shape z0) 0; C]).
  { rewrite E in Hz. now inversion Hz. }
  rewrite Hz0.
  replace (forallb _ zs) with true.
  - do 2 f_equal. cbn [seq flat_map]. rewrite app_nil_r, flat_map_concat_map. f_equal.
    apply map_ext_in. intros z Hin. rewrite Forall_forall in Hz.
    destruct (Hz z Hin) as [Sz Wz]. unfold slice.
    rewrite Nat.mul_0_l, Nat.sub_0_r. cbn [skipn].
    apply firstn_all2. rewrite Wz, Sz. simpl. lia.
  - symmetry. apply forallb_forall. intros z Hin. rewrite Forall_forall in Hz.
    destruct (Hz z Hin) as [Sz Wz]. rewrite Sz. cbn [Nat.eqb andb].
    apply shape_eqb_refl.
Qed.

Lemma nth_concat_at {A : Type} (ls : list (list A)) i q d :
  i < length ls -> q < length (nth i ls []) ->
  nth (length (concat (firstn i ls)) + q) (concat ls) d = nth q (nth i ls []) d.
Proof.
  revert i; induction ls as [|l ls IH]; intros i Hi Hq; [simpl in Hi; lia|].
  destruct i; cbn [firstn concat nth length] in *.
  - now apply app_nth1.
  - rewrite length_app, <- Nat.add_assoc, app_nth2_plus. apply IH; [lia | assumption].
Qed.

(** ** [pred], the concatenated candidates *)


Lemma list_sum_cons' a l : list_sum (a :: l) = a + list_sum l.
Proof. reflexivity. Qed.

Section PredFacts.
Context {F : Type} `{Scalar F} `{Exponential F}.

Lemma decoded_scales_length output ss ancs zs :
  decoded_scales output ss ancs zs ->
  length zs = Nat.min (length output) (Nat.min (length ss) (length ancs)).
Proof.
  induction 1; cbn [length]; lia.
Qed.

Lemma decoded_scales_shapes output ss ancs zs :
  decoded_scales output ss ancs zs ->
  Forall (fun z => shape z = [1; nth 1 (shape z) 0; 85] /\ wf z) zs.
Proof.
  induction 1 as [| | |out outs s ss anc ancs z zs (Sz & Wz & _) _ IH]; constructor;
    [|assumption].
  split; [|assumption]. now rewrite Sz.
Qed.

Lemma decoded_scales_rows output ss ancs zs :
  decoded_scales output ss ancs zs ->
  list_sum (map (fun z => nth 1 (shape z) 0) zs) = offset output (length zs).
Proof.
  unfold offset.
  induction 1 as [| | |out outs s ss anc ancs z zs (Sz & _) _ IH]; try reflexivity.
  cbn [length firstn map]. rewrite !list_sum_cons', IH, Sz. reflexivity.
Qed.

Lemma decoded_scales_offset output ss ancs zs i :
  decoded_scales output ss ancs zs -> i <= length zs ->
  length (concat (firstn i (map data zs))) = offset output i * 85.
Proof.
  unfold offset. intros Hd. revert i.
  induction Hd as [| | |out outs s ss anc ancs z zs (Sz & Wz & _) _ IH]; intros i Hi;
    try (cbn [length] in Hi; replace i with 0 by lia; now destruct outs || reflexivity).
  destruct i; [reflexivity|].
  cbn [length firstn map concat] in *. rewrite list_sum_cons', length_app, IH by lia.
  rewrite Wz, Sz. simpl. lia.
Qed.

Lemma decoded_scales_nth output ss ancs zs i out :
  decoded_scales output ss ancs zs -> i < length zs ->
  nth_error output i = Some out ->
  forall ds da dz, decodes out (nth i ss ds) (nth i ancs da) (nth i zs dz).
Proof.
  intros Hd. revert i.
  induction Hd as [| | |o outs s ss anc ancs z zs Hz _ IH]; intros i Hi Hout ds da dz;
    try (cbn [length] in Hi; lia).
  destruct i; cbn [nth nth_error length] in *.
  - now injection Hout as <-.
  - apply IH; [lia | assumption].
Qed.

Lemma anchor_grid_scales :
  np.iter0 (anchor_grid (init (F := F))) =
  [mk_ndarray [1; 3; 1; 1; 2] (map of_int [10; 13; 16; 30; 33; 23]%Z);
   mk_ndarray [1; 3; 1; 1; 2] (map of_int [30; 61; 62; 45; 59; 119]%Z);
   mk_ndarray [1; 3; 1; 1; 2] (map of_int [116; 90; 156; 198; 373; 326]%Z)].
Proof. reflexivity. Qed.

Lemma anchor_scale_entry i a c da :
  i < 3 -> a < 3 -> c < 2 ->
  nth (a * 2 + c) (data (nth i (np.iter0 (anchor_grid (init (F := F)))) da)) dflt =
  get (anchors init) [i; a; c].
Proof.
  intros Hi Ha Hc. rewrite anchor_grid_scales.
  destruct i as [|[|[|i]]]; [| | |lia];
    (destruct a as [|[|[|a]]]; [| | |lia]);
    (destruct c as [|[|c]]; [| |lia]); reflexivity.
Qed.

(** What [pred] holds for each cell of each scale that the loops pair
    with a stride and an anchor set. *)
Lemma predictions_spec (output : list (ndarray F)) :
  Forall shaped output -> output <> [] ->
  exists pred,
    predictions init output = Ok pred /\
    shape pred = [1; offset output (Nat.min (length output) 3); 85] /\
    wf pred /\
    forall i out a gy gx k d,
      nth_error output i = Some out -> i < 3 ->
      a < 3 -> gy < gsize out -> gx < gsize out -> k < 85 ->
      nth ((offset output i + cell (gsize out) a gy gx) * 85 + k) (data pred) d =
      decoded (nth i (strides init) dflt)
        (get (anchors init) [i; a; 0]) (get (anchors init) [i; a; 1]) gx gy
        (fun j => sigmoid (nth (cell (gsize out) a gy gx * 85 + j) (data out) d)) k.
Proof.
  intros Ho Hne. unfold predictions.
  rewrite (mapM_activate Ho); cbn [bind].
  destruct (@mapM_decode _ _ _ output (strides init) (np.iter0 (anchor_grid init)) Ho)
    as (zs & Ezs & Hzs).
  { rewrite anchor_grid_scales. repeat constructor. }
  cbv zeta in Ezs. rewrite Ezs; cbn [bind].
  pose proof (decoded_scales_length Hzs) as Lz.
  rewrite anchor_grid_scales in Lz. cbn [strides init length Nat.min] in Lz.
  assert (Hz : zs <> []).
  { destruct output; [congruence|]. destruct zs; [cbn [length] in Lz; lia | discriminate]. }
  rewrite (concatenate1_rows Hz (decoded_scales_shapes Hzs)).
  eexists; split; [reflexivity|]. cbn [shape data].
  rewrite (decoded_scales_rows Hzs), Lz.
  split; [reflexivity|]. split.
  { unfold wf; cbn [shape data size].
    rewrite <- (firstn_all (map data zs)), length_map.
    rewrite (decoded_scales_offset Hzs) by lia. rewrite Lz. lia. }
  intros i out a gy gx k d Hout Hi Ha Hy Hx Hk.
  assert (Hi' : i < length zs).
  { rewrite Lz. assert (i < length output) by (apply nth_error_Some; congruence). lia. }
  pose proof (@decoded_scales_nth _ _ _ _ i out Hzs Hi' Hout dflt
                (mk_ndarray [] []) (mk_ndarray [] [])) as (Sz & Wz & Hd).
  pose proof (cell_lt Ha Hy Hx) as Hr.
  replace ((offset output i + cell (gsize out) a gy gx) * 85 + k)
    with (offset output i * 85 + (cell (gsize out) a gy gx * 85 + k)) by lia.
  rewrite <- (decoded_scales_offset Hzs) by lia.
  assert (En : nth i (map data zs) [] = data (nth i zs (mk_ndarray [] []))).
  { now rewrite (nth_map_in data zs (mk_ndarray [] [])). }
  rewrite nth_concat_at.
  - rewrite En, Hd by assumption.
    pose proof (@anchor_scale_entry i a 0 (mk_ndarray [] []) Hi Ha) as A0.
    rewrite Nat.add_0_r in A0. rewrite A0 by lia.
    now rewrite (@anchor_scale_entry i a 1 (mk_ndarray [] []) Hi Ha) by lia.
  - now rewrite length_map.
  - rewrite En, Wz, Sz. simpl. lia.
Qed.

End PredFacts.

Lemma cell_decompose n r :
  r < 3 * n * n ->
  exists a gy gx, a < 3 /\ gy < n /\ gx < n /\ r = cell n a gy gx.
Proof.
  intros Hr. assert (Hn : n <> 0) by (intros ->; lia).
  exists (r / n / n), ((r / n) mod n), (r mod n).
  assert (H1 : r / n < 3 * n) by (apply Nat.Div0.div_lt_upper_bound; lia).
  split; [apply Nat.Div0.div_lt_upper_bound; lia|].
  split; [now apply Nat.mod_upper_bound|].
  split; [now apply Nat.mod_upper_bound|].
  unfold cell.
  pose proof (Nat.div_mod_eq r n). pose proof (Nat.div_mod_eq (r / n) n). nia.
Qed.

Lemma offset_S {A : Type} (output : list (ndarray A)) i out :
  nth_error output i = Some out ->
  offset output (S i) = offset output i + 3 * gsize out * gsize out.
Proof.
  unfold offset. revert i. induction output as [|o output IH]; intros [|i] Ho;
    cbn [nth_error firstn map] in *; try discriminate.
  - injection Ho as <-. simpl. lia.
  - rewrite !list_sum_cons', (IH _ Ho). lia.
Qed.

Lemma offset_decompose {A : Type} (output : list (ndarray A)) m q :
  m <= length output -> q < offset output m ->
  exists i out r, i < m /\ nth_error output i = Some out /\
    r < 3 * gsize out * gsize out /\ q = offset output i + r.
Proof.
  induction m as [|m IH]; intros Hm Hq; [unfold offset in Hq; simpl in Hq; lia|].
  destruct (nth_error output m) as [out|] eqn:Eo;
    [|apply nth_error_None in Eo; lia].
  rewrite (offset_S _ _ Eo) in Hq.
  destruct (Nat.lt_ge_cases q (offset output m)) as [Hlt|Hge].
  - destruct (IH ltac:(lia) Hlt) as (i & o & r & Hi & Ho & Hr & E).
    exists i, o, r. repeat split; try assumption. lia.
  - exists m, out, (q - offset output m). repeat split; try assumption; lia.
Qed.

Section BoxFacts.
Context {F : Type} `{Scalar F} `{Exponential F}.

(** [extract_boxes] on outputs of the configured form: the corner form
    of the rows of [pred] that pass the confidence test, in order. *)
Lemma extract_boxes_spec (output : list (ndarray F)) conf_thres :
  Forall shaped output -> output <> [] ->
  exists pred,
    predictions init output = Ok pred /\
    let N := offset output (Nat.min (length output) 3) in
    extract_boxes init output conf_thres =
    Ok (mk_ndarray [length (kept_rows conf_thres N pred); 4]
          (flat_map xyxy (kept_rows conf_thres N pred))).
Proof.
  intros Ho Hne.
  destruct (predictions_spec Ho Hne) as (pred & Ep & Sp & Wp & _).
  exists pred. split; [exact Ep|]. cbv zeta.
  unfold extract_boxes. rewrite Ep; cbn [bind].
  apply (select_spec conf_thres Sp Wp).
Qed.

(** Every row of [pred] is the decoded row of some cell. *)
Lemma predictions_rows (output : list (ndarray F)) pred (P : list F -> Prop) :
  Forall shaped output -> output <> [] ->
  predictions init output = Ok pred ->
  (forall i out a gy gx row,
      nth_error output i = Some out -> i < 3 ->
      a < 3 -> gy < gsize out -> gx < gsize out ->
      length row = 85 ->
      (forall k d, k < 85 ->
         nth k row d =
         decoded (nth i (strides init) dflt)
           (get (anchors init) [i; a; 0]) (get (anchors init) [i; a; 1]) gx gy
           (fun j => sigmoid (nth (cell (gsize out) a gy gx * 85 + j) (data out) d)) k) ->
      P row) ->
  Forall P (chunks 85 (offset output (Nat.min (length output) 3)) (data pred)).
Proof.
  intros Ho Hne Ep HP.
  destruct (predictions_spec Ho Hne) as (pred' & Ep' & Sp & Wp & Hp).
  rewrite Ep in Ep'. injection Ep' as <-.
  set (N := offset output (Nat.min (length output) 3)) in *.
  assert (Hl : length (data pred) = N * 85) by (rewrite Wp, Sp; simpl; lia).
  pose proof (chunks_uniform 85 N (data pred) Hl) as Hu.
  apply Forall_forall. intros row Hin.
  destruct (In_nth _ _ [] Hin) as (q & Hq & <-). rewrite length_chunks in Hq.
  destruct (@offset_decompose _ output (Nat.min (length output) 3) q)
    as (i & out & r & Hi & Hout & Hr & ->); [lia | exact Hq |].
  destruct (cell_decompose _ Hr) as (a & gy & gx & Ha & Hy & Hx & ->).
  apply (HP i out a gy gx); try assumption; try lia.
  - rewrite Forall_forall in Hu. apply Hu, nth_In. now rewrite length_chunks.
  - intros k d Hk. rewrite nth_chunk_elem by assumption.
    apply Hp; assumption || lia.
Qed.

End BoxFacts.

(** ** The decoder: centre and size formulas *)

Section DecodeFacts.
Context {F : Type} `{Scalar F} `{Exponential F}.

(** C1.  For every scale [i] that the decoder pairs with a stride and an
    anchor set, every anchor [a] and every grid cell (row [gy], column
    [gx]), the row of [pred] for that cell holds
    [cx = (sigmoid(tx)*2 - 0.5 + gx) * stride],
    [cy = (sigmoid(ty)*2 - 0.5 + gy) * stride],
    [w = (sigmoid(tw)*2)^2 * anchor_w] and [h = (sigmoid(th)*2)^2 * anchor_h],
    with [sigmoid] applied once to the raw value; [extract_boxes] returns
    the corner form of the rows of this [pred] that pass the confidence
    test. *)
Theorem extract_boxes_decodes_cells
    (output : list (ndarray F)) (conf_thres : F) i out a gy gx :
  Forall shaped output ->
  nth_error output i = Some out -> i < 3 ->
  a < 3 -> gy < gsize out -> gx < gsize out ->
  exists pred,
    predictions init output = Ok pred /\
    (let N := offset output (Nat.min (length output) 3) in
     extract_boxes init output conf_thres =
     Ok (mk_ndarray [length (kept_rows conf_thres N pred); 4]
           (flat_map xyxy (kept_rows conf_thres N pred)))) /\
    let row := offset output i + cell (gsize out) a gy gx in
    let raw j := get out [0; a; gy; gx; j] in
    let stride := nth i (strides init) dflt in
    let anchor_w := get (anchors init) [i; a; 0] in
    let anchor_h := get (anchors init) [i; a; 1] in
    let sq x := fmul x x in
    get pred [0; row; 0] =
      fmul (fadd (fsub (fmul (sigmoid (raw 0)) (lit 2%Q)) (lit (1 # 2)%Q))
                 (of_int (Z.of_nat gx))) stride /\
    get pred [0; row; 1] =
      fmul (fadd (fsub (fmul (sigmoid (raw 1)) (lit 2%Q)) (lit (1 # 2)%Q))
                 (of_int (Z.of_nat gy))) stride /\
    get pred [0; row; 2] = fmul (sq (fmul (sigmoid (raw 2)) (of_int 2))) anchor_w /\
    get pred [0; row; 3] = fmul (sq (fmul (sigmoid (raw 3)) (of_int 2))) anchor_h.
Proof.
  intros Ho Hout Hi Ha Hy Hx.
  assert (Hne : output <> []) by (intros ->; now destruct i).
  destruct (extract_boxes_spec conf_thres Ho Hne) as (pred & Ep & Eb).
  destruct (predictions_spec Ho Hne) as (pred' & Ep' & Sp & Wp & Hp).
  rewrite Ep in Ep'. injection Ep' as <-.
  exists pred. split; [exact Ep|]. split; [exact Eb|]. cbv zeta.
  assert (Hs : shaped out).
  { rewrite Forall_forall in Ho. eapply Ho, nth_error_In, Hout. }
  destruct Hs as [Es _].
  assert (G : forall k, k < 85 ->
    get pred [0; offset output i + cell (gsize out) a gy gx; k] =
    decoded (nth i (strides init) dflt)
      (get (anchors init) [i; a; 0]) (get (anchors init) [i; a; 1]) gx gy
      (fun j => sigmoid (get out [0; a; gy; gx; j])) k).
  { intros k Hk. unfold get at 1. rewrite Sp.
    replace (ravel _ _) with ((offset output i + cell (gsize out) a gy gx) * 85 + k)
      by (simpl; lia).
    rewrite (Hp i out a gy gx k dflt) by assumption.
    unfold get at 5. rewrite Es.
    destruct k as [|[|[|[|k]]]]; cbn [decoded]; now rewrite ?ravel_cell. }
  repeat split; rewrite G by lia; reflexivity.
Qed.

End DecodeFacts.

(** ** Order properties, over the reals *)



Section RealFacts.
Open Scope R_scope.

Lemma sigmoid_bounds (x : R) : 0 < sigmoid x < 1.
Proof.
  unfold sigmoid; cbn [fdiv fadd fexp fneg lit Scalar_R Exponential_R].
  replace (Q2R 1) with 1 by (unfold Q2R; simpl; lra).
  pose proof (exp_pos (- x)) as He.
  split.
  - apply Rdiv_lt_0_compat; lra.
  - apply Rmult_lt_reg_r with (r := exp (- x) + 1); [lra|].
    unfold Rdiv. rewrite Rmult_assoc, Rinv_l by lra. lra.
Qed.

Lemma anchors_positive i a c :
  (i < 3)%nat -> (a < 3)%nat -> (c < 2)%nat ->
  0 < get (anchors (init (F := R))) [i; a; c].
Proof.
  intros Hi Ha Hc.
  destruct i as [|[|[|i]]]; [| | |lia];
    (destruct a as [|[|[|a]]]; [| | |lia]);
    (destruct c as [|[|c]]; [| |lia]);
    unfold get; simpl; lra.
Qed.

End RealFacts.


Lemma zeros_1x1_shaped : Forall shaped [zeros_1x1].
Proof. repeat constructor. Qed.

Lemma sigmoid_0 : sigmoid 0%R = (1 / 2)%R.
Proof.
  unfold sigmoid; cbn [fdiv fadd fexp fneg lit Scalar_R Exponential_R].
  replace (Q2R 1) with 1%R by (unfold Q2R; simpl; lra).
  rewrite Ropp_0, exp_0. lra.
Qed.

Lemma half_not_above_default : fgt (sigmoid 0%R) conf_thres_default = false.
Proof.
  rewrite sigmoid_0. unfold conf_thres_default; cbn [fgt lit Scalar_R]. unfold Rgtb.
  replace (Q2R (1 # 2)) with (1 / 2)%R by (unfold Q2R; simpl; lra).
  destruct (Rlt_dec (1 / 2) (1 / 2)); [lra | reflexivity].
Qed.

Lemma Rgtb_true (a b : R) : Rgtb a b = true <-> (b < a)%R.
Proof. unfold Rgtb. destruct (Rlt_dec b a); split; intros; congruence || assumption. Qed.

Lemma Rgtb_false (a b : R) : Rgtb a b = false <-> (a <= b)%R.
Proof.
  unfold Rgtb. destruct (Rlt_dec b a); split; intros; try congruence; lra.
Qed.

(** ** Order properties with NaN *)

Section NumFacts.
Open Scope R_scope.

Lemma Q2R_one : Q2R 1 = 1.
Proof. unfold Q2R; simpl; lra. Qed.

Lemma Q2R_zero : Q2R 0 = 0.
Proof. unfold Q2R; simpl; lra. Qed.

Lemma sigmoid_num (x : R) : sigmoid (Num x) = Num (sigmoid x).
Proof.
  unfold sigmoid; cbn [fdiv fadd fexp fneg lit Scalar_flt Exponential_flt Scalar_R
                         Exponential_R flt_div flt_op2 flt_neg flt_exp].
  destruct (Req_EM_T (exp (- x) + Q2R 1) 0) as [E|_]; [|reflexivity].
  pose proof (exp_pos (- x)). rewrite Q2R_one in E. lra.
Qed.


Lemma nth_is_num (l : list flt) i : Forall is_num l -> exists x, nth i l dflt = Num x.
Proof.
  intros Hl. destruct (nth_in_or_default i l dflt) as [Hin | ->].
  - rewrite Forall_forall in Hl. specialize (Hl _ Hin).
    destruct (nth i l dflt) as [x|]; [now exists x | now elim Hl].
  - eexists; reflexivity.
Qed.


Lemma strides_num i :
  (i < 3)%nat ->
  nth i (strides (init (F := flt))) dflt = Num (nth i (strides (init (F := R))) dflt).
Proof. intros Hi. destruct i as [|[|[|i]]]; [| | |lia]; reflexivity. Qed.

Lemma anchors_num i a c :
  (i < 3)%nat -> (a < 3)%nat -> (c < 2)%nat ->
  get (anchors (init (F := flt))) [i; a; c] = Num (get (anchors (init (F := R))) [i; a; c]).
Proof.
  intros Hi Ha Hc.
  destruct i as [|[|[|i]]]; [| | |lia];
    (destruct a as [|[|[|a]]]; [| | |lia]);
    (destruct c as [|[|c]]; [| |lia]); reflexivity.
Qed.

(** A decoded row of raw numbers, entry by entry. *)
Lemma decoded_num (st aw ah : R) gx gy (raw : nat -> flt) :
  (forall j, exists x, raw j = Num x) ->
  exists s0 s1 s2 s3,
    (0 < s0 < 1) /\ (0 < s1 < 1) /\ (0 < s2 < 1) /\ (0 < s3 < 1) /\
    decoded (Num st) (Num aw) (Num ah) gx gy (fun j => sigmoid (raw j)) 0 =
      Num ((s0 * 2 - 1 / 2 + INR gx) * st) /\
    decoded (Num st) (Num aw) (Num ah) gx gy (fun j => sigmoid (raw j)) 1 =
      Num ((s1 * 2 - 1 / 2 + INR gy) * st) /\
    decoded (Num st) (Num aw) (Num ah) gx gy (fun j => sigmoid (raw j)) 2 =
      Num (s2 * 2 * (s2 * 2) * aw) /\
    decoded (Num st) (Num aw) (Num ah) gx gy (fun j => sigmoid (raw j)) 3 =
      Num (s3 * 2 * (s3 * 2) * ah).
Proof.
  intros Hraw.
  destruct (Hraw 0%nat) as (x0 & E0). destruct (Hraw 1%nat) as (x1 & E1).
  destruct (Hraw 2%nat) as (x2 & E2). destruct (Hraw 3%nat) as (x3 & E3).
  exists (sigmoid x0), (sigmoid x1), (sigmoid x2), (sigmoid x3).
  repeat (split; [apply sigmoid_bounds|]).
  cbn [decoded]. rewrite E0, E1, E2, E3, !sigmoid_num.
  cbn [fmul fadd fsub lit of_int Scalar_flt flt_op2].
  rewrite <- !INR_IZR_INZ.
  replace (Q2R 2) with 2 by (unfold Q2R; simpl; lra).
  replace (Q2R (1 # 2)) with (1 / 2) by (unfold Q2R; simpl; lra).
  repeat split; reflexivity.
Qed.

Lemma decoded_activation (st aw ah : flt) gx gy (raw : nat -> flt) k :
  (4 <= k)%nat ->
  decoded st aw ah gx gy (fun j => sigmoid (raw j)) k = sigmoid (raw k).
Proof. intros Hk. do 4 (destruct k as [|k]; [lia|]). reflexivity. Qed.

End NumFacts.

Section BoxInvariant.

Lemma predictions_row_num (output : list (ndarray flt)) pred :
  Forall shaped output -> output <> [] -> Forall no_nan output ->
  predictions init output = Ok pred ->
  Forall row_num (chunks 85 (offset output (Nat.min (length output) 3)) (data pred)).
Proof.
  intros Ho Hne Hn Ep. apply (predictions_rows row_num Ho Hne Ep).
  intros i out a gy gx row Hout Hi Ha Hy Hx Hl Hrow.
  assert (Hraw : forall j, exists x,
             nth (cell (gsize out) a gy gx * 85 + j) (data out) dflt = Num x).
  { intros j. apply nth_is_num. rewrite Forall_forall in Hn.
    eapply Hn, nth_error_In, Hout. }
  assert (Hr : forall k, k < 85 ->
             nth k row dflt =
             decoded (Num (nth i (strides (init (F := R))) dflt))
               (Num (get (anchors (init (F := R))) [i; a; 0]))
               (Num (get (anchors (init (F := R))) [i; a; 1])) gx gy
               (fun j => sigmoid (nth (cell (gsize out) a gy gx * 85 + j) (data out) dflt))
               k).
  { intros k Hk. rewrite (Hrow k dflt Hk).
    now rewrite strides_num, !anchors_num by lia. }
  pose proof (@anchors_positive i a 0 Hi Ha ltac:(lia)) as Aw.
  pose proof (@anchors_positive i a 1 Hi Ha ltac:(lia)) as Ah.
  destruct (decoded_num (nth i (strides (init (F := R))) dflt)
              (get (anchors (init (F := R))) [i; a; 0])
              (get (anchors (init (F := R))) [i; a; 1]) gx gy _ Hraw)
    as (s0 & s1 & s2 & s3 & B0 & B1 & B2 & B3 & E0 & E1 & E2 & E3).
  split.
  - eexists _, _, _, _.
    rewrite !Hr by lia. rewrite E0, E1, E2, E3.
    repeat (split; [reflexivity|]).
    split; nra.
  - intros k [Hk1 Hk2]. rewrite Hr by assumption.
    rewrite decoded_activation by assumption.
    destruct (Hraw k) as (x & ->). rewrite sigmoid_num.
    eexists; split; [reflexivity | apply sigmoid_bounds].
Qed.




End BoxInvariant.

Section OneCandidate.

Lemma one_candidate_shaped tx : Forall shaped [one_candidate tx].
Proof. repeat constructor. Qed.




End OneCandidate.

Lemma one_candidate_no_nan : Forall no_nan [one_candidate (Num 0)].
Proof.
  constructor; [|constructor]. unfold no_nan, one_candidate; cbn [data].
  apply Forall_app. split.
  - repeat constructor; discriminate.
  - apply Forall_forall. intros x Hx. apply repeat_spec in Hx. now subst.
Qed.





(** ** Class scores: [extract_class_grids] *)

Lemma ravel_snoc o idx m k :
  length idx = length o -> ravel (o ++ [m]) (idx ++ [k]) = ravel o idx * m + k.
Proof.
  revert idx; induction o as [|d o IH]; intros [|i idx] Hl; simpl in Hl; try discriminate.
  - simpl. lia.
  - cbn [app ravel]. rewrite IH by lia. rewrite size_app. simpl. lia.
Qed.

Lemma inb_snoc idx o k m : inb idx o -> k < m -> inb (idx ++ [k]) (o ++ [m]).
Proof. intros Hi Hk. apply Forall2_app; [assumption | now repeat constructor]. Qed.

Lemma bshape_last o c : np.bshape (o ++ [c]) (o ++ [1]) = Some (o ++ [c]).
Proof.
  induction o as [|d o IH]; simpl.
  - destruct (Nat.eqb_spec c 1); [now subst|].
    destruct (c =? 1); reflexivity.
  - now rewrite IH, Nat.eqb_refl.
Qed.

Lemma bidx_snoc_one idx o c :
  inb idx o -> np.bidx (o ++ [1]) (idx ++ [c]) = idx ++ [0].
Proof.
  induction 1 as [|i d idx o Hi _ IH]; simpl; [reflexivity|].
  rewrite IH. destruct (Nat.eqb_spec d 1); [f_equal; lia | reflexivity].
Qed.

Section ClassFacts.
Context {F : Type} `{Scalar F} `{Exponential F}.


Lemma class_grid_spec (out : ndarray F) :
  wf out -> 5 <= last (shape out) 0 ->
  exists g, class_grid out = Ok g /\ fuses out g.
Proof.
  intros Wo Hm. unfold class_grid.
  assert (Hs : shape out <> []) by (intros E; rewrite E in Hm; simpl in Hm; lia).
  pose proof (app_removelast_last 0 Hs) as Es.
  set (o := removelast (shape out)) in *. set (m := last (shape out) 0) in *.
  destruct (slice_last_cells (lo := 4) (hi := 5) o Es Wo) as (ob & Eob & Sob & Wob & Hob);
    [lia | lia |].
  rewrite Eob; cbn [bind]. unfold np.slice_last_from. fold m.
  destruct (slice_last_cells (lo := 5) (hi := m) o Es Wo) as (cl & Ecl & Scl & Wcl & Hcl);
    [lia | lia |].
  rewrite Ecl; cbn [bind]. cbv zeta. rewrite !sigmoid_v_elementwise.
  replace (5 - 4) with 1 in * by lia.
  set (cp := np.elementwise sigmoid cl). set (op := np.elementwise sigmoid ob).
  assert (Scp : shape cp = o ++ [m - 5]) by exact Scl.
  assert (Sop : shape op = o ++ [1]) by exact Sob.
  destruct (broadcast2_spec fmul cp op (s := o ++ [m - 5])) as (g & Eg & Sg & Wg & Hg).
  { rewrite Scp, Sop, broadcast_shapes_same_rank by (rewrite !length_app; reflexivity).
    apply bshape_last. }
  unfold np.multiply. rewrite Eg. exists g. split; [reflexivity|].
  unfold fuses. fold o m. split; [exact Sg|].
  intros idx c Hi Hc.
  pose proof (inb_snoc Hi Hc) as Hic.
  pose proof (ravel_lt Hi) as Hr.
  pose proof (inb_length Hi) as Hlen.
  unfold get at 1. rewrite Sg, (Hg _ dflt Hic).
  assert (Lcl : length (data cl) = size o * (m - 5)).
  { rewrite Wcl, Scl, size_app. simpl. lia. }
  assert (Lob : length (data ob) = size o * 1).
  { rewrite Wob, Sob, size_app. simpl. lia. }
  f_equal.
  - rewrite (bget_inb cp Scp Hic). unfold get. rewrite Scp, ravel_snoc by assumption.
    unfold cp. rewrite nth_elementwise with (d := dflt) by nia.
    rewrite Hcl by assumption. now rewrite Es at 1; rewrite ravel_snoc by assumption.
  - replace (length (o ++ [m - 5])) with (length (shape op))
      by (rewrite Sop, !length_app; reflexivity).
    rewrite bget_same_rank, Sop. rewrite bidx_snoc_one by assumption.
    rewrite ravel_snoc by assumption.
    unfold op. rewrite nth_elementwise with (d := dflt) by nia.
    replace (ravel o idx * 1 + 0) with (ravel o idx * (5 - 4) + 0) by lia.
    replace (5 - 4) with 1 by lia.
    rewrite (Hob (ravel o idx) 0 dflt Hr) by lia.
    unfold get. now rewrite Es at 1; rewrite ravel_snoc by assumption.
Qed.

(** C3.  For every raw output, every cell [idx] and every class [c], the
    score that [extract_class_grids] produces is
    [sigmoid(raw_class_c) * sigmoid(raw_obj)]: the class probability
    multiplied by the objectness. *)
Theorem class_scores_fused (output : list (ndarray F)) :
  Forall (fun out => wf out /\ 5 <= last (shape out) 0) output ->
  exists grids,
    extract_class_grids output = Ok grids /\
    Forall2 (fun out g =>
               let cells := removelast (shape out) in
               let classes := last (shape out) 0 - 5 in
               shape g = cells ++ [classes] /\
               forall idx c, inb idx cells -> c < classes ->
                 get g (idx ++ [c]) =
                 fmul (sigmoid (get out (idx ++ [5 + c])))
                      (sigmoid (get out (idx ++ [4]))))
      output grids.
Proof.
  unfold extract_class_grids.
  induction 1 as [|out output [Wo Hm] _ (grids & Eg & Hg)].
  - exists []. split; [reflexivity | constructor].
  - destruct (class_grid_spec Wo Hm) as (g & Eg1 & Hg1).
    exists (g :: grids). split.
    + cbn [mapM]. rewrite Eg1; cbn [bind]. now rewrite Eg.
    + constructor; assumption.
Qed.

End ClassFacts.

(** ** [nms] *)

Section NmsFacts.
Context {F : Type} `{Scalar F}.

(** C10.  [nms] returns [None] for every boxes argument of non-zero
    length and the empty list exactly for one of length zero; [scores],
    [iou_thres] and [max_det] have no effect on the result. *)
Theorem nms_returns_none_or_empty
    (boxes scores : ndarray F) (iou_thres : F) (max_det : Z) :
  nms boxes scores iou_thres max_det =
    match shape boxes with
    | [] => Raise TypeError
    | 0 :: _ => Ok (PyList [])
    | S _ :: _ => Ok PyNone
    end /\
  forall scores' iou_thres' max_det',
    nms boxes scores' iou_thres' max_det' = nms boxes scores iou_thres max_det.
Proof.
  split; [|reflexivity].
  unfold nms, np.len. destruct (shape boxes) as [|[|n] rest]; reflexivity.
Qed.


End NmsFacts.

(** With one box and [max_det = 30], [nms] returns [None]. *)
Example nms_one_box : nms one_box one_score (6 # 10)%Q 30 = Ok PyNone.
Proof. reflexivity. Qed.


(** ** [detect] *)

Lemma mapM_cons {A B : Type} (f : A -> res B) x l :
  mapM f (x :: l) = (y <- f x ;; ys <- mapM f l ;; Ok (y :: ys)).
Proof. reflexivity. Qed.

Section DetectFacts.
Context {F : Type} `{Scalar F}.


Lemma detect_spec (self : Processor F) (outputs : list (ndarray F)) :
  detect self outputs =
  if existsb mismatch (combine outputs (output_shapes self))
  then Raise ValueError
  else Ok (map (fun os => mk_ndarray (snd os) (data (fst os)))
             (combine outputs (output_shapes self))).
Proof.
  unfold detect. induction (combine outputs (output_shapes self)) as [|[o s] l IH];
    [reflexivity|].
  rewrite mapM_cons. cbn [existsb map fst snd].
  unfold mismatch at 1. unfold np.reshape at 1. cbn [fst snd].
  destruct (size (shape o) =? size s); cbn [bind negb orb]; [|reflexivity].
  rewrite IH. destruct (existsb mismatch l); reflexivity.
Qed.

End DetectFacts.

Section EmptyResult.
Context {F : Type} `{Scalar F} `{Exponential F}.

Lemma filter_none {A : Type} (t : A -> bool) (l : list A) :
  Forall (fun x => t x = false) l -> filter t l = [].
Proof. induction 1 as [|x l Hx _ IH]; simpl; [reflexivity | now rewrite Hx]. Qed.


Lemma extract_boxes_none_above (output : list (ndarray F)) conf_thres :
  Forall shaped output -> output <> [] -> none_above conf_thres output ->
  extract_boxes init output conf_thres = Ok (mk_ndarray [0; 4] []).
Proof.
  intros Ho Hne Hnone.
  destruct (extract_boxes_spec conf_thres Ho Hne) as (pred & Ep & Eb).
  cbv zeta in Eb. rewrite Eb. unfold kept_rows.
  rewrite filter_none; [reflexivity|].
  apply (predictions_rows (fun row => fgt (nth 4 row dflt) conf_thres = false) Ho Hne Ep).
  intros i out a gy gx row Hout Hi Ha Hy Hx _ Hrow.
  rewrite (Hrow 4 dflt) by lia. cbn [decoded].
  specialize (Hnone i out a gy gx Hout Hi Ha Hy Hx).
  unfold get in Hnone.
  assert (Es : shape out = [1; 3; gsize out; gsize out; 85]).
  { rewrite Forall_forall in Ho. eapply Ho, nth_error_In, Hout. }
  now rewrite Es, ravel_cell in Hnone.
Qed.

(** C6, as the code has it.  [detect] raises the error of [reshape]
    exactly when one of the raw outputs it pairs with a configured shape
    has another element count than that shape; otherwise it returns the
    reshaped outputs, one per pair, so that zero scales give the empty list
    and no error.  [detect] applies no threshold: for outputs of the
    configured form with no candidate above the threshold it is
    [extract_boxes] that returns an empty array and no error. *)
Theorem detect_reshapes_only :
  (forall (self : Processor F) outputs,
      detect self outputs =
      if existsb mismatch (combine outputs (output_shapes self))
      then Raise ValueError
      else Ok (map (fun os => mk_ndarray (snd os) (data (fst os)))
                 (combine outputs (output_shapes self)))) /\
  (forall self : Processor F, detect self [] = Ok []) /\
  (forall (output : list (ndarray F)) conf_thres,
      Forall shaped output -> output <> [] -> none_above conf_thres output ->
      extract_boxes init output conf_thres = Ok (mk_ndarray [0; 4] [])).
Proof.
  split; [exact detect_spec|]. split; [reflexivity|].
  exact extract_boxes_none_above.
Qed.

End EmptyResult.

Lemma nth_repeat_in {A : Type} (a d : A) n p : p < n -> nth p (repeat a n) d = a.
Proof.
  intros Hp. rewrite (nth_indep _ d a) by now rewrite repeat_length.
  apply nth_repeat.
Qed.

Lemma zeros_1x1_none_above : none_above conf_thres_default [zeros_1x1].
Proof.
  intros i out a gy gx Hout Hi Ha Hy Hx.
  destruct i; [|now destruct i]. injection Hout as <-.
  unfold gsize in Hy, Hx; cbn [zeros_1x1 shape nth] in Hy, Hx.
  replace (get zeros_1x1 [0; a; gy; gx; 4]) with 0%R; [apply half_not_above_default|].
  unfold get, zeros_1x1; cbn [shape data]. rewrite ravel_cell.
  pose proof (cell_lt Ha Hy Hx). symmetry. apply nth_repeat_in. lia.
Qed.

Lemma detect_reshapes_only_witness :
  Forall shaped [zeros_1x1] /\ [zeros_1x1] <> [] /\
  none_above conf_thres_default [zeros_1x1] /\
  extract_boxes init [zeros_1x1] conf_thres_default = Ok (mk_ndarray [0; 4] []).
Proof.
  split; [exact zeros_1x1_shaped|]. split; [discriminate|].
  split; [exact zeros_1x1_none_above|].
  apply (proj2 (proj2 (detect_reshapes_only (F := R)))).
  - exact zeros_1x1_shaped.
  - discriminate.
  - exact zeros_1x1_none_above.
Defined.


Lemma zeros_flat_size n s : n = size s -> mismatch (zeros_flat n, s) = false.
Proof.
  intros ->. unfold mismatch, zeros_flat; cbn [fst snd shape size].
  now rewrite Nat.mul_1_r, Nat.eqb_refl.
Qed.

(** C6, counterexample.  On the all-zero outputs of the three scales, which
    have the configured element counts and no candidate above the default
    threshold (every objectness is [sigmoid 0 = 0.5]), [detect] returns
    three arrays, not an empty list. *)
Lemma detect_zeros_not_empty :
  Forall2 (fun o s => wf o /\ size (shape o) = size s) engine_zeros (output_shapes (init (F := R))) /\
  (forall o x, In o engine_zeros -> In x (data o) ->
     fgt (sigmoid x) conf_thres_default = false) /\
  exists r, detect init engine_zeros = Ok r /\ length r = 3 /\ r <> [].
Proof.
  split; [|split].
  - unfold engine_zeros; cbn [init output_shapes].
    repeat apply Forall2_cons; try apply Forall2_nil;
      (split; [unfold wf, zeros_flat; cbn [shape data size]; rewrite repeat_length; lia
              |unfold zeros_flat; cbn [shape size]; lia]).
  - intros o x Ho Hx.
    assert (x = 0%R) as ->.
    { unfold engine_zeros in Ho; cbn [In] in Ho.
      destruct Ho as [<-|[<-|[<-|[]]]]; apply repeat_spec in Hx; exact Hx. }
    apply half_not_above_default.
  - rewrite detect_spec. unfold engine_zeros; cbn [init output_shapes combine existsb].
    rewrite !zeros_flat_size by (cbn [size]; lia). cbn [orb map fst snd].
    eexists; split; [reflexivity|]. split; [reflexivity | discriminate].
Qed.


(** ** Which buffers a method writes *)

Section UpdateFacts.
Context {A : Type}.

Lemma length_update i (x : A) l : length (Obj.update i x l) = length l.
Proof.
  revert i; induction l as [|y l IH]; intros [|i]; simpl; try reflexivity.
  now rewrite IH.
Qed.

Lemma firstn_update n i (x : A) l : n <= i -> firstn n (Obj.update i x l) = firstn n l.
Proof.
  revert n i; induction l as [|y l IH]; intros [|n] [|i] Hn; simpl; try reflexivity;
    try lia.
  f_equal. apply IH. lia.
Qed.

Lemma nth_update_eq i (x : A) l d : i < length l -> nth i (Obj.update i x l) d = x.
Proof.
  revert i; induction l as [|y l IH]; intros [|i] Hi; simpl in *; try lia;
    [reflexivity | apply IH; lia].
Qed.

Lemma nth_update_neq i j (x : A) l d : i <> j -> nth j (Obj.update i x l) d = nth j l d.
Proof.
  revert i j; induction l as [|y l IH]; intros [|i] [|j] Hij; simpl; try reflexivity;
    try lia.
  apply IH. lia.
Qed.

Lemma update_update i (x y : A) l : Obj.update i y (Obj.update i x l) = Obj.update i y l.
Proof.
  revert i; induction l as [|z l IH]; intros [|i]; simpl; try reflexivity.
  now rewrite IH.
Qed.

End UpdateFacts.

Section Frame.
Context {F : Type}.
Local Abbreviation keeps := (@keeps F _).


Lemma keeps_ret {A : Type} n (P : A -> Prop) a : P a -> keeps n P (Obj.ret a).
Proof. intros Ha s Hs. cbn. split; [auto|]. now intros ? [= <-]. Qed.

Lemma keeps_raise {A : Type} n (P : A -> Prop) e : keeps n P (Obj.raise e).
Proof. intros s Hs. cbn. split; [auto | discriminate]. Qed.

Lemma keeps_lift {A : Type} n (x : res A) : keeps n (fun a => x = Ok a) (Obj.lift x).
Proof. intros s Hs. cbn. split; [auto|]. now intros a ->. Qed.

Lemma keeps_weaken {A : Type} n (P Q : A -> Prop) m :
  keeps n P m -> (forall a, P a -> Q a) -> keeps n Q m.
Proof. intros Hm HPQ s Hs. destruct (Hm s Hs) as [H1 H2]. split; auto. Qed.

Lemma keeps_bind {A B : Type} n (P : A -> Prop) (Q : B -> Prop) m k :
  keeps n P m -> (forall a, P a -> keeps n Q (k a)) -> keeps n Q (Obj.bind m k).
Proof.
  intros Hm Hk s Hs. destruct (Hm s Hs) as [[L1 E1] H1].
  unfold Obj.bind. destruct (m s) as [[a|e] s1] eqn:Em; cbn [fst snd] in *.
  - destruct (Hk a (H1 a eq_refl) s1 L1) as [[L2 E2] H2].
    split; [split; [assumption | congruence] | assumption].
  - split; [auto | discriminate].
Qed.

Lemma keeps_mapM {A B : Type} n (Q : B -> Prop) (f : A -> Obj.M F B) l :
  (forall x, In x l -> keeps n Q (f x)) -> keeps n (Forall Q) (Obj.mapM f l).
Proof.
  induction l as [|x l IH]; intros Hf; cbn [Obj.mapM].
  - now apply keeps_ret.
  - eapply keeps_bind; [apply Hf; now left|]. intros y Hy.
    eapply keeps_bind; [apply IH; intros; apply Hf; now right|]. intros ys Hys.
    apply keeps_ret. now constructor.
Qed.

Context `{Scalar F}.

Lemma keeps_load n r : keeps n (fun _ => True) (Obj.load r).
Proof. intros s Hs. cbn. auto. Qed.

Lemma keeps_new n v : keeps n (fun r => n <= Obj.loc r) (Obj.new v).
Proof.
  intros s Hs. cbn. rewrite length_app. split; [split; [lia|]|].
  - rewrite firstn_app. replace (n - length s) with 0 by lia.
    now rewrite firstn_O, app_nil_r.
  - now intros a [= <-].
Qed.

Lemma keeps_assign n r v : n <= Obj.loc r -> keeps n (fun _ => True) (Obj.assign r v).
Proof.
  intros Hr s Hs. cbn. rewrite length_update, firstn_update by assumption. auto.
Qed.

Lemma keeps_reshape n r s :
  n <= Obj.loc r -> keeps n (fun r' => n <= Obj.loc r') (Obj.reshape r s).
Proof.
  intros Hr. unfold Obj.reshape. destruct (_ =? _); [now apply keeps_ret | apply keeps_raise].
Qed.

End Frame.

Lemma in_zip4_fst {A B C D : Type} (a : list A) (b : list B) (c : list C) (d : list D) x :
  In x (zip4 a b c d) -> In (fst (fst (fst x))) a.
Proof.
  destruct x as [[[xa xb] xc] xd]. unfold zip4. intros Hin.
  apply in_combine_l in Hin. apply in_combine_l in Hin. apply in_combine_l in Hin.
  exact Hin.
Qed.

Section MethodFrames.
Context {F : Type} `{Scalar F} `{Exponential F}.
Local Abbreviation keeps := (@keeps F _).


Lemma keeps_set_slice_last n lo hi r v :
  later n r -> keeps n (fun _ => True) (Obj.set_slice_last lo hi r v).
Proof.
  intros Hr. unfold Obj.set_slice_last.
  eapply keeps_bind; [apply keeps_load|]. intros a _.
  eapply keeps_bind; [apply keeps_lift|]. intros a' _.
  now apply keeps_assign.
Qed.

Lemma keeps_set_slice_axis1 n lo hi r v :
  later n r -> keeps n (fun _ => True) (Obj.set_slice_axis1 lo hi r v).
Proof.
  intros Hr. unfold Obj.set_slice_axis1.
  eapply keeps_bind; [apply keeps_load|]. intros a _.
  eapply keeps_bind; [apply keeps_lift|]. intros a' _.
  now apply keeps_assign.
Qed.

Lemma keeps_set_index_axis1 n j r v :
  later n r -> keeps n (fun _ => True) (Obj.set_index_axis1 j r v).
Proof.
  intros Hr. unfold Obj.set_index_axis1.
  eapply keeps_bind; [apply keeps_load|]. intros a _.
  eapply keeps_bind; [apply keeps_lift|]. intros a' _.
  now apply keeps_assign.
Qed.

Lemma keeps_xywh2xyxy n x : keeps n (later n) (Obj.xywh2xyxy x).
Proof.
  unfold Obj.xywh2xyxy.
  eapply keeps_bind; [apply keeps_new|]. intros y Hy.
  do 4 (eapply keeps_bind; [apply keeps_lift|]; intros ? _;
        eapply keeps_bind; [apply keeps_lift|]; intros ? _;
        eapply keeps_bind; [apply keeps_lift|]; intros ? _;
        eapply keeps_bind; [now apply keeps_set_index_axis1|]; intros _ _).
  now apply keeps_ret.
Qed.

Lemma keeps_class_grid n out : keeps n (later n) (Obj.class_grid out).
Proof.
  unfold Obj.class_grid.
  eapply keeps_bind; [apply keeps_load|]. intros a _.
  eapply keeps_bind; [apply keeps_lift|]. intros o _.
  eapply keeps_bind; [apply keeps_new|]. intros op _.
  eapply keeps_bind; [apply keeps_lift|]. intros c _.
  eapply keeps_bind; [apply keeps_new|]. intros cp _.
  eapply keeps_bind; [apply keeps_load|]. intros ? _.
  eapply keeps_bind; [apply keeps_load|]. intros ? _.
  eapply keeps_bind; [apply keeps_lift|]. intros ? _.
  apply keeps_new.
Qed.

Lemma keeps_extract_class_grids n output :
  keeps n (Forall (later n)) (Obj.extract_class_grids output).
Proof. apply keeps_mapM. intros; apply keeps_class_grid. Qed.

Lemma keeps_activate n out :
  keeps n (fun og => later n (fst og)) (Obj.activate out).
Proof.
  unfold Obj.activate.
  eapply keeps_bind; [apply keeps_load|]. intros a _.
  eapply keeps_bind; [apply keeps_new|]. intros o Ho.
  eapply keeps_bind; [apply keeps_lift|]. intros [w h] _.
  eapply keeps_bind; [apply keeps_lift|]. intros g _.
  now apply keeps_ret.
Qed.

Lemma keeps_decode n ogsa :
  later n (fst (fst (fst ogsa))) -> keeps n (later n) (Obj.decode ogsa).
Proof.
  destruct ogsa as [[[out grid] stride] anchor]; cbn [fst]. intros Ho.
  unfold Obj.decode.
  eapply keeps_bind; [apply keeps_lift|]. intros [w h] _.
  eapply keeps_bind; [apply keeps_load|]. intros a _.
  eapply keeps_bind; [apply keeps_lift|]. intros xy _.
  eapply keeps_bind; [apply keeps_lift|]. intros v _.
  eapply keeps_bind; [now apply keeps_set_slice_last|]. intros _ _.
  eapply keeps_bind; [apply keeps_load|]. intros a1 _.
  eapply keeps_bind; [apply keeps_lift|]. intros wh _.
  eapply keeps_bind; [apply keeps_lift|]. intros v1 _.
  eapply keeps_bind; [now apply keeps_set_slice_last|]. intros _ _.
  now apply keeps_reshape.
Qed.

Lemma keeps_extract_boxes n self output conf_thres :
  keeps n (later n) (Obj.extract_boxes self output conf_thres).
Proof.
  unfold Obj.extract_boxes.
  eapply keeps_bind; [apply keeps_mapM; intros; apply keeps_activate|]. intros sg Hsg.
  eapply keeps_bind.
  { apply keeps_mapM with (Q := later n). intros x Hx. apply keeps_decode.
    apply in_zip4_fst in Hx. apply in_map_iff in Hx as (og & <- & Hog).
    rewrite Forall_forall in Hsg. now apply Hsg. }
  intros z _.
  eapply keeps_bind; [apply keeps_mapM; intros; apply keeps_load|]. intros zv _.
  eapply keeps_bind; [apply keeps_lift|]. intros p _.
  eapply keeps_bind; [apply keeps_new|]. intros pred _.
  eapply keeps_bind; [apply keeps_load|]. intros a _.
  eapply keeps_bind; [apply keeps_lift|]. intros o _.
  eapply keeps_bind; [apply keeps_lift|]. intros p' _.
  eapply keeps_bind; [apply keeps_new|]. intros pred' _.
  eapply keeps_bind; [apply keeps_load|]. intros a' _.
  eapply keeps_bind; [apply keeps_lift|]. intros b _.
  apply keeps_xywh2xyxy.
Qed.

(** C9.  Decoding does not write into its input: after
    [extract_boxes], and likewise after [extract_class_grids], every
    buffer that existed before the call holds the elements it held, so
    every array of the input list has the value it had. *)
Theorem decoding_keeps_inputs (self : Processor F) (s : Obj.store F)
    (output : list Obj.ref) (conf_thres : F) :
  let after_boxes := snd (Obj.extract_boxes self output conf_thres s) in
  let after_grids := snd (Obj.extract_class_grids output s) in
  firstn (length s) after_boxes = s /\
  firstn (length s) after_grids = s /\
  forall out, In out output -> Obj.loc out < length s ->
    Obj.deref after_boxes out = Obj.deref s out /\
    Obj.deref after_grids out = Obj.deref s out.
Proof.
  cbv zeta.
  pose proof (@keeps_extract_boxes (length s) self output conf_thres) as Kb.
  pose proof (@keeps_extract_class_grids (length s) output) as Kg.
  destruct (Kb s (le_n _)) as [[_ Eb] _]. destruct (Kg s (le_n _)) as [[_ Eg] _].
  rewrite firstn_all in Eb, Eg.
  split; [exact Eb|]. split; [exact Eg|].
  intros out _ Hout. unfold Obj.deref.
  assert (K : forall s', firstn (length s) s' = s ->
              nth (Obj.loc out) s' [] = nth (Obj.loc out) s []).
  { intros s' E.
    transitivity (nth (Obj.loc out) (firstn (length s) s') []); [|now rewrite E].
    rewrite nth_firstn. destruct (Nat.ltb_spec (Obj.loc out) (length s)); [reflexivity | lia]. }
  rewrite (K _ Eb), (K _ Eg). split; reflexivity.
Qed.

End MethodFrames.


Lemma decoding_keeps_inputs_witness :
  In zeros_ref [zeros_ref] /\ Obj.loc zeros_ref < length zeros_store /\
  Obj.deref (snd (Obj.extract_boxes init [zeros_ref] conf_thres_default zeros_store))
    zeros_ref = Obj.deref zeros_store zeros_ref /\
  Obj.deref (snd (Obj.extract_class_grids [zeros_ref] zeros_store)) zeros_ref =
    Obj.deref zeros_store zeros_ref.
Proof.
  assert (Hin : In zeros_ref [zeros_ref]) by (left; reflexivity).
  assert (Hl : Obj.loc zeros_ref < length zeros_store) by (cbn; lia).
  split; [exact Hin|]. split; [exact Hl|].
  exact (proj2 (proj2 (decoding_keeps_inputs init zeros_store [zeros_ref]
                         conf_thres_default)) zeros_ref Hin Hl).
Defined.

(** A slice assignment does write into the object it is applied to. *)
Example set_slice_last_writes :
  snd (Obj.set_slice_last 0 1 (Obj.mk_ref 0 [2]) (mk_ndarray [1] [5%Q]) [[1%Q; 2%Q]]) =
  [[5%Q; 2%Q]].
Proof. reflexivity. Qed.

(** ** [non_max_suppression] *)

Section SuppressionFacts.
Context {F : Type} `{Scalar F} `{Exponential F}.
Local Abbreviation fails := (@fails F _).


Lemma fails_raise {A : Type} e : fails (Obj.raise (A := A) e).
Proof. intros s. now exists e. Qed.

Lemma fails_bind_l {A B : Type} (m : Obj.M F A) (k : A -> Obj.M F B) :
  fails m -> fails (Obj.bind m k).
Proof.
  intros Hm s. destruct (Hm s) as [e He]. unfold Obj.bind.
  destruct (m s) as [[a|e'] s']; cbn [fst] in *; [discriminate | now exists e'].
Qed.

Lemma fails_bind_r {A B : Type} (m : Obj.M F A) (k : A -> Obj.M F B) :
  (forall a, fails (k a)) -> fails (Obj.bind m k).
Proof.
  intros Hk s. unfold Obj.bind.
  destruct (m s) as [[a|e] s']; [apply Hk | now exists e].
Qed.

Lemma fails_lift_bind {A B : Type} (x : res A) (k : A -> Obj.M F B) :
  (forall a, x = Ok a -> fails (k a)) -> fails (Obj.bind (Obj.lift x) k).
Proof.
  intros Hk s. unfold Obj.bind, Obj.lift.
  destruct x as [a|e]; [now apply Hk | now exists e].
Qed.

Lemma fails_suppress_one pred xc xi : fails (Obj.suppress_one pred xc xi).
Proof.
  unfold Obj.suppress_one, Obj.set_slice_axis1.
  repeat (apply fails_bind_r; intros ?).
  apply fails_raise.
Qed.

(** C7 (code defect).  [non_max_suppression] never returns: from every
    store and for every argument it ends in an exception ([sys.exit()]
    in the first round of its loop, or an [IndexError] before). *)
Theorem non_max_suppression_never_returns pred conf_thres iou_thres classes :
  fails (Obj.non_max_suppression pred conf_thres iou_thres classes).
Proof.
  unfold Obj.non_max_suppression.
  apply fails_bind_r; intros p.
  apply fails_lift_bind; intros p0 Hp0.
  apply fails_bind_r; intros _.
  apply fails_bind_r; intros o.
  apply fails_lift_bind; intros n Hn.
  apply fails_bind_l.
  unfold np.index0 in Hp0. unfold np.len in Hn.
  destruct (shape p) as [|d0 rest]; [discriminate|]. injection Hn as <-.
  destruct d0 as [|d0]; [discriminate|].
  cbn [seq Obj.mapM]. apply fails_bind_l, fails_suppress_one.
Qed.

End SuppressionFacts.


(** C4 (code defect).  Called with [conf_thres = 0.9], the routine keeps
    the candidate of objectness 0.5 (buffer 1 is the filtered and fused
    [x], buffer 2 its box) and drops the one of objectness 0.05: the
    comparison is against the constant 0.1, not against [conf_thres]. *)
Theorem non_max_suppression_threshold_constant :
  Obj.non_max_suppression two_candidates_ref (9 # 10)%Q (6 # 10)%Q None two_candidates =
  (Raise SystemExit,
   [[0; 0; 2; 2; 1 # 2; 1; 4; 4; 2; 2; 1 # 20; 1];
    [0; 0; 2; 2; 1 # 2; 1 # 2];
    [-1; -1; 1; 1]]%Q).
Proof. vm_compute. reflexivity. Qed.

(** ** Agreement of the two descriptions *)

Section RunFacts.
Context {F A B : Type}.

Lemma bind_ret (a : A) (k : A -> Obj.M F B) s : Obj.bind (Obj.ret a) k s = k a s.
Proof. reflexivity. Qed.

Lemma bind_lift (x : res A) (k : A -> Obj.M F B) s :
  Obj.bind (Obj.lift x) k s =
  match x with Ok a => k a s | Raise e => (Raise e, s) end.
Proof. unfold Obj.bind, Obj.lift. now destruct x. Qed.

Lemma bind_raise e (k : A -> Obj.M F B) s :
  Obj.bind (Obj.raise e) k s = (Raise e, s).
Proof. reflexivity. Qed.

Lemma bind_bind {C : Type} (m : Obj.M F A) (f : A -> Obj.M F B) (k : B -> Obj.M F C) s :
  Obj.bind (Obj.bind m f) k s = Obj.bind m (fun a => Obj.bind (f a) k) s.
Proof. unfold Obj.bind. destruct (m s) as [[a|e] s']; reflexivity. Qed.

End RunFacts.

Section RunFactsArr.
Context {F B : Type}.

Lemma bind_load r (k : ndarray F -> Obj.M F B) s :
  Obj.bind (Obj.load r) k s = k (Obj.deref s r) s.
Proof. reflexivity. Qed.

Lemma bind_new v (k : Obj.ref -> Obj.M F B) s :
  Obj.bind (Obj.new v) k s = k (Obj.mk_ref (length s) (shape v)) (s ++ [data v]).
Proof. reflexivity. Qed.

Lemma bind_assign r v (k : unit -> Obj.M F B) s :
  Obj.bind (Obj.assign r v) k s = k tt (Obj.update (Obj.loc r) (data v) s).
Proof. reflexivity. Qed.

End RunFactsArr.

Section StoreFacts.
Context {F : Type}.

Lemma deref_new (s : Obj.store F) sh (d : list F) :
  Obj.deref (s ++ [d]) (Obj.mk_ref (length s) sh) = mk_ndarray sh d.
Proof. unfold Obj.deref; cbn [Obj.loc Obj.shp]. now rewrite nth_middle. Qed.

Lemma update_last (s : Obj.store F) (d d' : list F) :
  Obj.update (length s) d' (s ++ [d]) = s ++ [d'].
Proof. induction s as [|b s IH]; simpl; [reflexivity | now rewrite IH]. Qed.

Lemma deref_app (s s' : Obj.store F) r :
  Obj.loc r < length s -> Obj.deref (s ++ s') r = Obj.deref s r.
Proof. intros Hr. unfold Obj.deref. now rewrite app_nth1. Qed.

Lemma deref_update_eq (s : Obj.store F) r (v : ndarray F) :
  Obj.loc r < length s -> shape v = Obj.shp r ->
  Obj.deref (Obj.update (Obj.loc r) (data v) s) r = v.
Proof.
  intros Hr Es. unfold Obj.deref. rewrite nth_update_eq by assumption.
  rewrite <- Es. now destruct v.
Qed.

Lemma deref_update_neq (s : Obj.store F) l (d : list F) r :
  l <> Obj.loc r -> Obj.deref (Obj.update l d s) r = Obj.deref s r.
Proof. intros Hr. unfold Obj.deref. now rewrite nth_update_neq. Qed.

End StoreFacts.

Section ShapeFacts.
Context {A : Type} `{Default A}.

Lemma set_index_axis1_shape j (a v a' : ndarray A) :
  np.set_index_axis1 j a v = Ok a' -> shape a' = shape a.
Proof.
  unfold np.set_index_axis1. destruct (shape a) as [|d0 [|d1 rest]]; try discriminate.
  destruct (j <? d1); [|discriminate].
  destruct (np.broadcast_to _ v); [|discriminate]. now intros [= <-].
Qed.

Lemma set_slice_last_shape lo hi (a v a' : ndarray A) :
  np.set_slice_last lo hi a v = Ok a' -> shape a' = shape a.
Proof.
  unfold np.set_slice_last. destruct (shape a) as [|d0 rest]; try discriminate.
  destruct (np.broadcast_to _ v); [|discriminate]. now intros [= <-].
Qed.

End ShapeFacts.

Section Agreement.
Context {F : Type} `{Scalar F} `{Exponential F}.
Local Abbreviation runs := (@runs F _ _).


Lemma runs_bind {A B V W : Type} (m : Obj.M F A) (k : A -> Obj.M F B) s
    (x : res V) (kx : V -> res W) Q Q' :
  runs m s x Q ->
  (forall a s' v, Q a s' v -> runs (k a) s' (kx v) Q') ->
  runs (Obj.bind m k) s (bind x kx) Q'.
Proof.
  unfold runs, Obj.bind. intros Hm Hk. destruct x as [v|e]; cbn [bind].
  - destruct Hm as (a & s' & Em & HQ). rewrite Em. now apply Hk.
  - destruct Hm as (s' & Em). rewrite Em. now exists s'.
Qed.

Lemma runs_lift {A : Type} (x : res A) s :
  runs (Obj.lift x) s x (fun a s' v => a = v /\ s' = s).
Proof. unfold runs, Obj.lift. destruct x as [a|e]; eauto. Qed.

Lemma runs_ret {A V : Type} (a : A) s (v : V) (Q : A -> Obj.store F -> V -> Prop) :
  Q a s v -> runs (Obj.ret a) s (Ok v) Q.
Proof. intros HQ. now exists a, s. Qed.

Lemma runs_weaken {A V : Type} (m : Obj.M F A) s (x : res V) (Q Q' : _ -> _ -> _ -> Prop) :
  runs m s x Q -> (forall a s' v, Q a s' v -> Q' a s' v) -> runs m s x Q'.
Proof.
  unfold runs. destruct x as [v|e]; [|auto].
  intros (a & s' & E & HQ) HQQ. eauto.
Qed.

Lemma runs_new {A V : Type} v (k : Obj.ref -> Obj.M F A) s (x : res V) Q :
  runs (k (Obj.mk_ref (length s) (shape v))) (s ++ [data v]) x Q ->
  runs (Obj.bind (Obj.new v) k) s x Q.
Proof. exact (fun h => h). Qed.

Lemma runs_load {A V : Type} r (k : ndarray F -> Obj.M F A) s (x : res V) Q :
  runs (k (Obj.deref s r)) s x Q -> runs (Obj.bind (Obj.load r) k) s x Q.
Proof. exact (fun h => h). Qed.

Lemma runs_assign {A V : Type} r v (k : unit -> Obj.M F A) s (x : res V) Q :
  runs (k tt) (Obj.update (Obj.loc r) (data v) s) x Q ->
  runs (Obj.bind (Obj.assign r v) k) s x Q.
Proof. exact (fun h => h). Qed.

(** One column assignment of [xywh2xyxy] on the new object [y]. *)
Lemma set_column_runs (s : Obj.store F) (y : ndarray F) j v :
  runs (Obj.set_index_axis1 j (Obj.mk_ref (length s) (shape y)) v) (s ++ [data y])
    (np.set_index_axis1 j y v)
    (fun _ s' y' => s' = s ++ [data y'] /\ shape y' = shape y).
Proof.
  unfold runs, Obj.set_index_axis1.
  rewrite bind_load, deref_new.
  replace (mk_ndarray (shape y) (data y)) with y by now destruct y.
  rewrite bind_lift.
  destruct (np.set_index_axis1 j y v) as [y'|e] eqn:Ey; [|eauto].
  exists tt, (s ++ [data y']). split.
  - unfold Obj.assign; cbn [Obj.loc]. now rewrite update_last.
  - split; [reflexivity | eapply set_index_axis1_shape, Ey].
Qed.

Lemma xywh2xyxy_runs (x : ndarray F) (s : Obj.store F) :
  runs (Obj.xywh2xyxy x) s (xywh2xyxy x)
    (fun r s' v => r = Obj.mk_ref (length s) (shape x) /\ s' = s ++ [data v] /\
                   shape v = shape x).
Proof.
  unfold xywh2xyxy, Obj.xywh2xyxy.
  assert (G : forall y : ndarray F, shape y = shape x ->
    runs
      (Obj.bind (Obj.new y) (fun y =>
         Obj.bind (Obj.lift (np.index_axis1 0 x)) (fun x0 =>
         Obj.bind (Obj.lift (np.index_axis1 2 x)) (fun x2 =>
         Obj.bind (Obj.lift (np.subtract x0 (np.div_s x2 (of_int 2)))) (fun v =>
         Obj.bind (Obj.set_index_axis1 0 y v) (fun _ =>
         Obj.bind (Obj.lift (np.index_axis1 1 x)) (fun x1 =>
         Obj.bind (Obj.lift (np.index_axis1 3 x)) (fun x3 =>
         Obj.bind (Obj.lift (np.subtract x1 (np.div_s x3 (of_int 2)))) (fun v =>
         Obj.bind (Obj.set_index_axis1 1 y v) (fun _ =>
         Obj.bind (Obj.lift (np.index_axis1 0 x)) (fun x0 =>
         Obj.bind (Obj.lift (np.index_axis1 2 x)) (fun x2 =>
         Obj.bind (Obj.lift (np.add x0 (np.div_s x2 (of_int 2)))) (fun v =>
         Obj.bind (Obj.set_index_axis1 2 y v) (fun _ =>
         Obj.bind (Obj.lift (np.index_axis1 1 x)) (fun x1 =>
         Obj.bind (Obj.lift (np.index_axis1 3 x)) (fun x3 =>
         Obj.bind (Obj.lift (np.add x1 (np.div_s x3 (of_int 2)))) (fun v =>
         Obj.bind (Obj.set_index_axis1 3 y v) (fun _ => Obj.ret y))))))))))))))))))
      s
      (x0 <- np.index_axis1 0 x ;; x2 <- np.index_axis1 2 x ;;
       v <- np.subtract x0 (np.div_s x2 (of_int 2)) ;;
       y <- np.set_index_axis1 0 y v ;;
       x1 <- np.index_axis1 1 x ;; x3 <- np.index_axis1 3 x ;;
       v <- np.subtract x1 (np.div_s x3 (of_int 2)) ;;
       y <- np.set_index_axis1 1 y v ;;
       x0 <- np.index_axis1 0 x ;; x2 <- np.index_axis1 2 x ;;
       v <- np.add x0 (np.div_s x2 (of_int 2)) ;;
       y <- np.set_index_axis1 2 y v ;;
       x1 <- np.index_axis1 1 x ;; x3 <- np.index_axis1 3 x ;;
       v <- np.add x1 (np.div_s x3 (of_int 2)) ;;
       y <- np.set_index_axis1 3 y v ;;
       Ok y)
      (fun r s' v => r = Obj.mk_ref (length s) (shape x) /\ s' = s ++ [data v] /\
                     shape v = shape x)).
  { intros y Sy. apply runs_new.
    do 4 (
      eapply runs_bind; [apply runs_lift|]; intros ? ? ? [-> ->];
      eapply runs_bind; [apply runs_lift|]; intros ? ? ? [-> ->];
      eapply runs_bind; [apply runs_lift|]; intros ? ? ? [-> ->];
      eapply runs_bind; [apply set_column_runs|];
      intros _ ? y' [-> Sy']; rewrite <- Sy' in *; clear Sy'; clear y; rename y' into y).
    apply runs_ret. now rewrite Sy. }
  apply (G (np.zeros_like x)). reflexivity.
Qed.

Lemma set_slice_last_runs lo hi r v (s : Obj.store F) :
  Obj.loc r < length s ->
  runs (Obj.set_slice_last lo hi r v) s (np.set_slice_last lo hi (Obj.deref s r) v)
    (fun _ s' a' => s' = Obj.update (Obj.loc r) (data a') s /\ shape a' = Obj.shp r).
Proof.
  intros Hr. unfold runs, Obj.set_slice_last. rewrite bind_load, bind_lift.
  destruct (np.set_slice_last lo hi (Obj.deref s r) v) as [a'|e] eqn:Ea; [|eauto].
  exists tt, (Obj.update (Obj.loc r) (data a') s). split; [reflexivity|].
  split; [reflexivity|]. apply set_slice_last_shape in Ea. exact Ea.
Qed.

Lemma reshape_runs r sh (a : ndarray F) (s : Obj.store F) :
  shape a = Obj.shp r ->
  runs (Obj.reshape r sh) s (np.reshape a sh)
    (fun r' s' z => r' = Obj.mk_ref (Obj.loc r) sh /\ s' = s /\ z = mk_ndarray sh (data a)).
Proof.
  intros Ea. unfold runs, Obj.reshape, np.reshape. rewrite Ea.
  destruct (size (Obj.shp r) =? size sh).
  - eexists _, _. split; [reflexivity|]. auto.
  - eexists. reflexivity.
Qed.

Lemma decode_runs r g st anc (s : Obj.store F) :
  Obj.loc r < length s ->
  runs (Obj.decode (r, g, st, anc)) s (decode (Obj.deref s r, g, st, anc))
    (fun r' s' z => r' = Obj.mk_ref (Obj.loc r) (shape z) /\
                    s' = Obj.update (Obj.loc r) (data z) s).
Proof.
  intros Hr. unfold Obj.decode, decode.
  change (shape (Obj.deref s r)) with (Obj.shp r).
  eapply runs_bind; [apply runs_lift|]. intros [w h] ? ? [<- ->].
  apply runs_load.
  eapply runs_bind; [apply runs_lift|]. intros ? ? ? [-> ->].
  eapply runs_bind; [apply runs_lift|]. intros ? ? ? [-> ->].
  eapply runs_bind; [now apply set_slice_last_runs|]. intros _ s1 a1 [-> S1].
  apply runs_load. rewrite deref_update_eq by assumption.
  eapply runs_bind; [apply runs_lift|]. intros ? ? ? [-> ->].
  eapply runs_bind; [apply runs_lift|]. intros ? ? ? [-> ->].
  assert (Hr1 : Obj.loc r < length (Obj.update (Obj.loc r) (data a1) s))
    by now rewrite length_update.
  eapply runs_bind.
  { match goal with |- runs (Obj.set_slice_last _ _ _ ?u) _ _ _ =>
      pose proof (@set_slice_last_runs 2 4 r u _ Hr1) as K end.
    rewrite deref_update_eq in K by assumption. exact K. }
  intros _ s2 a2 [-> S2]. rewrite update_update.
  eapply runs_weaken; [apply (reshape_runs r _ a2 _ S2)|].
  intros r' s' z (-> & -> & ->). cbn [shape data]. auto.
Qed.

Lemma activate_runs out (s : Obj.store F) :
  runs (Obj.activate out) s (activate (Obj.deref s out))
    (fun rg s' vg => snd rg = snd vg /\
                     fst rg = Obj.mk_ref (length s) (shape (fst vg)) /\
                     s' = s ++ [data (fst vg)]).
Proof.
  unfold Obj.activate, activate. apply runs_load, runs_new. cbn [Obj.shp].
  eapply runs_bind; [apply runs_lift|]. intros [w h] ? ? [<- ->].
  eapply runs_bind; [apply runs_lift|]. intros ? ? ? [-> ->].
  apply runs_ret. cbn [fst snd]. auto.
Qed.


Lemma activate_loop_runs output (s : Obj.store F) :
  Forall (fun r => Obj.loc r < length s) output ->
  runs (Obj.mapM Obj.activate output) s (mapM activate (map (Obj.deref s) output))
    (fun sgr s' sgv => sgr = activated (length s) sgv /\
                       s' = s ++ map (fun vg => data (fst vg)) sgv).
Proof.
  intros Ho. revert s Ho. induction output as [|out output IH]; intros s Ho.
  - apply runs_ret. split; [reflexivity | now rewrite app_nil_r].
  - inversion Ho as [|? ? Hout Hrest]; subst. cbn [map mapM Obj.mapM].
    eapply runs_bind; [apply activate_runs|]. intros [r g] s1 [v g'] (Eg & Er & ->).
    cbn [fst snd] in Eg, Er. subst g' r.
    assert (Em : map (Obj.deref s) output = map (Obj.deref (s ++ [data v])) output).
    { apply map_ext_in. intros r Hr. symmetry. apply deref_app.
      rewrite Forall_forall in Hrest. now apply Hrest. }
    rewrite Em.
    eapply runs_bind.
    { apply IH. eapply Forall_impl; [|exact Hrest].
      intros r Hr. cbv beta in Hr. rewrite length_app. simpl. lia. }
    intros sgr s2 sgv (Ea & ->). apply runs_ret. split.
    + cbn [activated fst snd]. f_equal. rewrite Ea, length_app. cbn [length].
      now rewrite Nat.add_1_r.
    + cbn [map fst]. now rewrite <- app_assoc.
Qed.


Lemma decode_loop_runs items (s : Obj.store F) :
  NoDup (map item_loc items) -> Forall (fun it => item_loc it < length s) items ->
  runs (Obj.mapM Obj.decode items) s (mapM decode (map (item_val s) items))
    (fun rs s' zs => length s' = length s /\
                     map (Obj.deref s') rs = zs /\
                     forall l, ~ In l (map item_loc items) -> nth l s' [] = nth l s []).
Proof.
  revert s. induction items as [|[[[r g] st] anc] items IH]; intros s Hnd Hl.
  - apply runs_ret. auto.
  - cbn [map mapM Obj.mapM item_val]. cbn [map item_loc fst] in Hnd.
    inversion Hnd as [|? ? Hnotin0 Hnd']; subst.
    assert (Hnotin : ~ In (Obj.loc r) (map item_loc items)) by exact Hnotin0.
    clear Hnotin0.
    inversion Hl as [|? ? Hr Hl']; subst. unfold item_loc in Hr; cbn [fst] in Hr.
    eapply runs_bind; [now apply decode_runs|]. intros r' s1 z [-> ->].
    assert (Em : map (item_val s) items =
                 map (item_val (Obj.update (Obj.loc r) (data z) s)) items).
    { apply map_ext_in. intros [[[r2 g2] st2] anc2] Hin. cbn [item_val].
      rewrite deref_update_neq; [reflexivity|].
      intros E. apply Hnotin. apply in_map_iff.
      exists (r2, g2, st2, anc2). split; [now unfold item_loc; cbn [fst] | assumption]. }
    rewrite Em.
    eapply runs_bind.
    { apply IH; [assumption|]. eapply Forall_impl; [|exact Hl'].
      intros it Hit. cbv beta in Hit. now rewrite length_update. }
    intros rs s2 zs (L2 & E2 & Fr2). apply runs_ret.
    split; [now rewrite L2, length_update|]. split.
    + cbn [map]. f_equal; [|assumption].
      unfold Obj.deref; cbn [Obj.loc Obj.shp].
      rewrite (Fr2 _ Hnotin), nth_update_eq by assumption. now destruct z.
    + intros l Hnl. cbn [map In] in Hnl. unfold item_loc at 1 in Hnl; cbn [fst] in Hnl.
      rewrite Fr2 by tauto. apply nth_update_neq. tauto.
Qed.

Lemma load_loop rs (s : Obj.store F) :
  Obj.mapM Obj.load rs s = (Ok (map (Obj.deref s) rs), s).
Proof.
  induction rs as [|r rs IH]; [reflexivity|].
  cbn [Obj.mapM map]. rewrite bind_load. unfold Obj.bind at 1. now rewrite IH.
Qed.

Lemma runs_load_loop {A V : Type} rs (k : list (ndarray F) -> Obj.M F A) s
    (x : res V) Q :
  runs (k (map (Obj.deref s) rs)) s x Q ->
  runs (Obj.bind (Obj.mapM Obj.load rs) k) s x Q.
Proof. unfold runs, Obj.bind. now rewrite load_loop. Qed.

Lemma activated_items sgv ss ancs (pre : Obj.store F) :
  let s1 := pre ++ map (fun vg => data (fst vg)) sgv in
  let sgr := activated (length pre) sgv in
  let items := zip4 (map fst sgr) (map snd sgr) ss ancs in
  map (item_val s1) items = zip4 (map fst sgv) (map snd sgv) ss ancs /\
  NoDup (map item_loc items) /\
  Forall (fun it => length pre <= item_loc it < length s1) items.
Proof.
  revert ss ancs pre. induction sgv as [|[v g] sgv IH]; intros ss ancs pre; cbv zeta.
  - cbn. repeat split; constructor.
  - cbn [activated map fst snd]. unfold zip4 in *.
    destruct ss as [|st ss]; [cbn; repeat split; constructor|].
    destruct ancs as [|anc ancs]; [cbn; repeat split; constructor|].
    cbn [combine map item_val].
    specialize (IH ss ancs (pre ++ [data v])). cbv zeta in IH.
    rewrite <- app_assoc, length_app in IH. cbn [app length] in IH.
    rewrite Nat.add_1_r in IH. destruct IH as (E & Hnd & Hb).
    split; [|split].
    + f_equal; [|exact E]. unfold Obj.deref; cbn [Obj.loc Obj.shp].
      rewrite nth_middle. now destruct v.
    + cbn [map]. constructor; [|exact Hnd]. unfold item_loc at 1; cbn [fst Obj.loc].
      intros Hin. apply in_map_iff in Hin as (it & Eit & Hit).
      rewrite Forall_forall in Hb. specialize (Hb it Hit). lia.
    + constructor.
      * unfold item_loc; cbn [fst Obj.loc]. rewrite length_app. cbn [length]. lia.
      * eapply Forall_impl; [|exact Hb]. intros it Hit. cbv beta in Hit. lia.
Qed.

Lemma bind_assoc {A B C : Type} (m : res A) (f : A -> res B) (g : B -> res C) :
  bind (bind m f) g = bind m (fun a => bind (f a) g).
Proof. now destruct m. Qed.

(** [extract_boxes] on array objects returns an object whose value is
    the result of [extract_boxes] on the values of the inputs, and raises
    when that raises. *)
Theorem extract_boxes_runs (self : Processor F) output conf_thres (s : Obj.store F) :
  Forall (fun r => Obj.loc r < length s) output ->
  runs (Obj.extract_boxes self output conf_thres) s
    (extract_boxes self (map (Obj.deref s) output) conf_thres)
    (fun r s' v => Obj.deref s' r = v).
Proof.
  intros Ho. unfold Obj.extract_boxes, extract_boxes, predictions.
  rewrite !bind_assoc.
  eapply runs_bind; [now apply activate_loop_runs|]. intros sgr s1 sgv [-> ->].
  cbv zeta. rewrite !bind_assoc.
  destruct (activated_items sgv (strides self) (np.iter0 (anchor_grid self)) s)
    as (Ei & Hnd & Hb).
  rewrite <- Ei.
  eapply runs_bind.
  { apply decode_loop_runs; [exact Hnd|].
    eapply Forall_impl; [|exact Hb]. intros it Hit. cbv beta in Hit. lia. }
  intros rs s2 zs (_ & Ez & _).
  apply runs_load_loop. rewrite Ez.
  eapply runs_bind; [apply runs_lift|]. intros ? ? pred [-> ->].
  apply runs_new, runs_load. rewrite deref_new.
  replace (mk_ndarray (shape pred) (data pred)) with pred by now destruct pred.
  eapply runs_bind; [apply runs_lift|]. intros ? ? o [-> ->].
  eapply runs_bind; [apply runs_lift|]. intros ? ? p [-> ->].
  apply runs_new, runs_load. rewrite deref_new.
  replace (mk_ndarray (shape p) (data p)) with p by now destruct p.
  eapply runs_bind; [apply runs_lift|]. intros ? ? b [-> ->].
  eapply runs_weaken; [apply xywh2xyxy_runs|].
  intros r s' v (-> & -> & Sv). rewrite deref_new, <- Sv. now destruct v.
Qed.

Lemma class_grid_runs out (s : Obj.store F) :
  runs (Obj.class_grid out) s (class_grid (Obj.deref s out))
    (fun r s' g => Obj.deref s' r = g /\ Obj.loc r < length s' /\
                   exists ext, s' = s ++ ext).
Proof.
  unfold Obj.class_grid, class_grid. apply runs_load.
  eapply runs_bind; [apply runs_lift|]. intros ? ? o [-> ->].
  apply runs_new.
  eapply runs_bind; [apply runs_lift|]. intros ? ? c [-> ->].
  apply runs_new, runs_load, runs_load.
  rewrite deref_new.
  rewrite (deref_app _ [data (sigmoid_v c)])
    by (cbn [Obj.loc]; rewrite length_app; cbn [length]; lia).
  rewrite deref_new.
  replace (mk_ndarray (shape (sigmoid_v c)) (data (sigmoid_v c))) with (sigmoid_v c)
    by now destruct (sigmoid_v c).
  replace (mk_ndarray (shape (sigmoid_v o)) (data (sigmoid_v o))) with (sigmoid_v o)
    by now destruct (sigmoid_v o).
  unfold runs. destruct (np.multiply (sigmoid_v c) (sigmoid_v o)) as [g|e] eqn:Eg.
  - eexists _, _. split; [rewrite bind_lift; reflexivity|].
    split; [|split].
    + rewrite deref_new. now destruct g.
    + cbn [Obj.loc]. rewrite !length_app. cbn [length]. lia.
    + eexists. rewrite <- !app_assoc. reflexivity.
  - eexists. rewrite bind_lift. reflexivity.
Qed.

(** [extract_class_grids] on array objects returns objects whose values
    are the results of [extract_class_grids] on the values of the
    inputs. *)
Theorem extract_class_grids_runs output (s : Obj.store F) :
  Forall (fun r => Obj.loc r < length s) output ->
  runs (Obj.extract_class_grids output) s
    (extract_class_grids (map (Obj.deref s) output))
    (fun rs s' gs => map (Obj.deref s') rs = gs /\
                     Forall (fun r => Obj.loc r < length s') rs /\
                     exists ext, s' = s ++ ext).
Proof.
  unfold Obj.extract_class_grids, extract_class_grids.
  intros Ho. revert s Ho. induction output as [|out output IH]; intros s Ho.
  - apply runs_ret. split; [reflexivity|]. split; [constructor|].
    exists []. now rewrite app_nil_r.
  - inversion Ho as [|? ? Hout Hrest]; subst. cbn [map mapM Obj.mapM].
    eapply runs_bind; [apply class_grid_runs|]. intros r s1 g (Eg & Lr & ext & ->).
    assert (Em : map (Obj.deref s) output = map (Obj.deref (s ++ ext)) output).
    { apply map_ext_in. intros r' Hr'. symmetry. apply deref_app.
      rewrite Forall_forall in Hrest. now apply Hrest. }
    rewrite Em.
    eapply runs_bind.
    { apply IH. eapply Forall_impl; [|exact Hrest].
      intros r' Hr'. cbv beta in Hr'. rewrite length_app. lia. }
    intros rs s2 gs (Egs & Lrs & ext2 & ->). apply runs_ret.
    split; [|split].
    + cbn [map]. f_equal; [|assumption]. now rewrite deref_app.
    + constructor; [|assumption]. rewrite length_app. lia.
    + exists (ext ++ ext2). now rewrite app_assoc.
Qed.

End Agreement.

(** ** The decoder and the class scores at a concrete input *)

Lemma extract_boxes_decodes_cells_witness :
  Forall shaped [zeros_1x1] /\ nth_error [zeros_1x1] 0 = Some zeros_1x1 /\
  0 < 3 /\ 0 < gsize zeros_1x1 /\
  exists pred,
    predictions init [zeros_1x1] = Ok pred /\
    (let N := offset [zeros_1x1] (Nat.min (length [zeros_1x1]) 3) in
     extract_boxes init [zeros_1x1] conf_thres_default =
     Ok (mk_ndarray [length (kept_rows conf_thres_default N pred); 4]
           (flat_map xyxy (kept_rows conf_thres_default N pred)))) /\
    let row := offset [zeros_1x1] 0 + cell (gsize zeros_1x1) 0 0 0 in
    let raw j := get zeros_1x1 [0; 0; 0; 0; j] in
    let stride := nth 0 (strides init) dflt in
    let anchor_w := get (anchors init) [0; 0; 0] in
    let anchor_h := get (anchors init) [0; 0; 1] in
    let sq x := fmul x x in
    get pred [0; row; 0] =
      fmul (fadd (fsub (fmul (sigmoid (raw 0)) (lit 2%Q)) (lit (1 # 2)%Q))
                 (of_int (Z.of_nat 0))) stride /\
    get pred [0; row; 1] =
      fmul (fadd (fsub (fmul (sigmoid (raw 1)) (lit 2%Q)) (lit (1 # 2)%Q))
                 (of_int (Z.of_nat 0))) stride /\
    get pred [0; row; 2] = fmul (sq (fmul (sigmoid (raw 2)) (of_int 2))) anchor_w /\
    get pred [0; row; 3] = fmul (sq (fmul (sigmoid (raw 3)) (of_int 2))) anchor_h.
Proof.
  assert (H3 : 0 < 3) by lia.
  assert (Hg : 0 < gsize zeros_1x1) by (unfold gsize; simpl; lia).
  split; [exact zeros_1x1_shaped|]. split; [reflexivity|].
  split; [exact H3|]. split; [exact Hg|].
  exact (@extract_boxes_decodes_cells R _ _ [zeros_1x1] conf_thres_default 0 zeros_1x1
           0 0 0 zeros_1x1_shaped eq_refl H3 H3 Hg Hg).
Defined.

Lemma zeros_1x1_classes :
  Forall (fun out : ndarray R => wf out /\ 5 <= last (shape out) 0) [zeros_1x1].
Proof.
  constructor; [|constructor]. split; [reflexivity | simpl; lia].
Qed.

Lemma class_scores_fused_witness :
  Forall (fun out : ndarray R => wf out /\ 5 <= last (shape out) 0) [zeros_1x1] /\
  exists grids,
    extract_class_grids [zeros_1x1] = Ok grids /\
    Forall2 (fun out g =>
               let cells := removelast (shape out) in
               let classes := last (shape out) 0 - 5 in
               shape g = cells ++ [classes] /\
               forall idx c, inb idx cells -> c < classes ->
                 get g (idx ++ [c]) =
                 fmul (sigmoid (get out (idx ++ [5 + c])))
                      (sigmoid (get out (idx ++ [4]))))
      [zeros_1x1] grids.
Proof.
  split; [exact zeros_1x1_classes|].
  exact (@class_scores_fused R _ _ [zeros_1x1] zeros_1x1_classes).
Defined.

(** * Further properties of the post-processing *)

(** ** [make_grid] for every width and height *)

(** X1.  For every width [nx] and height [ny], the cell in row [gy] and
    column [gx] of [make_grid nx ny] holds the pair numbered [gy * nx + gx]
    of the mesh in flat order: [((gy * nx + gx) mod ny, (gy * nx + gx) / ny)],
    which is [(gx, gy)] only when [nx = ny]. *)
Theorem make_grid_cells_any_size nx ny gy gx :
  gy < ny -> gx < nx ->
  exists g, make_grid nx ny = Ok g /\
    shape g = [1; 1; ny; nx; 2] /\
    get g [0; 0; gy; gx; 0] = Z.of_nat ((gy * nx + gx) mod ny) /\
    get g [0; 0; gy; gx; 1] = Z.of_nat ((gy * nx + gx) / ny).
Proof.
  intros Hy Hx. eexists. split; [apply make_grid_ok|]. split; [reflexivity|].
  exact (make_grid_cell (make_grid_ok nx ny) Hy Hx).
Qed.

Lemma make_grid_cells_any_size_witness :
  exists g, make_grid 2 3 = Ok g /\
    shape g = [1; 1; 3; 2; 2] /\
    get g [0; 0; 1; 0; 0] = 2%Z /\
    get g [0; 0; 1; 0; 1] = 0%Z.
Proof.
  assert (H1 : 1 < 3) by lia. assert (H0 : 0 < 2) by lia.
  exact (make_grid_cells_any_size H1 H0).
Defined.

(** ** [xywh2xyxy]: which arrays it accepts *)

Section ShapeSteps.
Context {A : Type} `{Default A}.

Lemma index_axis1_shape j (a : ndarray A) d0 d1 rest :
  shape a = d0 :: d1 :: rest -> j < d1 ->
  exists r, np.index_axis1 j a = Ok r /\ shape r = d0 :: rest.
Proof.
  intros Es Hj. unfold np.index_axis1. rewrite Es.
  destruct (Nat.ltb_spec j d1); [|lia]. eexists; split; reflexivity.
Qed.

Lemma index_axis1_out j (a : ndarray A) d0 d1 rest :
  shape a = d0 :: d1 :: rest -> d1 <= j -> np.index_axis1 j a = Raise IndexError.
Proof.
  intros Es Hj. unfold np.index_axis1. rewrite Es.
  destruct (Nat.ltb_spec j d1); [lia | reflexivity].
Qed.

Lemma broadcast_to_shape s (v : ndarray A) :
  shape v = s -> exists v', np.broadcast_to s v = Ok v' /\ shape v' = s.
Proof.
  intros <-. unfold np.broadcast_to.
  rewrite broadcast_shapes_same_rank, bshape_refl, shape_eqb_refl by reflexivity.
  eexists; split; reflexivity.
Qed.

Lemma set_index_axis1_ok j (a v : ndarray A) d0 d1 rest :
  shape a = d0 :: d1 :: rest -> j < d1 -> shape v = d0 :: rest ->
  exists a', np.set_index_axis1 j a v = Ok a' /\ shape a' = shape a.
Proof.
  intros Es Hj Ev. unfold np.set_index_axis1. rewrite Es.
  destruct (Nat.ltb_spec j d1); [|lia].
  destruct (broadcast_to_shape v Ev) as (v' & -> & _). cbn [bind].
  eexists; split; reflexivity.
Qed.

End ShapeSteps.

Section CornerDomain.
Context {F : Type} `{Scalar F}.

Lemma broadcast2_shape (f : F -> F -> F) (a b : ndarray F) :
  shape a = shape b ->
  exists c, np.broadcast2 f a b = Ok c /\ shape c = shape a.
Proof.
  intros Es. unfold np.broadcast2.
  rewrite broadcast_shapes_same_rank, <- Es, bshape_refl by now rewrite Es.
  eexists; split; reflexivity.
Qed.

(** One column of [y] is computed and written: the step succeeds on shapes
    alone. *)
Lemma corner_step (f : F -> F -> F) i j k (x y : ndarray F) d0 d1 rest
    (rest_of : ndarray F -> res (ndarray F)) :
  shape x = d0 :: d1 :: rest -> shape y = d0 :: d1 :: rest ->
  i < d1 -> j < d1 -> k < d1 ->
  exists y',
    (xi <- np.index_axis1 i x ;; xj <- np.index_axis1 j x ;;
     v <- np.broadcast2 f xi (np.div_s xj (of_int 2)) ;;
     y <- np.set_index_axis1 k y v ;; rest_of y) = rest_of y' /\
    shape y' = d0 :: d1 :: rest.
Proof.
  intros Ex Ey Hi Hj Hk.
  destruct (index_axis1_shape x Ex Hi) as (xi & -> & Si).
  destruct (index_axis1_shape x Ex Hj) as (xj & -> & Sj). cbn [bind].
  destruct (@broadcast2_shape f xi (np.div_s xj (of_int 2))) as (v & -> & Sv).
  { cbn [np.div_s np.elementwise shape]. congruence. }
  cbn [bind].
  destruct (@set_index_axis1_ok _ _ k y v d0 d1 rest Ey Hk) as (y' & -> & Sy);
    [congruence|].
  cbn [bind]. exists y'. split; [reflexivity | congruence].
Qed.

Lemma xywh2xyxy_domain (x : ndarray F) :
  match shape x with
  | d0 :: d1 :: rest =>
      if 4 <=? d1
      then exists y, xywh2xyxy x = Ok y /\ shape y = shape x
      else xywh2xyxy x = Raise IndexError
  | _ => xywh2xyxy x = Raise IndexError
  end.
Proof.
  destruct (shape x) as [|d0 [|d1 rest]] eqn:Es.
  - unfold xywh2xyxy, np.index_axis1. now rewrite Es.
  - unfold xywh2xyxy, np.index_axis1. now rewrite Es.
  - destruct (Nat.leb_spec 4 d1) as [H4|H4].
    + unfold xywh2xyxy, np.subtract, np.add.
      assert (Sy : shape (np.zeros_like (F := F) x) = d0 :: d1 :: rest) by exact Es.
      revert Sy. generalize (np.zeros_like (F := F) x). intros y0 S0.
      destruct (@corner_step fsub 0 2 0 x y0 d0 d1 rest
                  (fun y => x1 <- np.index_axis1 1 x ;; x3 <- np.index_axis1 3 x ;;
                            v <- np.broadcast2 fsub x1 (np.div_s x3 (of_int 2)) ;;
                            y <- np.set_index_axis1 1 y v ;;
                            x0 <- np.index_axis1 0 x ;; x2 <- np.index_axis1 2 x ;;
                            v <- np.broadcast2 fadd x0 (np.div_s x2 (of_int 2)) ;;
                            y <- np.set_index_axis1 2 y v ;;
                            x1 <- np.index_axis1 1 x ;; x3 <- np.index_axis1 3 x ;;
                            v <- np.broadcast2 fadd x1 (np.div_s x3 (of_int 2)) ;;
                            y <- np.set_index_axis1 3 y v ;;
                            Ok y) Es S0) as (y1 & -> & S1); try lia.
      destruct (@corner_step fsub 1 3 1 x y1 d0 d1 rest
                  (fun y => x0 <- np.index_axis1 0 x ;; x2 <- np.index_axis1 2 x ;;
                            v <- np.broadcast2 fadd x0 (np.div_s x2 (of_int 2)) ;;
                            y <- np.set_index_axis1 2 y v ;;
                            x1 <- np.index_axis1 1 x ;; x3 <- np.index_axis1 3 x ;;
                            v <- np.broadcast2 fadd x1 (np.div_s x3 (of_int 2)) ;;
                            y <- np.set_index_axis1 3 y v ;;
                            Ok y) Es S1) as (y2 & -> & S2); try lia.
      destruct (@corner_step fadd 0 2 2 x y2 d0 d1 rest
                  (fun y => x1 <- np.index_axis1 1 x ;; x3 <- np.index_axis1 3 x ;;
                            v <- np.broadcast2 fadd x1 (np.div_s x3 (of_int 2)) ;;
                            y <- np.set_index_axis1 3 y v ;;
                            Ok y) Es S2) as (y3 & -> & S3); try lia.
      destruct (@corner_step fadd 1 3 3 x y3 d0 d1 rest (fun y => Ok y) Es S3)
        as (y4 & -> & S4); try lia.
      exists y4. split; [reflexivity | assumption].
    + unfold xywh2xyxy, np.subtract, np.add.
      assert (Sy : shape (np.zeros_like (F := F) x) = d0 :: d1 :: rest) by exact Es.
      revert Sy. generalize (np.zeros_like (F := F) x). intros y0 S0.
      destruct (Nat.le_gt_cases d1 0) as [H0|H0];
        [now rewrite (index_axis1_out x Es H0)|].
      destruct (index_axis1_shape x Es H0) as (x0 & E0 & Sx0). rewrite !E0. cbn [bind].
      destruct (Nat.le_gt_cases d1 2) as [H2|H2];
        [now rewrite (index_axis1_out x Es H2)|].
      assert (H3 : d1 <= 3) by lia.
      assert (H1 : 1 < d1) by lia.
      destruct (index_axis1_shape x Es H2) as (x2 & E2 & Sx2). rewrite !E2. cbn [bind].
      destruct (@broadcast2_shape fsub x0 (np.div_s x2 (of_int 2))) as (v & -> & Sv).
      { cbn [np.div_s np.elementwise shape]. congruence. }
      cbn [bind].
      destruct (@set_index_axis1_ok _ _ 0 y0 v d0 d1 rest S0 H0) as (y1 & -> & S1);
        [congruence|].
      cbn [bind].
      destruct (index_axis1_shape x Es H1) as (x1 & E1 & Sx1). rewrite !E1. cbn [bind].
      now rewrite (index_axis1_out x Es H3).
Qed.

(** X2.  [xywh2xyxy] needs an array of at least two axes whose second axis has
    at least four entries; on every other array it raises [IndexError].
    The result has the shape of the argument. *)
Theorem xywh2xyxy_needs_four_columns (x : ndarray F) :
  match shape x with
  | d0 :: d1 :: rest =>
      if 4 <=? d1
      then exists y, xywh2xyxy x = Ok y /\ shape y = shape x
      else xywh2xyxy x = Raise IndexError
  | _ => xywh2xyxy x = Raise IndexError
  end.
Proof. exact (xywh2xyxy_domain x). Qed.

End CornerDomain.

(** ** [xywh2xyxy]: what it writes *)

Section CornerCells.
Context {F : Type} `{Scalar F}.

(** Rows of more than four entries: the first four become the corners,
    the others stay the zeros of [np.zeros_like]. *)
Lemma xywh2xyxy_rows_wide K m (rows : list (list F)) :
  length rows = K -> Forall (fun r => length r = 4 + m) rows ->
  xywh2xyxy (mk_ndarray [K; 4 + m] (concat rows)) =
  Ok (mk_ndarray [K; 4 + m] (flat_map (fun r => xyxy r ++ repeat (lit 0%Q) m) rows)).
Proof.
  intros HK Hu. unfold xywh2xyxy, np.subtract, np.add.
  assert (Z0 : np.zeros_like (F := F) (mk_ndarray [K; 4 + m] (concat rows)) =
               mk_ndarray [K; 4 + m]
                 (concat (map (fun _ => repeat (lit 0%Q) (4 + m)) rows))).
  { unfold np.zeros_like; cbn [shape size]. f_equal.
    rewrite Nat.mul_1_r.
    now rewrite repeat_concat, <- HK, repeat_as_map. }
  rewrite Z0.
  rewrite !(index_axis1_rows (j := 0) HK Hu) by lia.
  rewrite !(index_axis1_rows (j := 1) HK Hu) by lia.
  rewrite !(index_axis1_rows (j := 2) HK Hu) by lia.
  rewrite !(index_axis1_rows (j := 3) HK Hu) by lia.
  cbn [bind].
  do 4 (rewrite column_op by exact HK; cbn [bind];
        rewrite set_index_axis1_rows;
        [ cbn [bind]; rewrite combine_map_both, map_map;
          cbn [fst snd repeat splice firstn skipn app Nat.add length]
        | now rewrite length_map
        | apply Forall_map, Forall_forall; intros; cbn [length repeat Nat.add];
          now rewrite ?repeat_length
        | lia
        | now rewrite length_map ]).
  rewrite flat_map_concat_map. reflexivity.
Qed.

Lemma get_matrix (x : ndarray F) K n i j :
  shape x = [K; n] -> i < K -> j < n ->
  get x [i; j] = nth j (nth i (chunks n K (data x)) []) dflt.
Proof.
  intros Es Hi Hj. unfold get. rewrite Es, nth_chunk_elem by assumption.
  f_equal. simpl. lia.
Qed.

(** X3.  [xywh2xyxy] on a matrix of four columns or more: in every row the
    first four entries of the result are the corners computed from the
    centre and the size in the first four entries of the argument, and all
    the other entries are zero; nothing but the box is carried over. *)
Theorem xywh2xyxy_corners_then_zeros (x : ndarray F) K m :
  shape x = [K; 4 + m] -> wf x ->
  exists y, xywh2xyxy x = Ok y /\ shape y = [K; 4 + m] /\ wf y /\
    forall i, i < K ->
      get y [i; 0] = fsub (get x [i; 0]) (fdiv (get x [i; 2]) (of_int 2)) /\
      get y [i; 1] = fsub (get x [i; 1]) (fdiv (get x [i; 3]) (of_int 2)) /\
      get y [i; 2] = fadd (get x [i; 0]) (fdiv (get x [i; 2]) (of_int 2)) /\
      get y [i; 3] = fadd (get x [i; 1]) (fdiv (get x [i; 3]) (of_int 2)) /\
      forall j, j < m -> get y [i; 4 + j] = lit 0%Q.
Proof.
  intros Es Wx.
  assert (Hl : length (data x) = K * (4 + m)).
  { rewrite Wx, Es. simpl. lia. }
  set (rows := chunks (4 + m) K (data x)).
  assert (HK : length rows = K) by apply length_chunks.
  assert (Hu : Forall (fun r => length r = 4 + m) rows) by now apply chunks_uniform.
  assert (Ex : x = mk_ndarray [K; 4 + m] (concat rows)).
  { destruct x as [s d]; cbn [shape data] in *. subst s. f_equal.
    symmetry. now apply concat_chunks. }
  assert (Ey : xywh2xyxy x =
               Ok (mk_ndarray [K; 4 + m]
                     (flat_map (fun r => xyxy r ++ repeat (lit 0%Q) m) rows))).
  { rewrite <- (xywh2xyxy_rows_wide HK Hu). f_equal. exact Ex. }
  eexists; split; [exact Ey|]. cbn [shape]. split; [reflexivity|].
  assert (Hg : forall r : list F, length (xyxy r ++ repeat (lit 0%Q) m) = 4 + m).
  { intros r. rewrite length_app, repeat_length. reflexivity. }
  split.
  { unfold wf; cbn [shape data size].
    rewrite length_flat_map_uniform with (n := 4 + m) by exact Hg. rewrite HK. lia. }
  intros i Hi.
  assert (G : forall j, j < 4 + m ->
            get (mk_ndarray [K; 4 + m]
                   (flat_map (fun r => xyxy r ++ repeat (lit 0%Q) m) rows)) [i; j] =
            nth j (xyxy (nth i rows []) ++ repeat (lit 0%Q) m) dflt).
  { intros j Hj. unfold get; cbn [shape data].
    replace (ravel [K; 4 + m] [i; j]) with (i * (4 + m) + j) by (simpl; lia).
    assert (Hi' : i < length rows) by lia.
    exact (@nth_flat_map_uniform _ _ (fun r => xyxy r ++ repeat (lit 0%Q) m)
             (4 + m) rows i j dflt Hg Hi' Hj []). }
  assert (X : forall j, j < 4 + m -> get x [i; j] = nth j (nth i rows []) dflt).
  { intros j Hj. now apply get_matrix. }
  rewrite !G by lia. rewrite !X by lia.
  repeat split; try reflexivity.
  intros j Hj. rewrite G by lia.
  rewrite app_nth2 by (cbn [xyxy length]; lia).
  cbn [xyxy length]. replace (4 + j - 4) with j by lia.
  rewrite (nth_indep _ dflt (lit 0%Q)) by now rewrite repeat_length.
  apply nth_repeat.
Qed.

End CornerCells.

Lemma xywh2xyxy_corners_then_zeros_witness :
  let x := mk_ndarray [1; 6] [4; 4; 2; 2; 1 # 2; 1]%Q in
  exists y, xywh2xyxy x = Ok y /\ shape y = [1; 6] /\ wf y /\
    forall i, i < 1 ->
      get y [i; 0] = fsub (get x [i; 0]) (fdiv (get x [i; 2]) (of_int 2)) /\
      get y [i; 1] = fsub (get x [i; 1]) (fdiv (get x [i; 3]) (of_int 2)) /\
      get y [i; 2] = fadd (get x [i; 0]) (fdiv (get x [i; 2]) (of_int 2)) /\
      get y [i; 3] = fadd (get x [i; 1]) (fdiv (get x [i; 3]) (of_int 2)) /\
      forall j, j < 2 -> get y [i; 4 + j] = lit 0%Q.
Proof.
  apply (@xywh2xyxy_corners_then_zeros Q _ (mk_ndarray [1; 6] [4; 4; 2; 2; 1 # 2; 1]%Q) 1 2).
  - reflexivity.
  - reflexivity.
Defined.

(** ** [extract_boxes]: errors and the shape of the result *)

Lemma bind_ok {A B : Type} (m : res A) (k : A -> res B) b :
  bind m k = Ok b -> exists a, m = Ok a /\ k a = Ok b.
Proof. destruct m as [a|e]; [|discriminate]. intros E. now exists a. Qed.

Lemma bind_raise_inv {A B : Type} (m : res A) (k : A -> res B) e :
  bind m k = Raise e -> m = Raise e \/ exists a, m = Ok a /\ k a = Raise e.
Proof. destruct m as [a|e']; cbn [bind]; intros E; [right; now exists a | left; congruence]. Qed.

Lemma mapM_ok {A B : Type} (f : A -> res B) l ys :
  mapM f l = Ok ys -> Forall2 (fun x y => f x = Ok y) l ys.
Proof.
  revert ys; induction l as [|x l IH]; intros ys E.
  - injection E as <-. constructor.
  - rewrite mapM_cons in E.
    apply bind_ok in E as (y & Ey & E). apply bind_ok in E as (ys' & Eys & E).
    injection E as <-. constructor; [assumption | now apply IH].
Qed.

Lemma mapM_ok_in {A B : Type} (f : A -> res B) l ys x :
  mapM f l = Ok ys -> In x l -> exists y, f x = Ok y.
Proof.
  intros E Hin. apply mapM_ok in E.
  induction E as [|x' y l ys Hx _ IH]; [contradiction|].
  destruct Hin as [<-|Hin]; [now exists y | now apply IH].
Qed.

Lemma mapM_raise {A B : Type} (f : A -> res B) l e :
  mapM f l = Raise e -> exists x, In x l /\ f x = Raise e.
Proof.
  induction l as [|x l IH]; intros E; [discriminate|].
  rewrite mapM_cons in E.
  apply bind_raise_inv in E as [E|(y & _ & E)]; [exists x; split; [now left | assumption]|].
  apply bind_raise_inv in E as [E|(ys & _ & E)]; [|discriminate].
  destruct (IH E) as (x' & Hin & Hx). exists x'. split; [now right | assumption].
Qed.

Lemma mapM_all_ok {A B : Type} (f : A -> res B) (g : A -> B) l :
  Forall (fun x => f x = Ok (g x)) l -> mapM f l = Ok (map g l).
Proof.
  induction 1 as [|x l Hx _ IH]; [reflexivity|].
  rewrite mapM_cons, Hx; cbn [bind]. now rewrite IH.
Qed.

Section ArrayErrors.
Context {A : Type} `{Default A}.

Lemma broadcast_to_raises s (v : ndarray A) e :
  np.broadcast_to s v = Raise e -> e = ValueError.
Proof.
  unfold np.broadcast_to. destruct (np.broadcast_shapes _ _); [|congruence].
  destruct (shape_eqb _ _); congruence.
Qed.

Lemma set_slice_last_raises lo hi (a v : ndarray A) e :
  shape a <> [] -> np.set_slice_last lo hi a v = Raise e -> e = ValueError.
Proof.
  intros Hs. rewrite set_slice_last_unfold by assumption. cbv zeta.
  intros E. apply bind_raise_inv in E as [E|(v' & _ & E)]; [|discriminate].
  now apply broadcast_to_raises in E.
Qed.

Lemma reshape_raises (a : ndarray A) s e : np.reshape a s = Raise e -> e = ValueError.
Proof. unfold np.reshape. destruct (_ =? _); congruence. Qed.

Lemma reshape_shape (a b : ndarray A) s : np.reshape a s = Ok b -> shape b = s.
Proof. unfold np.reshape. destruct (_ =? _); [|discriminate]. now intros [= <-]. Qed.

Lemma concatenate1_raises (l : list (ndarray A)) e :
  np.concatenate1 l = Raise e -> e = ValueError.
Proof.
  unfold np.concatenate1. destruct l as [|a l]; [congruence|].
  destruct (shape a) as [|d0 [|d1 rest]]; try congruence.
  destruct (forallb _ _); congruence.
Qed.

Lemma concatenate1_shape (a : ndarray A) l p d0 d1 rest :
  shape a = d0 :: d1 :: rest -> np.concatenate1 (a :: l) = Ok p ->
  exists n, shape p = d0 :: n :: rest.
Proof.
  intros Es. unfold np.concatenate1. rewrite Es.
  destruct (forallb _ _); [|discriminate]. intros [= <-]. eexists; reflexivity.
Qed.

End ArrayErrors.

Lemma broadcast2_raises {A B C : Type} `{Default A} `{Default B}
    (f : A -> B -> C) (a : ndarray A) (b : ndarray B) e :
  np.broadcast2 f a b = Raise e -> e = ValueError.
Proof. unfold np.broadcast2. destruct (np.broadcast_shapes _ _); congruence. Qed.

Lemma unpack5_ok s w h :
  unpack5 s = Ok (w, h) -> exists d0 d1 c, s = [d0; d1; w; h; c].
Proof.
  destruct s as [|d0 [|d1 [|w' [|h' [|c [|? ?]]]]]]; try discriminate.
  intros [= <- <-]. now exists d0, d1, c.
Qed.

Lemma unpack5_raises s e : unpack5 s = Raise e -> e = ValueError.
Proof.
  destruct s as [|d0 [|d1 [|w' [|h' [|c [|? ?]]]]]]; cbn [unpack5]; congruence.
Qed.

Lemma unpack5_rank s : length s = 5 -> exists w h, unpack5 s = Ok (w, h).
Proof.
  destruct s as [|d0 [|d1 [|w [|h [|c [|? ?]]]]]]; try discriminate.
  intros _. now exists w, h.
Qed.

Lemma unpack5_not_rank s : length s <> 5 -> unpack5 s = Raise ValueError.
Proof.
  destruct s as [|d0 [|d1 [|w [|h [|c [|? ?]]]]]]; cbn [length unpack5]; congruence.
Qed.

Section BoxErrors.
Context {F : Type} `{Scalar F} `{Exponential F}.

Lemma shape_sigmoid_v (a : ndarray F) : shape (sigmoid_v a) = shape a.
Proof. reflexivity. Qed.

(** The first loop fails exactly on an array that has not five axes. *)
Lemma activate_rank5 (out : ndarray F) :
  length (shape out) = 5 ->
  activate out =
  Ok (sigmoid_v out,
      mk_ndarray [1; 1; nth 3 (shape out) 0; nth 2 (shape out) 0; 2]
        (grid_data (nth 2 (shape out) 0) (nth 3 (shape out) 0))).
Proof.
  intros Hr. unfold activate. rewrite shape_sigmoid_v.
  destruct (shape out) as [|d0 [|d1 [|w [|h [|c [|? ?]]]]]]; try discriminate.
  cbn [unpack5 bind nth]. now rewrite make_grid_ok.
Qed.

Lemma activate_not_rank5 (out : ndarray F) :
  length (shape out) <> 5 -> activate out = Raise ValueError.
Proof.
  intros Hr. unfold activate. rewrite shape_sigmoid_v.
  now rewrite (unpack5_not_rank _ Hr).
Qed.

Lemma activate_raises (out : ndarray F) e : activate out = Raise e -> e = ValueError.
Proof.
  destruct (Nat.eq_dec (length (shape out)) 5) as [E|E].
  - now rewrite (activate_rank5 _ E).
  - rewrite (activate_not_rank5 _ E). congruence.
Qed.

Lemma decode_raises ogsa e : decode ogsa = Raise e -> e = ValueError.
Proof.
  destruct ogsa as [[[out grid] stride] anchor]. unfold decode.
  intros E. apply bind_raise_inv in E as [E|([w h] & Eu & E)];
    [now apply unpack5_raises in E|].
  apply unpack5_ok in Eu as (d0 & d1 & c & Es).
  assert (Hs : shape out <> []) by (rewrite Es; discriminate).
  rewrite slice_last_unfold in E by assumption. cbn [bind] in E.
  apply bind_raise_inv in E as [E|(v & _ & E)]; [now apply broadcast2_raises in E|].
  apply bind_raise_inv in E as [E|(out1 & E1 & E)];
    [now apply set_slice_last_raises in E|].
  pose proof (set_slice_last_shape _ _ _ _ E1) as S1.
  assert (Hs1 : shape out1 <> []) by (rewrite S1; assumption).
  rewrite slice_last_unfold in E by assumption. cbn [bind] in E.
  apply bind_raise_inv in E as [E|(v1 & _ & E)]; [now apply broadcast2_raises in E|].
  apply bind_raise_inv in E as [E|(out2 & E2 & E)];
    [now apply set_slice_last_raises in E|].
  now apply reshape_raises in E.
Qed.

Lemma decode_shape ogsa z : decode ogsa = Ok z -> exists n, shape z = [1; n; 85].
Proof.
  destruct ogsa as [[[out grid] stride] anchor]. unfold decode.
  intros E. apply bind_ok in E as ([w h] & _ & E).
  apply bind_ok in E as (xy & _ & E). apply bind_ok in E as (v & _ & E).
  apply bind_ok in E as (out1 & _ & E). apply bind_ok in E as (wh & _ & E).
  apply bind_ok in E as (v1 & _ & E). apply bind_ok in E as (out2 & _ & E).
  apply reshape_shape in E. eexists; exact E.
Qed.

Lemma predictions_raises self (output : list (ndarray F)) e :
  predictions self output = Raise e -> e = ValueError.
Proof.
  unfold predictions. intros E.
  apply bind_raise_inv in E as [E|(sg & _ & E)].
  { apply mapM_raise in E as (x & _ & E). now apply activate_raises in E. }
  apply bind_raise_inv in E as [E|(z & _ & E)].
  { apply mapM_raise in E as (x & _ & E). now apply decode_raises in E. }
  now apply concatenate1_raises in E.
Qed.

Lemma predictions_shape self (output : list (ndarray F)) pred :
  predictions self output = Ok pred -> exists n, shape pred = [1; n; 85].
Proof.
  unfold predictions. intros E.
  apply bind_ok in E as (sg & _ & E). apply bind_ok in E as (z & Ez & E).
  apply mapM_ok in Ez.
  destruct Ez as [|x z0 xs zs Ex _]; [discriminate|].
  apply decode_shape in Ex as (n & Sz).
  exact (@concatenate1_shape _ z0 zs pred 1 n [85] Sz E).
Qed.

(** The confidence filter and the corner conversion succeed on every
    [pred] of shape [(1, n, 85)]. *)
Lemma select_shape conf_thres (pred : ndarray F) n :
  shape pred = [1; n; 85] ->
  exists boxes k,
    (o <- np.index_last 4 pred ;;
     let xc := np.gt_s o conf_thres in
     p <- np.mask_index pred xc ;;
     b <- np.slice_axis1 0 4 p ;;
     xywh2xyxy b) = Ok boxes /\ shape boxes = [k; 4].
Proof.
  intros Es.
  rewrite (index_last_rows (j := 4) pred [1; n] (m := 85) Es) by lia. cbn [bind].
  unfold np.mask_index. cbn [np.gt_s np.elementwise shape data length].
  rewrite Es. cbn [firstn skipn]. rewrite shape_eqb_refl. cbn [bind].
  set (kept := map snd _).
  unfold np.slice_axis1 at 1. cbn [shape data bind].
  set (b := mk_ndarray _ _).
  pose proof (xywh2xyxy_domain b) as Hb. unfold b in Hb at 1. cbn [shape] in Hb.
  replace (Nat.min 4 85 - Nat.min 0 85) with 4 in * by reflexivity.
  cbn [Nat.leb] in Hb. destruct Hb as (y & Ey & Sy).
  exists y, (length kept). split; [exact Ey | exact Sy].
Qed.

Lemma extract_boxes_outcome (output : list (ndarray F)) conf_thres :
  (forall e, extract_boxes init output conf_thres = Raise e -> e = ValueError) /\
  (forall boxes, extract_boxes init output conf_thres = Ok boxes ->
     exists k, shape boxes = [k; 4]).
Proof.
  destruct (predictions init output) as [pred|e0] eqn:Ep.
  - destruct (predictions_shape _ _ Ep) as (n & Sp).
    destruct (select_shape conf_thres pred Sp) as (boxes & k & Eb & Sb).
    assert (E : extract_boxes init output conf_thres = Ok boxes)
      by (unfold extract_boxes; rewrite Ep; exact Eb).
    rewrite E. split; [discriminate|]. intros ? [= <-]. now exists k.
  - assert (E : extract_boxes init output conf_thres = Raise e0)
      by (unfold extract_boxes; now rewrite Ep).
    rewrite E. apply predictions_raises in Ep as ->.
    split; [congruence | discriminate].
Qed.

(** X5.  [extract_boxes] raises no exception but [ValueError] (a wrong number
    of axes, shapes that do not broadcast, a failed reshape, nothing to
    concatenate), and what it returns is a matrix of four columns. *)
Theorem extract_boxes_raises_only_ValueError (output : list (ndarray F)) conf_thres :
  extract_boxes init output conf_thres = Raise ValueError \/
  exists boxes k, extract_boxes init output conf_thres = Ok boxes /\ shape boxes = [k; 4].
Proof.
  destruct (extract_boxes_outcome output conf_thres) as [He Hb].
  destruct (extract_boxes init output conf_thres) as [boxes|e].
  - right. destruct (Hb boxes eq_refl) as (k & Sk). now exists boxes, k.
  - left. f_equal. now apply He.
Qed.

(** X6.  No output at all, or an output that has not five axes, is a
    [ValueError]. *)
Theorem extract_boxes_rejects_bad_rank (output : list (ndarray F)) conf_thres :
  output = [] \/ Exists (fun out => length (shape out) <> 5) output ->
  extract_boxes init output conf_thres = Raise ValueError.
Proof.
  intros Hbad.
  destruct (extract_boxes init output conf_thres) as [boxes|e] eqn:E.
  - exfalso. unfold extract_boxes in E.
    apply bind_ok in E as (pred & Ep & _). unfold predictions in Ep.
    apply bind_ok in Ep as (sg & Esg & Ep). apply bind_ok in Ep as (z & Ez & Ep).
    destruct Hbad as [->|Hex].
    + injection Esg as <-. injection Ez as <-. discriminate.
    + apply Exists_exists in Hex as (out & Hin & Hr).
      destruct (@mapM_ok_in _ _ _ _ _ out Esg Hin) as (y & Ey).
      rewrite (activate_not_rank5 _ Hr) in Ey. discriminate.
  - f_equal. exact (proj1 (extract_boxes_outcome output conf_thres) e E).
Qed.


Lemma bshape_cons_inv d1 s1 d2 s2 r :
  np.bshape (d1 :: s1) (d2 :: s2) = Some r ->
  exists d s, r = d :: s /\ np.bshape s1 s2 = Some s /\
    ((d = d1 /\ (d1 = d2 \/ d2 = 1)) \/ (d = d2 /\ d1 = 1)).
Proof.
  cbn [np.bshape]. destruct (np.bshape s1 s2) as [s|]; [|discriminate].
  destruct (Nat.eqb_spec d1 d2);
    [intros E; injection E as <-; exists d1, s; repeat split; auto|].
  destruct (Nat.eqb_spec d1 1);
    [intros E; injection E as <-; exists d2, s; repeat split; auto|].
  destruct (Nat.eqb_spec d2 1);
    [intros E; injection E as <-; exists d1, s; repeat split; auto | discriminate].
Qed.

Lemma broadcast2_ok_inv {A B C : Type} `{Default A} `{Default B}
    (f : A -> B -> C) (a : ndarray A) (b : ndarray B) c :
  np.broadcast2 f a b = Ok c -> np.broadcast_shapes (shape a) (shape b) = Some (shape c).
Proof.
  unfold np.broadcast2. destruct (np.broadcast_shapes _ _); [|discriminate].
  now intros [= <-].
Qed.

Lemma broadcast_to_ok_inv {A : Type} `{Default A} s (v v' : ndarray A) :
  np.broadcast_to s v = Ok v' -> np.broadcast_shapes (shape v) s = Some s.
Proof.
  unfold np.broadcast_to. destruct (np.broadcast_shapes _ _) as [s'|]; [|discriminate].
  destruct (shape_eqb s' s) eqn:E; [|discriminate].
  apply shape_eqb_eq in E. now subst.
Qed.

Lemma nth_error_zip4 {A B C D : Type} (a : list A) (b : list B) (c : list C) (d : list D)
    i x y s t :
  nth_error a i = Some x -> nth_error b i = Some y ->
  nth_error c i = Some s -> nth_error d i = Some t ->
  In (x, y, s, t) (zip4 a b c d).
Proof.
  unfold zip4. revert a b c d.
  induction i as [|i IH]; intros [|a0 a] [|b0 b] [|c0 c] [|d0 d]; cbn [nth_error];
    try discriminate.
  - intros [= ->] [= ->] [= ->] [= ->]. now left.
  - intros Ha Hb Hc Hd. right. now apply IH.
Qed.

Lemma Forall2_nth_error_l {A B : Type} (R : A -> B -> Prop) l l' i x :
  Forall2 R l l' -> nth_error l i = Some x ->
  exists y, nth_error l' i = Some y /\ R x y.
Proof.
  intros HF. revert i. induction HF as [|a b l l' Hab _ IH]; intros [|i]; cbn [nth_error];
    try discriminate.
  - intros [= ->]. now exists b.
  - apply IH.
Qed.

(** The second loop accepts only a grid that is as wide as it is high:
    the grid of [make_grid(width, height)] has its two axes the other way
    round than the output, so the sum broadcasts (or fits the slice it is
    assigned to) only when they are equal. *)
Lemma decode_needs_square (out : ndarray F) grid stride anchor z d0 d1 w h c :
  decode (out, grid, stride, anchor) = Ok z ->
  shape out = [d0; d1; w; h; c] -> shape grid = [1; 1; h; w; 2] -> w = h.
Proof.
  intros E Es Eg. unfold decode in E. rewrite Es in E. cbn [unpack5 bind] in E.
  assert (Hs : shape out <> []) by (rewrite Es; discriminate).
  rewrite slice_last_unfold in E by assumption. cbn [bind] in E.
  apply bind_ok in E as (v & Ev & E). apply bind_ok in E as (out1 & E1 & _).
  apply broadcast2_ok_inv in Ev.
  cbn [np.sub_s np.mul_s np.as_float np.elementwise shape] in Ev.
  rewrite set_slice_last_unfold in E1 by assumption. cbv zeta in E1.
  apply bind_ok in E1 as (v' & E1 & _). apply broadcast_to_ok_inv in E1.
  cbn [np.mul_s np.elementwise shape] in E1.
  rewrite Es, Eg in *. cbn [removelast last app] in *.
  set (c' := Nat.min 2 c - Nat.min 0 c) in *. clearbody c'.
  rewrite broadcast_shapes_same_rank in Ev by reflexivity.
  destruct (bshape_cons_inv _ _ _ _ Ev) as (e0 & r0 & Er0 & B0 & _).
  destruct (bshape_cons_inv _ _ _ _ B0) as (e1 & r1 & Er1 & B1 & _).
  destruct (bshape_cons_inv _ _ _ _ B1) as (e2 & r2 & Er2 & B2 & H2).
  destruct (bshape_cons_inv _ _ _ _ B2) as (e3 & r3 & Er3 & B3 & H3).
  destruct (bshape_cons_inv _ _ _ _ B3) as (e4 & r4 & Er4 & B4 & _).
  destruct r4; [|now destruct r4]. subst r3 r2 r1 r0. rewrite Er0 in E1.
  rewrite broadcast_shapes_same_rank in E1 by reflexivity.
  destruct (bshape_cons_inv _ _ _ _ E1) as (f0 & q0 & Eq0 & C0 & _).
  destruct (bshape_cons_inv _ _ _ _ C0) as (f1 & q1 & Eq1 & C1 & _).
  destruct (bshape_cons_inv _ _ _ _ C1) as (f2 & q2 & Eq2 & C2 & G2).
  destruct (bshape_cons_inv _ _ _ _ C2) as (f3 & q3 & Eq3 & C3 & G3).
  subst q0 q1 q2. injection Eq0 as -> -> -> -> _.
  lia.
Qed.

(** X7.  Outputs whose grid is not square are rejected. *)
Theorem extract_boxes_rejects_non_square
    (output : list (ndarray F)) conf_thres i (out : ndarray F) :
  nth_error output i = Some out -> i < 3 ->
  nth 2 (shape out) 0 <> nth 3 (shape out) 0 ->
  extract_boxes init output conf_thres = Raise ValueError.
Proof.
  intros Hout Hi Hne.
  destruct (extract_boxes init output conf_thres) as [boxes|e] eqn:E.
  - exfalso. unfold extract_boxes in E.
    apply bind_ok in E as (pred & Ep & _). unfold predictions in Ep.
    apply bind_ok in Ep as (sg & Esg & Ep). apply bind_ok in Ep as (z & Ez & _).
    destruct (Forall2_nth_error_l _ (mapM_ok _ _ Esg) Hout) as (v & Hv & Ev).
    destruct (Nat.eq_dec (length (shape out)) 5) as [Hr|Hr];
      [|rewrite (activate_not_rank5 _ Hr) in Ev; discriminate].
    rewrite (activate_rank5 _ Hr) in Ev. injection Ev as <-.
    assert (Hs : exists s, nth_error (strides (init (F := F))) i = Some s).
    { destruct i as [|[|[|i]]]; [| | |lia]; eexists; reflexivity. }
    assert (Ha : exists a, nth_error (np.iter0 (anchor_grid (init (F := F)))) i = Some a).
    { rewrite anchor_grid_scales. destruct i as [|[|[|i]]]; [| | |lia]; eexists; reflexivity. }
    destruct Hs as (s & Hs). destruct Ha as (a & Ha).
    pose proof (nth_error_zip4 (map fst sg) (map snd sg) _ _ i
                  (map_nth_error fst _ _ Hv) (map_nth_error snd _ _ Hv) Hs Ha) as Hin.
    cbn [fst snd] in Hin.
    destruct (@mapM_ok_in _ _ _ _ _ _ Ez Hin) as (zi & Ezi).
    destruct (shape out) as [|d0 [|d1 [|w [|h [|c [|? ?]]]]]] eqn:Es; try discriminate.
    cbn [nth] in *.
    apply Hne.
    eapply decode_needs_square; [exact Ezi | | reflexivity].
    rewrite shape_sigmoid_v. exact Es.
  - f_equal. exact (proj1 (extract_boxes_outcome output conf_thres) e E).
Qed.

(** X8.  Outputs after the third are activated, and then left out: the second
    loop pairs the outputs with the three strides and anchor sets. *)
Theorem extract_boxes_uses_three_scales (output : list (ndarray F)) conf_thres :
  Forall (fun out => length (shape out) = 5) (skipn 3 output) ->
  extract_boxes init output conf_thres =
  extract_boxes init (firstn 3 output) conf_thres.
Proof.
  destruct output as [|o1 [|o2 [|o3 rest]]]; try reflexivity.
  cbn [skipn firstn]. intros Hr.
  unfold extract_boxes. f_equal. unfold predictions.
  rewrite !mapM_cons.
  destruct (activate o1) as [v1|e1]; [|reflexivity]. cbn [bind].
  destruct (activate o2) as [v2|e2]; [|reflexivity]. cbn [bind].
  destruct (activate o3) as [v3|e3]; [|reflexivity]. cbn [bind].
  rewrite (mapM_all_ok activate
             (fun out => (sigmoid_v out,
                          mk_ndarray [1; 1; nth 3 (shape out) 0; nth 2 (shape out) 0; 2]
                            (grid_data (nth 2 (shape out) 0) (nth 3 (shape out) 0)))))
    by (eapply Forall_impl; [|exact Hr]; intros out Ho; now apply activate_rank5).
  cbn [bind mapM]. rewrite anchor_grid_scales.
  unfold zip4. cbn [map combine strides init]. now rewrite combine_nil.
Qed.

End BoxErrors.

Lemma extract_boxes_rejects_bad_rank_witness :
  ([mk_ndarray [2; 2] [1; 2; 3; 4]%R] = [] \/
   Exists (fun out => length (shape out) <> 5) [mk_ndarray [2; 2] [1; 2; 3; 4]%R]) /\
  extract_boxes init [mk_ndarray [2; 2] [1; 2; 3; 4]%R] conf_thres_default =
  Raise ValueError.
Proof.
  assert (Hbad : Exists (fun out : ndarray R => length (shape out) <> 5)
                   [mk_ndarray [2; 2] [1; 2; 3; 4]%R]).
  { constructor. cbn. lia. }
  split; [now right|].
  apply extract_boxes_rejects_bad_rank. now right.
Defined.

(** A raw output of one scale with a grid of 1 by 2 cells. *)
Lemma extract_boxes_rejects_non_square_witness :
  let out := mk_ndarray [1; 3; 1; 2; 85] (repeat 0%R 510) in
  nth_error [out] 0 = Some out /\ 0 < 3 /\
  nth 2 (shape out) 0 <> nth 3 (shape out) 0 /\
  extract_boxes init [out] conf_thres_default = Raise ValueError.
Proof.
  cbv zeta.
  assert (Hne : nth 2 (shape (mk_ndarray [1; 3; 1; 2; 85] (repeat 0%R 510))) 0 <>
                nth 3 (shape (mk_ndarray [1; 3; 1; 2; 85] (repeat 0%R 510))) 0)
    by (cbn; lia).
  assert (H3 : 0 < 3) by lia.
  split; [reflexivity|]. split; [exact H3|]. split; [exact Hne|].
  exact (@extract_boxes_rejects_non_square R _ _
           [mk_ndarray [1; 3; 1; 2; 85] (repeat 0%R 510)] conf_thres_default 0
           (mk_ndarray [1; 3; 1; 2; 85] (repeat 0%R 510)) eq_refl H3 Hne).
Defined.

Lemma extract_boxes_uses_three_scales_witness :
  Forall (fun out : ndarray R => length (shape out) = 5)
    (skipn 3 [zeros_1x1; zeros_1x1; zeros_1x1; zeros_1x1]) /\
  extract_boxes init [zeros_1x1; zeros_1x1; zeros_1x1; zeros_1x1] conf_thres_default =
  extract_boxes init (firstn 3 [zeros_1x1; zeros_1x1; zeros_1x1; zeros_1x1])
    conf_thres_default.
Proof.
  assert (Hr : Forall (fun out : ndarray R => length (shape out) = 5)
                 (skipn 3 [zeros_1x1; zeros_1x1; zeros_1x1; zeros_1x1])).
  { repeat constructor. }
  split; [exact Hr|].
  exact (extract_boxes_uses_three_scales _ conf_thres_default Hr).
Defined.

(** ** The confidence threshold *)

Lemma filter_filter_implied {A : Type} (p q : A -> bool) (l : list A) :
  (forall x, q x = true -> p x = true) -> filter q (filter p l) = filter q l.
Proof.
  intros Hpq. induction l as [|x l IH]; [reflexivity|]. cbn [filter].
  destruct (p x) eqn:Ep; cbn [filter].
  - now rewrite IH.
  - destruct (q x) eqn:Eq; [|exact IH]. rewrite (Hpq x Eq) in Ep. discriminate.
Qed.

Lemma filter_all {A : Type} (t : A -> bool) (l : list A) :
  Forall (fun x => t x = true) l -> filter t l = l.
Proof. induction 1 as [|x l Hx _ IH]; simpl; [reflexivity | now rewrite Hx, IH]. Qed.

Section Thresholds.

(** X9.  Raising the threshold can only remove boxes: the candidates kept at
    the higher threshold are those kept at the lower one that also pass the
    higher one, in the same order. *)
Theorem extract_boxes_threshold_monotone (output : list (ndarray R)) (t1 t2 : R) :
  Forall shaped output -> output <> [] -> (t1 <= t2)%R ->
  exists pred,
    predictions init output = Ok pred /\
    let N := offset output (Nat.min (length output) 3) in
    let rows1 := kept_rows t1 N pred in
    let rows2 := kept_rows t2 N pred in
    extract_boxes init output t1 =
      Ok (mk_ndarray [length rows1; 4] (flat_map xyxy rows1)) /\
    extract_boxes init output t2 =
      Ok (mk_ndarray [length rows2; 4] (flat_map xyxy rows2)) /\
    rows2 = filter (fun row => fgt (nth 4 row dflt) t2) rows1 /\
    length rows2 <= length rows1.
Proof.
  intros Ho Hne Ht.
  destruct (extract_boxes_spec t1 Ho Hne) as (pred & Ep & E1).
  destruct (extract_boxes_spec t2 Ho Hne) as (pred' & Ep' & E2).
  rewrite Ep in Ep'. injection Ep' as <-.
  exists pred. split; [exact Ep|]. cbv zeta in *.
  split; [exact E1|]. split; [exact E2|].
  assert (E : kept_rows t2 (offset output (Nat.min (length output) 3)) pred =
              filter (fun row => fgt (nth 4 row dflt) t2)
                (kept_rows t1 (offset output (Nat.min (length output) 3)) pred)).
  { unfold kept_rows. symmetry. apply filter_filter_implied.
    intros row. cbn [fgt Scalar_R]. rewrite !Rgtb_true. lra. }
  split; [exact E|]. rewrite E. apply filter_length_le.
Qed.

Lemma fle_lit_inv (q : Q) (t : flt) : fle (lit q) t -> exists y, t = Num y /\ (Q2R q <= y)%R.
Proof. destruct t as [y|]; cbn [fle lit Scalar_flt]; [eauto | contradiction]. Qed.

Lemma fgt_lit_inv (q : Q) (t : flt) :
  fgt (lit q) t = true -> exists y, t = Num y /\ (y < Q2R q)%R.
Proof.
  destruct t as [y|]; cbn [fgt lit Scalar_flt flt_gt]; [|discriminate].
  intros E. apply Rgtb_true in E. eauto.
Qed.

(** X10.  A threshold of 1 or more leaves no box, whatever the raw values
    are; a negative threshold keeps every candidate of raw outputs without
    NaN: three per cell of each of the (at most three) scales. *)
Theorem extract_boxes_threshold_extremes (output : list (ndarray flt)) (t : flt) :
  Forall shaped output -> output <> [] ->
  (fle (lit 1%Q) t -> extract_boxes init output t = Ok (mk_ndarray [0; 4] [])) /\
  (fgt (lit 0%Q) t = true -> Forall no_nan output ->
   exists boxes, extract_boxes init output t = Ok boxes /\
     shape boxes = [offset output (Nat.min (length output) 3); 4]).
Proof.
  intros Ho Hne.
  destruct (extract_boxes_spec t Ho Hne) as (pred & Ep & Eb). cbv zeta in Eb.
  split.
  - intros Ht. apply fle_lit_inv in Ht as (y & -> & Hy). rewrite Q2R_one in Hy.
    rewrite Eb. unfold kept_rows. rewrite filter_none; [reflexivity|].
    apply (predictions_rows (fun row => fgt (nth 4 row dflt) (Num y) = false) Ho Hne Ep).
    intros i out a gy gx row _ _ _ _ _ _ Hrow.
    rewrite (Hrow 4 dflt) by lia. cbn [decoded].
    destruct (nth (cell (gsize out) a gy gx * 85 + 4) (data out) dflt) as [x|];
      [|reflexivity].
    rewrite sigmoid_num. cbn [fgt Scalar_flt flt_gt]. apply Rgtb_false.
    pose proof (sigmoid_bounds x). lra.
  - intros Ht Hn. apply fgt_lit_inv in Ht as (y & -> & Hy). rewrite Q2R_zero in Hy.
    pose proof (predictions_row_num Ho Hne Hn Ep) as Hr.
    eexists. split; [exact Eb|]. cbn [shape]. unfold kept_rows.
    rewrite filter_all; [now rewrite length_chunks|].
    eapply Forall_impl; [|exact Hr]. intros row [_ Hs].
    destruct (Hs 4 ltac:(lia)) as (s & -> & Bs).
    cbn [fgt Scalar_flt flt_gt]. apply Rgtb_true. lra.
Qed.

Lemma strides_positive i : i < 3 -> (0 < nth i (strides (init (F := R))) dflt)%R.
Proof.
  intros Hi. destruct i as [|[|[|i]]]; [| | |lia];
    cbn [init strides nth lit Scalar_R]; unfold Q2R; simpl; lra.
Qed.

Lemma centre_range (s g st : R) :
  (0 < s < 1)%R -> (0 < st)%R ->
  ((g - 1 / 2) * st <= (s * 2 - 1 / 2 + g) * st <= (g + 3 / 2) * st)%R.
Proof. intros Hs Hst. assert (0 <= s * st <= st)%R by nra. nra. Qed.

Lemma size_range (s a : R) :
  (0 < s < 1)%R -> (0 < a)%R -> (0 <= s * 2 * (s * 2) * a <= 4 * a)%R.
Proof.
  intros Hs Ha. assert (Q : (0 <= s * s <= 1)%R) by nra.
  assert (0 <= s * s * a <= a)%R by nra. nra.
Qed.

(** X11.  When the raw values of a scale are numbers, a decoded centre lies
    within half a cell before and one and a half cells after the corner of
    its own cell (in pixels: times the stride), and a decoded width or
    height is at most four times the anchor's. *)
Theorem decoded_box_stays_near_its_cell (output : list (ndarray flt)) i out a gy gx :
  Forall shaped output ->
  nth_error output i = Some out -> no_nan out -> i < 3 ->
  a < 3 -> gy < gsize out -> gx < gsize out ->
  exists pred cx cy w h,
    predictions init output = Ok pred /\
    let row := offset output i + cell (gsize out) a gy gx in
    get pred [0; row; 0] = Num cx /\ get pred [0; row; 1] = Num cy /\
    get pred [0; row; 2] = Num w /\ get pred [0; row; 3] = Num h /\
    let stride := nth i (strides (init (F := R))) dflt in
    let anchor_w := get (anchors (init (F := R))) [i; a; 0] in
    let anchor_h := get (anchors (init (F := R))) [i; a; 1] in
    ((INR gx - 1 / 2) * stride <= cx <= (INR gx + 3 / 2) * stride)%R /\
    ((INR gy - 1 / 2) * stride <= cy <= (INR gy + 3 / 2) * stride)%R /\
    (0 <= w <= 4 * anchor_w)%R /\
    (0 <= h <= 4 * anchor_h)%R.
Proof.
  intros Ho Hout Hn Hi Ha Hy Hx.
  assert (Hne : output <> []) by (intros ->; now destruct i).
  destruct (predictions_spec Ho Hne) as (pred & Ep & Sp & Wp & Hp).
  assert (Hraw : forall j, exists x,
             nth (cell (gsize out) a gy gx * 85 + j) (data out) dflt = Num x).
  { intros j. now apply nth_is_num. }
  destruct (decoded_num (nth i (strides (init (F := R))) dflt)
              (get (anchors (init (F := R))) [i; a; 0])
              (get (anchors (init (F := R))) [i; a; 1]) gx gy _ Hraw)
    as (s0 & s1 & s2 & s3 & B0 & B1 & B2 & B3 & E0 & E1 & E2 & E3).
  assert (G : forall k, k < 85 ->
    get pred [0; offset output i + cell (gsize out) a gy gx; k] =
    decoded (Num (nth i (strides (init (F := R))) dflt))
      (Num (get (anchors (init (F := R))) [i; a; 0]))
      (Num (get (anchors (init (F := R))) [i; a; 1])) gx gy
      (fun j => sigmoid (nth (cell (gsize out) a gy gx * 85 + j) (data out) dflt)) k).
  { intros k Hk. unfold get at 1. rewrite Sp.
    replace (ravel _ _) with ((offset output i + cell (gsize out) a gy gx) * 85 + k)
      by (simpl; lia).
    rewrite (Hp i out a gy gx k dflt) by assumption.
    now rewrite strides_num, !anchors_num by lia. }
  eexists pred, _, _, _, _. split; [exact Ep|]. cbv zeta.
  rewrite !G by lia. rewrite E0, E1, E2, E3.
  repeat (split; [reflexivity|]).
  pose proof (strides_positive Hi) as Hs.
  pose proof (@anchors_positive i a 0 Hi Ha ltac:(lia)) as Aw.
  pose proof (@anchors_positive i a 1 Hi Ha ltac:(lia)) as Ah.
  split; [now apply centre_range|]. split; [now apply centre_range|].
  split; now apply size_range.
Qed.

End Thresholds.

Lemma extract_boxes_threshold_monotone_witness :
  Forall shaped [zeros_1x1] /\ [zeros_1x1] <> [] /\ (0 <= 1 / 2)%R /\
  exists pred,
    predictions init [zeros_1x1] = Ok pred /\
    let N := offset [zeros_1x1] (Nat.min (length [zeros_1x1]) 3) in
    let rows1 := kept_rows 0%R N pred in
    let rows2 := kept_rows (1 / 2)%R N pred in
    extract_boxes init [zeros_1x1] 0%R =
      Ok (mk_ndarray [length rows1; 4] (flat_map xyxy rows1)) /\
    extract_boxes init [zeros_1x1] (1 / 2)%R =
      Ok (mk_ndarray [length rows2; 4] (flat_map xyxy rows2)) /\
    rows2 = filter (fun row => fgt (nth 4 row dflt) (1 / 2)%R) rows1 /\
    length rows2 <= length rows1.
Proof.
  assert (Hne : [zeros_1x1] <> []) by discriminate.
  assert (Ht : (0 <= 1 / 2)%R) by lra.
  split; [exact zeros_1x1_shaped|]. split; [exact Hne|]. split; [exact Ht|].
  exact (extract_boxes_threshold_monotone zeros_1x1_shaped Hne Ht).
Defined.

Lemma extract_boxes_threshold_extremes_witness :
  Forall shaped [one_candidate (Num 0)] /\ [one_candidate (Num 0)] <> [] /\
  fle (lit 1%Q) (Num 1) /\ fgt (lit 0%Q) (Num (-1)) = true /\
  Forall no_nan [one_candidate (Num 0)] /\
  extract_boxes init [one_candidate (Num 0)] (Num 1) = Ok (mk_ndarray [0; 4] []) /\
  exists boxes, extract_boxes init [one_candidate (Num 0)] (Num (-1)) = Ok boxes /\
     shape boxes = [offset [one_candidate (Num 0)]
                      (Nat.min (length [one_candidate (Num 0)]) 3); 4].
Proof.
  assert (Hne : [one_candidate (Num 0)] <> []) by discriminate.
  assert (H1 : fle (lit 1%Q) (Num 1)).
  { cbn [fle lit Scalar_flt]. rewrite Q2R_one. lra. }
  assert (H0 : fgt (lit 0%Q) (Num (-1)) = true).
  { cbn [fgt lit Scalar_flt flt_gt]. apply Rgtb_true. rewrite Q2R_zero. lra. }
  split; [exact (one_candidate_shaped (Num 0))|]. split; [exact Hne|].
  split; [exact H1|]. split; [exact H0|]. split; [exact one_candidate_no_nan|].
  split.
  - exact (proj1 (extract_boxes_threshold_extremes (Num 1)
                    (one_candidate_shaped (Num 0)) Hne) H1).
  - exact (proj2 (extract_boxes_threshold_extremes (Num (-1))
                    (one_candidate_shaped (Num 0)) Hne) H0 one_candidate_no_nan).
Defined.

Lemma decoded_box_stays_near_its_cell_witness :
  Forall shaped [one_candidate (Num 0)] /\
  nth_error [one_candidate (Num 0)] 0 = Some (one_candidate (Num 0)) /\
  no_nan (one_candidate (Num 0)) /\
  exists pred cx cy w h,
    predictions init [one_candidate (Num 0)] = Ok pred /\
    let row := offset [one_candidate (Num 0)] 0 +
               cell (gsize (one_candidate (Num 0))) 0 0 0 in
    get pred [0; row; 0] = Num cx /\ get pred [0; row; 1] = Num cy /\
    get pred [0; row; 2] = Num w /\ get pred [0; row; 3] = Num h /\
    let stride := nth 0 (strides (init (F := R))) dflt in
    let anchor_w := get (anchors (init (F := R))) [0; 0; 0] in
    let anchor_h := get (anchors (init (F := R))) [0; 0; 1] in
    ((INR 0 - 1 / 2) * stride <= cx <= (INR 0 + 3 / 2) * stride)%R /\
    ((INR 0 - 1 / 2) * stride <= cy <= (INR 0 + 3 / 2) * stride)%R /\
    (0 <= w <= 4 * anchor_w)%R /\
    (0 <= h <= 4 * anchor_h)%R.
Proof.
  assert (H3 : 0 < 3) by lia.
  assert (H1 : 0 < gsize (one_candidate (Num 0))) by (cbn; lia).
  assert (Hn : no_nan (one_candidate (Num 0))).
  { pose proof one_candidate_no_nan as Hn. now inversion Hn. }
  split; [exact (one_candidate_shaped (Num 0))|]. split; [reflexivity|].
  split; [exact Hn|].
  exact (@decoded_box_stays_near_its_cell [one_candidate (Num 0)] 0
           (one_candidate (Num 0)) 0 0 0
           (one_candidate_shaped (Num 0)) eq_refl Hn H3 H3 H1 H1).
Defined.

(** ** [extract_object_grids] *)

Section ObjectGrids.
Context {F : Type} `{Scalar F} `{Exponential F}.

Lemma object_grid_spec (out : ndarray F) :
  wf out -> 5 <= last (shape out) 0 ->
  exists g,
    (o <- np.slice_last 4 5 out ;; Ok (sigmoid_v o)) = Ok g /\
    shape g = removelast (shape out) ++ [1] /\
    forall idx, inb idx (removelast (shape out)) ->
      get g (idx ++ [0]) = sigmoid (get out (idx ++ [4])).
Proof.
  intros Wo Hm.
  assert (Hs : shape out <> []) by (intros E; rewrite E in Hm; simpl in Hm; lia).
  pose proof (app_removelast_last 0 Hs) as Es.
  set (o := removelast (shape out)) in *. set (m := last (shape out) 0) in *.
  destruct (slice_last_cells (lo := 4) (hi := 5) o Es Wo) as (ob & Eob & Sob & Wob & Hob);
    [lia | lia |].
  rewrite Eob; cbn [bind]. rewrite sigmoid_v_elementwise.
  replace (5 - 4) with 1 in * by lia.
  eexists; split; [reflexivity|]. split; [exact Sob|].
  intros idx Hi.
  pose proof (ravel_lt Hi) as Hr. pose proof (inb_length Hi) as Hlen.
  assert (Lob : length (data ob) = size o * 1).
  { rewrite Wob, Sob, size_app. simpl. lia. }
  unfold get at 1. cbn [np.elementwise shape]. rewrite Sob, ravel_snoc by assumption.
  rewrite nth_elementwise with (d := dflt) by nia.
  rewrite (Hob (ravel o idx) 0 dflt Hr) by lia.
  unfold get. now rewrite Es at 1; rewrite ravel_snoc by assumption.
Qed.

(** X12.  [extract_object_grids] returns, for every raw output, the activated
    objectness of every cell, on a last axis of length one. *)
Theorem object_grids_activated (output : list (ndarray F)) :
  Forall (fun out => wf out /\ 5 <= last (shape out) 0) output ->
  exists grids,
    extract_object_grids output = Ok grids /\
    Forall2 (fun out g =>
               let cells := removelast (shape out) in
               shape g = cells ++ [1] /\
               forall idx, inb idx cells ->
                 get g (idx ++ [0]) = sigmoid (get out (idx ++ [4])))
      output grids.
Proof.
  unfold extract_object_grids.
  induction 1 as [|out output [Wo Hm] _ (grids & Eg & Hg)].
  - exists []. split; [reflexivity | constructor].
  - destruct (object_grid_spec Wo Hm) as (g & Eg1 & Hg1).
    exists (g :: grids). split.
    + rewrite mapM_cons, Eg1; cbn [bind]. now rewrite Eg.
    + constructor; assumption.
Qed.

Lemma bshape_last_axis o n :
  np.bshape (o ++ [n - Nat.min 5 n]) (o ++ [Nat.min 5 n - Nat.min 4 n]) =
  Some (o ++ [n - 5]).
Proof.
  destruct (Nat.le_gt_cases 5 n) as [Hn|Hn].
  - replace (Nat.min 5 n - Nat.min 4 n) with 1 by lia.
    replace (n - Nat.min 5 n) with (n - 5) by lia.
    apply bshape_last.
  - replace (Nat.min 5 n - Nat.min 4 n) with 0 by lia.
    replace (n - Nat.min 5 n) with 0 by lia.
    replace (n - 5) with 0 by lia.
    apply bshape_refl.
Qed.

Lemma object_grid_shape (out : ndarray F) :
  shape out <> [] ->
  (o <- np.slice_last 4 5 out ;; Ok (sigmoid_v o)) =
  Ok (sigmoid_v
        (mk_ndarray
           (removelast (shape out) ++
              [Nat.min 5 (last (shape out) 0) - Nat.min 4 (last (shape out) 0)])
           (flat_map (slice 4 5)
              (chunks (last (shape out) 0) (size (removelast (shape out))) (data out))))).
Proof. intros Hs. now rewrite slice_last_unfold by assumption. Qed.

Lemma class_grid_shape (out : ndarray F) :
  shape out <> [] ->
  exists g, class_grid out = Ok g /\
    shape g = removelast (shape out) ++ [last (shape out) 0 - 5].
Proof.
  intros Hs. unfold class_grid, np.slice_last_from.
  rewrite !slice_last_unfold by assumption. cbn [bind].
  unfold np.multiply, np.broadcast2. rewrite !shape_sigmoid_v. cbn [shape].
  rewrite Nat.min_id.
  rewrite broadcast_shapes_same_rank by (rewrite !length_app; reflexivity).
  rewrite bshape_last_axis. eexists; split; reflexivity.
Qed.

Lemma grid_of_scalar (out : ndarray F) :
  shape out = [] ->
  (o <- np.slice_last 4 5 out ;; Ok (sigmoid_v o)) = Raise IndexError /\
  class_grid out = Raise IndexError.
Proof.
  intros Es. unfold class_grid, np.slice_last. rewrite Es. split; reflexivity.
Qed.

(** X13.  The two grid extractors fail on an array without axes only, with
    [IndexError]; every other array is accepted, whatever the length of
    its last axis: with fewer than five entries there the object grid and
    the class grid are empty. *)
Theorem grids_fail_only_without_axes (output : list (ndarray F)) :
  (Forall (fun out => shape out <> []) output ->
   exists ogs cgs,
     extract_object_grids output = Ok ogs /\
     extract_class_grids output = Ok cgs /\
     map shape ogs =
       map (fun out => removelast (shape out) ++
                       [Nat.min 5 (last (shape out) 0) - Nat.min 4 (last (shape out) 0)])
           output /\
     map shape cgs =
       map (fun out => removelast (shape out) ++ [last (shape out) 0 - 5]) output) /\
  (Exists (fun out => shape out = []) output ->
   extract_object_grids output = Raise IndexError /\
   extract_class_grids output = Raise IndexError).
Proof.
  unfold extract_object_grids, extract_class_grids. split.
  - induction 1 as [|out output Hs _ (ogs & cgs & Eo & Ec & So & Sc)].
    + exists [], []. repeat split; reflexivity.
    + destruct (class_grid_shape out Hs) as (g & Eg & Sg).
      rewrite !mapM_cons, (object_grid_shape out Hs), Eg; cbn [bind]. rewrite Eo, Ec.
      cbn [bind]. eexists _, _. split; [reflexivity|]. split; [reflexivity|].
      cbn [map]. rewrite So, Sc, Sg. split; reflexivity.
  - induction 1 as [out output Hs|out output _ IH].
    + destruct (grid_of_scalar out Hs) as [Eo Ec].
      rewrite !mapM_cons, Eo, Ec. split; reflexivity.
    + destruct IH as [Eo Ec]. rewrite !mapM_cons, Eo, Ec.
      destruct (shape out) as [|d0 s0] eqn:Es.
      * destruct (grid_of_scalar out Es) as [Eo1 Ec1]. rewrite Eo1, Ec1. split; reflexivity.
      * assert (Hs : shape out <> []) by (rewrite Es; discriminate).
        destruct (class_grid_shape out Hs) as (g & Eg & _).
        rewrite (object_grid_shape out Hs), Eg. split; reflexivity.
Qed.

End ObjectGrids.

Lemma object_grids_activated_witness :
  Forall (fun out : ndarray R => wf out /\ 5 <= last (shape out) 0) [zeros_1x1] /\
  exists grids,
    extract_object_grids [zeros_1x1] = Ok grids /\
    Forall2 (fun out g =>
               let cells := removelast (shape out) in
               shape g = cells ++ [1] /\
               forall idx, inb idx cells ->
                 get g (idx ++ [0]) = sigmoid (get out (idx ++ [4])))
      [zeros_1x1] grids.
Proof.
  split; [exact zeros_1x1_classes|].
  exact (@object_grids_activated R _ _ [zeros_1x1] zeros_1x1_classes).
Defined.

Lemma grids_fail_only_without_axes_witness :
  (Forall (fun out : ndarray R => shape out <> []) [mk_ndarray [4] [1; 2; 3; 4]%R] /\
   exists ogs cgs,
     extract_object_grids [mk_ndarray [4] [1; 2; 3; 4]%R] = Ok ogs /\
     extract_class_grids [mk_ndarray [4] [1; 2; 3; 4]%R] = Ok cgs /\
     map shape ogs = [[0]] /\ map shape cgs = [[0]]) /\
  (Exists (fun out : ndarray R => shape out = []) [mk_ndarray [] [1%R]] /\
   extract_object_grids [mk_ndarray [] [1%R]] = Raise IndexError /\
   extract_class_grids [mk_ndarray [] [1%R]] = Raise IndexError).
Proof.
  assert (H1 : Forall (fun out : ndarray R => shape out <> [])
                 [mk_ndarray [4] [1; 2; 3; 4]%R]).
  { repeat constructor. discriminate. }
  assert (H2 : Exists (fun out : ndarray R => shape out = []) [mk_ndarray [] [1%R]]).
  { now constructor. }
  split.
  - split; [exact H1|].
    exact (proj1 (@grids_fail_only_without_axes R _ _ [mk_ndarray [4] [1; 2; 3; 4]%R]) H1).
  - split; [exact H2|].
    exact (proj2 (@grids_fail_only_without_axes R _ _ [mk_ndarray [] [1%R]]) H2).
Defined.

(** ** [detect], and [detect] followed by [extract_boxes] *)

Section Pipeline.
Context {F : Type} `{Scalar F} `{Exponential F}.

(** X15.  The reshape of [detect] keeps the elements in the order of the flat
    output: entry [k] of anchor [a], row [gy], column [gx] of the tensor of
    a scale with an [n] by [n] grid is the flat element number
    [((a * n + gy) * n + gx) * 85 + k]. *)
Theorem detect_keeps_flat_order (outputs r : list (ndarray F)) i raw t :
  detect init outputs = Ok r ->
  nth_error outputs i = Some raw -> nth_error r i = Some t ->
  exists n,
    nth_error [80; 40; 20] i = Some n /\
    shape t = [1; 3; n; n; 85] /\ data t = data raw /\
    forall a gy gx k, a < 3 -> gy < n -> gx < n -> k < 85 ->
      get t [0; a; gy; gx; k] = nth (((a * n + gy) * n + gx) * 85 + k) (data raw) dflt.
Proof.
  rewrite detect_spec.
  destruct (existsb mismatch _); [discriminate|]. intros [= <-].
  cbn [init output_shapes].
  assert (K : forall n, t = mk_ndarray [1; 3; n; n; 85] (data raw) ->
              shape t = [1; 3; n; n; 85] /\ data t = data raw /\
              forall a gy gx k, a < 3 -> gy < n -> gx < n -> k < 85 ->
                get t [0; a; gy; gx; k] =
                nth (((a * n + gy) * n + gx) * 85 + k) (data raw) dflt).
  { intros n ->. split; [reflexivity|]. split; [reflexivity|].
    intros a gy gx k _ _ _ _. unfold get; cbn [shape data].
    now rewrite ravel_cell. }
  intros Hraw Ht.
  assert (Hi : i < 3).
  { assert (Hl : i < length (map (fun os : ndarray F * list nat =>
                                    mk_ndarray (snd os) (data (fst os)))
                               (combine outputs
                                  [[1; 3; 80; 80; 85]; [1; 3; 40; 40; 85];
                                   [1; 3; 20; 20; 85]])))
      by (apply nth_error_Some; congruence).
    rewrite length_map, length_combine in Hl. cbn [length] in Hl. lia. }
  destruct outputs as [|o0 [|o1 [|o2 rest]]]; destruct i as [|[|[|i]]]; try lia;
    cbn [combine map nth_error fst snd] in Hraw, Ht; try discriminate;
    injection Hraw as ->; injection Ht as <-;
    eexists; (split; [reflexivity|]); now apply K.
Qed.

(** X16.  On raw outputs of the three configured element counts, [detect]
    followed by [extract_boxes] does not fail, and returns at most three
    boxes per cell of the three grids. *)
Theorem detect_then_extract_boxes (outputs : list (ndarray F)) conf_thres :
  Forall2 (fun o s => wf o /\ size (shape o) = size s) outputs (output_shapes init) ->
  exists reshaped boxes k,
    detect init outputs = Ok reshaped /\
    extract_boxes init reshaped conf_thres = Ok boxes /\
    shape boxes = [k; 4] /\ k <= 3 * (80 * 80 + 40 * 40 + 20 * 20).
Proof.
  cbn [init output_shapes]. intros Hf.
  inversion Hf as [|o0 s0 l0 l0' [W0 S0] Hf1]; subst.
  inversion Hf1 as [|o1 s1 l1 l1' [W1 S1] Hf2]; subst.
  inversion Hf2 as [|o2 s2 l2 l2' [W2 S2] Hf3]; subst.
  inversion Hf3; subst. clear Hf Hf1 Hf2 Hf3.
  set (r := [mk_ndarray [1; 3; 80; 80; 85] (data o0);
             mk_ndarray [1; 3; 40; 40; 85] (data o1);
             mk_ndarray [1; 3; 20; 20; 85] (data o2)]).
  assert (Ed : detect init [o0; o1; o2] = Ok r).
  { rewrite detect_spec. cbn [init output_shapes combine existsb].
    unfold mismatch; cbn [fst snd]. rewrite S0, S1, S2, !Nat.eqb_refl.
    reflexivity. }
  assert (Hr : Forall shaped r).
  { unfold r. repeat constructor; unfold wf; cbn [shape data]; congruence. }
  assert (Hne : r <> []) by discriminate.
  destruct (extract_boxes_spec conf_thres Hr Hne) as (pred & _ & Eb). cbv zeta in Eb.
  eexists r, _, _. split; [exact Ed|]. split; [exact Eb|]. split; [reflexivity|].
  unfold kept_rows. etransitivity; [apply filter_length_le|].
  rewrite length_chunks. unfold offset, r, gsize.
  cbn [length Nat.min firstn map shape nth].
  rewrite !list_sum_cons'. cbn [list_sum fold_right]. lia.
Qed.

End Pipeline.

Lemma detect_keeps_flat_order_witness :
  let raw := zeros_flat (3 * 80 * 80 * 85) in
  let t := mk_ndarray [1; 3; 80; 80; 85] (data raw) in
  detect init [raw] = Ok [t] /\
  exists n,
    nth_error [80; 40; 20] 0 = Some n /\
    shape t = [1; 3; n; n; 85] /\ data t = data raw /\
    forall a gy gx k, a < 3 -> gy < n -> gx < n -> k < 85 ->
      get t [0; a; gy; gx; k] = nth (((a * n + gy) * n + gx) * 85 + k) (data raw) dflt.
Proof.
  cbv zeta.
  assert (Ed : detect init [zeros_flat (3 * 80 * 80 * 85)] =
               Ok [mk_ndarray [1; 3; 80; 80; 85] (data (zeros_flat (3 * 80 * 80 * 85)))]).
  { rewrite detect_spec. cbn [init output_shapes combine existsb].
    rewrite zeros_flat_size by (cbn [size]; lia). reflexivity. }
  split; [exact Ed|].
  exact (@detect_keeps_flat_order R _ _ _ 0 _ _ Ed eq_refl eq_refl).
Defined.

Lemma detect_then_extract_boxes_witness :
  Forall2 (fun o s => wf o /\ size (shape o) = size s)
    engine_zeros (output_shapes (init (F := R))) /\
  exists reshaped boxes k,
    detect init engine_zeros = Ok reshaped /\
    extract_boxes init reshaped conf_thres_default = Ok boxes /\
    shape boxes = [k; 4] /\ k <= 3 * (80 * 80 + 40 * 40 + 20 * 20).
Proof.
  assert (Hf : Forall2 (fun o s => wf o /\ size (shape o) = size s)
                 engine_zeros (output_shapes (init (F := R)))).
  { unfold engine_zeros; cbn [init output_shapes].
    repeat apply Forall2_cons; try apply Forall2_nil;
      (split; [unfold wf, zeros_flat; cbn [shape data size]; rewrite repeat_length; lia
              |unfold zeros_flat; cbn [shape size]; lia]). }
  split; [exact Hf|].
  exact (@detect_then_extract_boxes R _ _ engine_zeros conf_thres_default Hf).
Defined.

(** ** [non_max_suppression]: what it writes and how it ends *)

Section SuppressionFrame.
Context {F : Type} `{Scalar F} `{Exponential F}.
Local Abbreviation keeps := (@keeps F _).

Lemma keeps_suppress_one n pred xc xi :
  keeps n (fun _ => True) (Obj.suppress_one pred xc xi).
Proof.
  unfold Obj.suppress_one.
  eapply keeps_bind; [apply keeps_load|]. intros p _.
  eapply keeps_bind; [apply keeps_lift|]. intros x0 _.
  eapply keeps_bind; [apply keeps_lift|]. intros m _.
  eapply keeps_bind; [apply keeps_lift|]. intros xk _.
  eapply keeps_bind; [apply keeps_new|]. intros x Hx.
  eapply keeps_bind; [apply keeps_load|]. intros a _.
  eapply keeps_bind; [apply keeps_lift|]. intros l _.
  eapply keeps_bind; [apply keeps_lift|]. intros r _.
  eapply keeps_bind; [apply keeps_lift|]. intros v _.
  eapply keeps_bind; [now apply keeps_set_slice_axis1|]. intros _ _.
  eapply keeps_bind; [apply keeps_load|]. intros a1 _.
  eapply keeps_bind; [apply keeps_lift|]. intros ? _.
  eapply keeps_bind; [apply keeps_lift|]. intros ? _.
  eapply keeps_bind; [apply keeps_lift|]. intros ? _.
  eapply keeps_bind; [apply keeps_lift|]. intros b _.
  eapply keeps_bind; [apply keeps_xywh2xyxy|]. intros box _.
  apply keeps_raise.
Qed.

Lemma keeps_non_max_suppression n pred conf_thres iou_thres classes :
  keeps n (fun _ => True) (Obj.non_max_suppression pred conf_thres iou_thres classes).
Proof.
  unfold Obj.non_max_suppression.
  eapply keeps_bind; [apply keeps_load|]. intros p _.
  eapply keeps_bind; [apply keeps_lift|]. intros p0 _.
  eapply keeps_bind; [apply keeps_lift|]. intros ? _.
  eapply keeps_bind; [apply keeps_lift|]. intros o _.
  eapply keeps_bind; [apply keeps_lift|]. intros m _.
  eapply keeps_bind; [apply keeps_mapM; intros; apply keeps_suppress_one|]. intros ? _.
  now apply keeps_ret.
Qed.

(** X17.  The in-place fusion [x[:, 5:] *= x[:, 4:5]] of [non_max_suppression]
    acts on the copy that the boolean-mask indexing made: every buffer that
    existed before the call, and so the caller's [pred], holds the elements
    it held. *)
Theorem non_max_suppression_keeps_pred
    (pred : Obj.ref) conf_thres iou_thres classes (s : Obj.store F) :
  let after := snd (Obj.non_max_suppression pred conf_thres iou_thres classes s) in
  firstn (length s) after = s /\
  (Obj.loc pred < length s -> Obj.deref after pred = Obj.deref s pred).
Proof.
  cbv zeta.
  destruct (@keeps_non_max_suppression (length s) pred conf_thres iou_thres classes
              s (le_n _)) as [[_ E] _].
  rewrite firstn_all in E. split; [exact E|].
  intros Hp. unfold Obj.deref. f_equal.
  rewrite <- E at 2. rewrite nth_firstn.
  destruct (Nat.ltb_spec (Obj.loc pred) (length s)); [reflexivity | lia].
Qed.

End SuppressionFrame.

Lemma non_max_suppression_keeps_pred_witness :
  Obj.loc two_candidates_ref < length two_candidates /\
  Obj.deref (snd (Obj.non_max_suppression two_candidates_ref (1 # 10)%Q (6 # 10)%Q None
                    two_candidates)) two_candidates_ref =
  Obj.deref two_candidates two_candidates_ref.
Proof.
  assert (Hl : Obj.loc two_candidates_ref < length two_candidates) by (cbn; lia).
  split; [exact Hl|].
  exact (proj2 (@non_max_suppression_keeps_pred Q _ two_candidates_ref
                  (1 # 10)%Q (6 # 10)%Q None two_candidates) Hl).
Defined.

Lemma firstn_chunks {A : Type} k n N (l : list A) :
  n <= N -> firstn n (chunks k N l) = chunks k n l.
Proof.
  revert N l; induction n as [|n IH]; intros N l Hn; [reflexivity|].
  destruct N as [|N]; [lia|]. cbn [chunks firstn]. f_equal. apply IH. lia.
Qed.

Lemma chunks_firstn {A : Type} k n (l : list A) :
  chunks k n (firstn (n * k) l) = chunks k n l.
Proof.
  revert l; induction n as [|n IH]; intros l; [reflexivity|].
  cbn [chunks Nat.mul].
  rewrite firstn_firstn, Nat.min_l by apply Nat.le_add_r. f_equal.
  rewrite <- (IH (skipn k l)). f_equal.
  rewrite skipn_firstn_comm. f_equal. lia.
Qed.

Lemma filter_nil_existsb {A : Type} (t : A -> bool) (l : list A) :
  length (filter t l) = 0 <-> existsb t l = false.
Proof.
  induction l as [|x l IH]; cbn [filter existsb]; [tauto|].
  destruct (t x); cbn [length orb]; [split; discriminate | exact IH].
Qed.

Section SuppressionOutcome.
Context {F : Type} `{Scalar F} `{Exponential F}.

(** The candidates of the first image that pass the filter of
    [non_max_suppression]: the rows of the mask-indexed copy. *)
Lemma first_image_rows (buf : list F) b n k (c : F) :
  let t := fun row : list F => fgt (nth 4 row dflt) c in
  map snd
    (filter fst
       (combine
          (slice (0 * size [n]) ((0 + 1) * size [n])
             (map (fun x => fgt x c)
                (map (fun row => nth 4 row dflt) (chunks k (size [S b; n]) buf))))
          (chunks (size [k]) (size [n])
             (slice (0 * size [n; k]) ((0 + 1) * size [n; k]) buf)))) =
  filter t (chunks k n buf).
Proof.
  cbv zeta. cbn [size]. rewrite !Nat.mul_1_r, !Nat.mul_0_l, !Nat.add_0_l, !Nat.mul_1_l.
  unfold slice. rewrite !Nat.sub_0_r. cbn [skipn].
  rewrite map_map, firstn_map, firstn_chunks by nia.
  rewrite chunks_firstn.
  apply (filter_combine_map (fun row => fgt (nth 4 row dflt) c)).
Qed.


Local Abbreviation raises := (@raises F _).

Lemma raises_raise {A : Type} e : raises e (Obj.raise (A := A) e).
Proof. intros s. reflexivity. Qed.

Lemma raises_load {A : Type} r (k : ndarray F -> Obj.M F A) e :
  (forall a, shape a = Obj.shp r -> raises e (k a)) -> raises e (Obj.bind (Obj.load r) k).
Proof. intros Hk s. rewrite bind_load. now apply Hk. Qed.

Lemma raises_new {A : Type} v (k : Obj.ref -> Obj.M F A) e :
  (forall x, Obj.shp x = shape v -> raises e (k x)) -> raises e (Obj.bind (Obj.new v) k).
Proof. intros Hk s. rewrite bind_new. now apply Hk. Qed.

Lemma raises_assign {A : Type} r v (k : unit -> Obj.M F A) e :
  raises e (k tt) -> raises e (Obj.bind (Obj.assign r v) k).
Proof. intros Hk s. rewrite bind_assign. apply Hk. Qed.

Lemma raises_lift_ok {A B : Type} (x : res A) a (k : A -> Obj.M F B) e :
  x = Ok a -> raises e (k a) -> raises e (Obj.bind (Obj.lift x) k).
Proof. intros -> Hk s. rewrite bind_lift. apply Hk. Qed.

Lemma raises_lift_raise {A B : Type} (x : res A) (k : A -> Obj.M F B) e :
  x = Raise e -> raises e (Obj.bind (Obj.lift x) k).
Proof. intros -> s. now rewrite bind_lift. Qed.

Lemma raises_assoc {A B C : Type} (m : Obj.M F A) (f : A -> Obj.M F B)
    (k : B -> Obj.M F C) e :
  raises e (Obj.bind m (fun a => Obj.bind (f a) k)) -> raises e (Obj.bind (Obj.bind m f) k).
Proof. intros Hm s. rewrite bind_bind. apply Hm. Qed.

Lemma raises_after {A B : Type} (m : Obj.M F A) (k : A -> Obj.M F B) e :
  (forall s, exists a s', m s = (Ok a, s')) -> (forall a, raises e (k a)) ->
  raises e (Obj.bind m k).
Proof.
  intros Hm Hk s. destruct (Hm s) as (a & s' & E). unfold Obj.bind. rewrite E. apply Hk.
Qed.

Lemma raises_bind_l {A B : Type} (m : Obj.M F A) (k : A -> Obj.M F B) e :
  raises e m -> raises e (Obj.bind m k).
Proof.
  intros Hm s. specialize (Hm s). unfold Obj.bind.
  destruct (m s) as [[a|e'] s']; cbn [fst] in *; congruence.
Qed.

Lemma slice_axis1_ok lo hi (a : ndarray F) d0 d1 rest :
  shape a = d0 :: d1 :: rest ->
  exists r, np.slice_axis1 lo hi a = Ok r /\
    shape r = d0 :: (Nat.min hi d1 - Nat.min lo d1) :: rest.
Proof.
  intros Es. unfold np.slice_axis1. rewrite Es. eexists; split; reflexivity.
Qed.

Lemma set_slice_axis1_ok lo hi (a v : ndarray F) d0 d1 rest :
  shape a = d0 :: d1 :: rest ->
  shape v = d0 :: (Nat.min hi d1 - Nat.min lo d1) :: rest ->
  exists a', np.set_slice_axis1 lo hi a v = Ok a'.
Proof.
  intros Es Ev. unfold np.set_slice_axis1. rewrite Es. cbv zeta.
  destruct (broadcast_to_shape v Ev) as (v' & -> & _). cbn [bind].
  eexists; reflexivity.
Qed.

Lemma xywh2xyxy_returns (x : ndarray F) d0 d1 rest :
  shape x = d0 :: d1 :: rest -> 4 <= d1 ->
  forall s, exists r s', Obj.xywh2xyxy x s = (Ok r, s').
Proof.
  intros Es Hd s. pose proof (xywh2xyxy_domain x) as Hx. rewrite Es in Hx.
  destruct (Nat.leb_spec 4 d1); [|lia]. destruct Hx as (y & Ey & _).
  pose proof (xywh2xyxy_runs x s) as Hr. rewrite Ey in Hr.
  destruct Hr as (r & s' & E & _). now exists r, s'.
Qed.

(** The round of the loop after the mask-indexed copy [x] has been made:
    [sys.exit()] when [x] has a row, [IndexError] at [x[0]] when it has
    none. *)
Lemma suppress_tail_raises (x : Obj.ref) cnt k :
  Obj.shp x = [cnt; k] -> 5 <= k ->
  raises (if 0 <? cnt then SystemExit else IndexError)
    (Obj.bind (Obj.load x) (fun a =>
     Obj.bind (Obj.lift (np.slice_axis1 5 (nth 1 (shape a) 0) a)) (fun l =>
     Obj.bind (Obj.lift (np.slice_axis1 4 5 a)) (fun r =>
     Obj.bind (Obj.lift (np.multiply l r)) (fun v =>
     Obj.bind (Obj.set_slice_axis1 5 (nth 1 (shape a) 0) x v) (fun _ =>
     Obj.bind (Obj.load x) (fun a =>
     Obj.bind (Obj.lift (np.index_axis1 4 a)) (fun _ =>
     Obj.bind (Obj.lift (np.index0 0 a)) (fun x0 =>
     Obj.bind (Obj.lift (np.slice_last_from 5 x0)) (fun _ =>
     Obj.bind (Obj.lift (np.slice_axis1 0 4 a)) (fun b =>
     Obj.bind (Obj.xywh2xyxy b) (fun box =>
     Obj.raise (A := unit) SystemExit)))))))))))).
Proof.
  intros Ex Hk.
  apply raises_load. intros a Sa. rewrite Ex in Sa. rewrite Sa. cbn [nth].
  destruct (slice_axis1_ok 5 k a Sa) as (l & El & Sl).
  eapply raises_lift_ok; [exact El|].
  destruct (slice_axis1_ok 4 5 a Sa) as (r & Er & Sr).
  eapply raises_lift_ok; [exact Er|].
  rewrite Nat.min_id, (Nat.min_l 5 k) in Sl by lia.
  rewrite (Nat.min_l 5 k), (Nat.min_l 4 k) in Sr by lia.
  assert (Ev : exists v, np.multiply l r = Ok v /\ shape v = [cnt; k - 5]).
  { unfold np.multiply, np.broadcast2. rewrite Sl, Sr.
    rewrite broadcast_shapes_same_rank by reflexivity.
    pose proof (bshape_last [cnt] (k - 5)) as B. cbn [app] in B.
    change (5 - 4) with 1. rewrite B. eexists; split; reflexivity. }
  destruct Ev as (v & Ev & Sv).
  eapply raises_lift_ok; [exact Ev|].
  unfold Obj.set_slice_axis1. apply raises_assoc.
  apply raises_load. intros a1 Sa1. rewrite Ex in Sa1. apply raises_assoc.
  destruct (@set_slice_axis1_ok 5 k a1 v cnt k [] Sa1) as (a' & Ea').
  { rewrite Sv. f_equal. f_equal. lia. }
  eapply raises_lift_ok; [exact Ea'|].
  apply raises_assign.
  apply raises_load. intros a2 Sa2. rewrite Ex in Sa2.
  destruct (index_axis1_shape a2 Sa2 (j := 4)) as (c4 & E4 & _); [lia|].
  eapply raises_lift_ok; [exact E4|].
  unfold np.index0 at 1. rewrite Sa2.
  destruct (Nat.ltb_spec 0 cnt) as [Hc|Hc]; [|now apply raises_lift_raise].
  eapply raises_lift_ok; [reflexivity|].
  unfold np.slice_last_from. rewrite slice_last_unfold by (cbn [shape]; discriminate).
  eapply raises_lift_ok; [reflexivity|].
  destruct (slice_axis1_ok 0 4 a2 Sa2) as (b4 & Eb & Sb).
  eapply raises_lift_ok; [exact Eb|].
  rewrite (Nat.min_l 4 k), Nat.min_0_l, Nat.sub_0_r in Sb by lia.
  apply raises_after; [exact (xywh2xyxy_returns b4 Sb (le_n 4))|].
  intros box. apply raises_raise.
Qed.

Lemma fst_bind_raise {A B : Type} (m : Obj.M F A) (k : A -> Obj.M F B) s e :
  fst (m s) = Raise e -> fst (Obj.bind m k s) = Raise e.
Proof.
  unfold Obj.bind. destruct (m s) as [[a|e'] s']; cbn [fst]; congruence.
Qed.

Lemma suppress_one_outcome (pred : Obj.ref) (s : Obj.store F) b n k :
  Obj.shp pred = [S b; n; k] -> 5 <= k ->
  let p := Obj.deref s pred in
  let xc := np.gt_s (mk_ndarray [S b; n]
                       (map (fun row => nth 4 row dflt)
                          (chunks k (size [S b; n]) (data p))))
              (lit (1 # 10)%Q) in
  fst (Obj.suppress_one pred xc 0 s) =
  Raise (if existsb (fun row => fgt (nth 4 row dflt) (lit (1 # 10)%Q))
              (chunks k n (data p))
         then SystemExit else IndexError).
Proof.
  intros Es Hk p xc.
  assert (Sp : shape p = [S b; n; k]) by exact Es.
  unfold Obj.suppress_one.
  rewrite bind_load; cbv beta. fold p.
  unfold np.index0 at 1. rewrite Sp. change (0 <? S b) with true.
  rewrite bind_lift; cbv beta iota.
  unfold np.index0 at 1. unfold xc.
  cbn [np.gt_s np.elementwise shape data]. change (0 <? S b) with true.
  rewrite bind_lift; cbv beta iota.
  unfold np.mask_index at 1. cbn [shape data length firstn skipn].
  rewrite shape_eqb_refl.
  rewrite (first_image_rows (data p) b n k (lit (1 # 10)%Q)). cbv zeta.
  set (rows := filter _ _).
  rewrite bind_lift; cbv beta iota.
  rewrite bind_new; cbv beta. cbn [shape data].
  rewrite (@suppress_tail_raises (Obj.mk_ref (length s) [length rows; k])
             (length rows) k eq_refl Hk).
  f_equal.
  destruct (existsb _ _) eqn:Ee.
  - destruct (Nat.ltb_spec 0 (length rows)) as [Hl|Hl]; [reflexivity|].
    assert (E0 : length rows = 0) by lia.
    apply filter_nil_existsb in E0. congruence.
  - apply filter_nil_existsb in Ee. fold rows in Ee. now rewrite Ee.
Qed.

Lemma non_max_suppression_outcome
    (pred : Obj.ref) conf_thres iou_thres classes (s : Obj.store F) b n k :
  Obj.shp pred = [b; n; k] ->
  fst (Obj.non_max_suppression pred conf_thres iou_thres classes s) =
  Raise (if (0 <? b) && (5 <=? k) &&
            existsb (fun row => fgt (nth 4 row dflt) (lit (1 # 10)%Q))
              (chunks k n (data (Obj.deref s pred)))
         then SystemExit else IndexError).
Proof.
  intros Es. unfold Obj.non_max_suppression.
  rewrite bind_load; cbv beta.
  set (p := Obj.deref s pred).
  assert (Sp : shape p = [b; n; k]) by exact Es.
  unfold np.index0 at 1. rewrite Sp.
  destruct b as [|b]; [reflexivity|].
  change (0 <? S b) with true. cbn [andb].
  rewrite bind_lift; cbv beta iota. cbn [shape].
  rewrite bind_lift; cbv beta iota.
  unfold np.index_last. rewrite Sp. cbn [last removelast].
  destruct (Nat.leb_spec 5 k) as [Hk|Hk].
  2:{ destruct (Nat.ltb_spec 4 k); [lia | reflexivity]. }
  destruct (Nat.ltb_spec 4 k); [|lia]. cbn [andb].
  rewrite bind_lift; cbv beta iota zeta.
  unfold np.len. rewrite Sp. rewrite bind_lift; cbv beta iota zeta.
  cbn [seq Obj.mapM].
  apply fst_bind_raise, fst_bind_raise.
  exact (suppress_one_outcome pred s Es Hk).
Qed.

(** X18.  For a [pred] of shape [(b, n, k)]: [non_max_suppression] ends in
    [sys.exit()] when the batch is not empty, a candidate has at least five
    entries and some candidate of the first image has an objectness above
    0.1; in every other case it ends in an [IndexError]. *)
Theorem non_max_suppression_exit_or_index_error
    (pred : Obj.ref) conf_thres iou_thres classes (s : Obj.store F) b n k :
  Obj.shp pred = [b; n; k] ->
  fst (Obj.non_max_suppression pred conf_thres iou_thres classes s) =
  Raise (if (0 <? b) && (5 <=? k) &&
            existsb (fun row => fgt (nth 4 row dflt) (lit (1 # 10)%Q))
              (chunks k n (data (Obj.deref s pred)))
         then SystemExit else IndexError).
Proof. apply non_max_suppression_outcome. Qed.

End SuppressionOutcome.

Lemma non_max_suppression_exit_or_index_error_witness :
  Obj.shp two_candidates_ref = [1; 2; 6] /\
  fst (Obj.non_max_suppression two_candidates_ref (9 # 10)%Q (6 # 10)%Q None
         two_candidates) = Raise SystemExit.
Proof.
  split; [reflexivity|].
  exact (@non_max_suppression_exit_or_index_error Q _ two_candidates_ref
           (9 # 10)%Q (6 # 10)%Q None two_candidates 1 2 6 eq_refl).
Defined.

(** ** The methods on array objects: new results, inputs as they were *)

Section ObjectResults.
Context {F : Type} `{Scalar F} `{Exponential F}.
Local Abbreviation keeps := (@keeps F _).
Local Abbreviation runs := (@runs F _ _).

Lemma keeps_firstn {A : Type} (m : Obj.M F A) (P : A -> Prop) (s : Obj.store F) :
  keeps (length s) P m ->
  firstn (length s) (snd (m s)) = s /\ forall a, fst (m s) = Ok a -> P a.
Proof.
  intros K. destruct (K s (le_n _)) as [[_ E] HP].
  rewrite firstn_all in E. split; assumption.
Qed.

(** X19.  [extract_boxes] with its in-place slice assignments and its reshaped
    views returns what the value-level reading of the method returns, in an
    array object made by the call, and leaves every earlier buffer as it
    was; it raises what the value-level reading raises. *)
Theorem extract_boxes_on_objects
    (self : Processor F) (output : list Obj.ref) conf_thres (s : Obj.store F) :
  Forall (fun r => Obj.loc r < length s) output ->
  match extract_boxes self (map (Obj.deref s) output) conf_thres with
  | Ok boxes =>
      exists r s', Obj.extract_boxes self output conf_thres s = (Ok r, s') /\
        Obj.deref s' r = boxes /\ length s <= Obj.loc r /\ firstn (length s) s' = s
  | Raise e =>
      exists s', Obj.extract_boxes self output conf_thres s = (Raise e, s') /\
        firstn (length s) s' = s
  end.
Proof.
  intros Ho.
  pose proof (@extract_boxes_runs _ _ _ self output conf_thres s Ho) as Hr.
  destruct (@keeps_firstn _ _ _ s (@keeps_extract_boxes _ _ _ (length s) self output conf_thres))
    as [Ef Hl].
  destruct (extract_boxes self (map (Obj.deref s) output) conf_thres) as [boxes|e].
  - destruct Hr as (r & s' & E & Hv). exists r, s'. rewrite E in Ef, Hl.
    split; [exact E|]. split; [exact Hv|]. split; [exact (Hl r eq_refl) | exact Ef].
  - destruct Hr as (s' & E). exists s'. rewrite E in Ef. split; [exact E | exact Ef].
Qed.

Lemma keeps_object_grid n out : keeps n (later n) (Obj.object_grid out).
Proof.
  unfold Obj.object_grid.
  eapply keeps_bind; [apply keeps_load|]. intros a _.
  eapply keeps_bind; [apply keeps_lift|]. intros o _.
  apply keeps_new.
Qed.

Lemma keeps_extract_object_grids n output :
  keeps n (Forall (later n)) (Obj.extract_object_grids output).
Proof. apply keeps_mapM. intros; apply keeps_object_grid. Qed.

Lemma object_grid_runs out (s : Obj.store F) :
  runs (Obj.object_grid out) s
    (o <- np.slice_last 4 5 (Obj.deref s out) ;; Ok (sigmoid_v o))
    (fun r s' g => Obj.deref s' r = g /\ Obj.loc r < length s' /\
                   exists ext, s' = s ++ ext).
Proof.
  unfold Obj.object_grid. apply runs_load.
  eapply runs_bind; [apply runs_lift|]. intros ? ? o [-> ->].
  unfold runs. cbn [bind]. eexists _, _. split; [reflexivity|]. split; [|split].
  - rewrite deref_new. now destruct (sigmoid_v o).
  - cbn [Obj.loc]. rewrite length_app. cbn [length]. lia.
  - now eexists.
Qed.

Lemma extract_object_grids_runs output (s : Obj.store F) :
  Forall (fun r => Obj.loc r < length s) output ->
  runs (Obj.extract_object_grids output) s
    (extract_object_grids (map (Obj.deref s) output))
    (fun rs s' gs => map (Obj.deref s') rs = gs /\
                     Forall (fun r => Obj.loc r < length s') rs /\
                     exists ext, s' = s ++ ext).
Proof.
  unfold Obj.extract_object_grids, extract_object_grids.
  intros Ho. revert s Ho. induction output as [|out output IH]; intros s Ho.
  - apply runs_ret. split; [reflexivity|]. split; [constructor|].
    exists []. now rewrite app_nil_r.
  - inversion Ho as [|? ? Hout Hrest]; subst. cbn [map mapM Obj.mapM].
    eapply runs_bind; [apply object_grid_runs|]. intros r s1 g (Eg & Lr & ext & ->).
    assert (Em : map (Obj.deref s) output = map (Obj.deref (s ++ ext)) output).
    { apply map_ext_in. intros r' Hr'. symmetry. apply deref_app.
      rewrite Forall_forall in Hrest. now apply Hrest. }
    rewrite Em.
    eapply runs_bind.
    { apply IH. eapply Forall_impl; [|exact Hrest].
      intros r' Hr'. cbv beta in Hr'. rewrite length_app. lia. }
    intros rs s2 gs (Egs & Lrs & ext2 & ->). apply runs_ret.
    split; [|split].
    + cbn [map]. f_equal; [|assumption]. now rewrite deref_app.
    + constructor; [|assumption]. rewrite length_app. lia.
    + exists (ext ++ ext2). now rewrite app_assoc.
Qed.

(** X20.  [extract_object_grids] on array objects: the grids are new objects
    that hold what the value-level reading returns, and every earlier
    buffer, so every input, is as it was. *)
Theorem extract_object_grids_on_objects (output : list Obj.ref) (s : Obj.store F) :
  Forall (fun r => Obj.loc r < length s) output ->
  match extract_object_grids (map (Obj.deref s) output) with
  | Ok grids =>
      exists rs s', Obj.extract_object_grids output s = (Ok rs, s') /\
        map (Obj.deref s') rs = grids /\
        Forall (fun r => length s <= Obj.loc r) rs /\ firstn (length s) s' = s
  | Raise e =>
      exists s', Obj.extract_object_grids output s = (Raise e, s') /\
        firstn (length s) s' = s
  end.
Proof.
  intros Ho.
  pose proof (@extract_object_grids_runs output s Ho) as Hr.
  destruct (@keeps_firstn _ _ _ s (@keeps_extract_object_grids (length s) output)) as [Ef Hl].
  destruct (extract_object_grids (map (Obj.deref s) output)) as [grids|e].
  - destruct Hr as (rs & s' & E & Hv & _). exists rs, s'. rewrite E in Ef, Hl.
    split; [exact E|]. split; [exact Hv|]. split; [exact (Hl rs eq_refl) | exact Ef].
  - destruct Hr as (s' & E). exists s'. rewrite E in Ef. split; [exact E | exact Ef].
Qed.

End ObjectResults.

Lemma zeros_ref_in_store : Forall (fun r => Obj.loc r < length zeros_store) [zeros_ref].
Proof. repeat constructor. Qed.

Lemma extract_boxes_on_objects_witness :
  Forall (fun r => Obj.loc r < length zeros_store) [zeros_ref] /\
  match extract_boxes init (map (Obj.deref zeros_store) [zeros_ref]) conf_thres_default with
  | Ok boxes =>
      exists r s', Obj.extract_boxes init [zeros_ref] conf_thres_default zeros_store =
                   (Ok r, s') /\
        Obj.deref s' r = boxes /\ length zeros_store <= Obj.loc r /\
        firstn (length zeros_store) s' = zeros_store
  | Raise e =>
      exists s', Obj.extract_boxes init [zeros_ref] conf_thres_default zeros_store =
                 (Raise e, s') /\
        firstn (length zeros_store) s' = zeros_store
  end.
Proof.
  split; [exact zeros_ref_in_store|].
  exact (@extract_boxes_on_objects R _ _ init [zeros_ref] conf_thres_default zeros_store
           zeros_ref_in_store).
Defined.

Lemma extract_object_grids_on_objects_witness :
  Forall (fun r => Obj.loc r < length zeros_store) [zeros_ref] /\
  match extract_object_grids (map (Obj.deref zeros_store) [zeros_ref]) with
  | Ok grids =>
      exists rs s', Obj.extract_object_grids [zeros_ref] zeros_store = (Ok rs, s') /\
        map (Obj.deref s') rs = grids /\
        Forall (fun r => length zeros_store <= Obj.loc r) rs /\
        firstn (length zeros_store) s' = zeros_store
  | Raise e =>
      exists s', Obj.extract_object_grids [zeros_ref] zeros_store = (Raise e, s') /\
        firstn (length zeros_store) s' = zeros_store
  end.
Proof.
  split; [exact zeros_ref_in_store|].
  exact (@extract_object_grids_on_objects R _ _ [zeros_ref] zeros_store zeros_ref_in_store).
Defined.

(** ** Class scores and objectness *)

Section ScoreOrder.

Lemma grids_of_output (out : ndarray flt) :
  wf out -> 5 <= last (shape out) 0 -> no_nan out ->
  exists og cg,
    (o <- np.slice_last 4 5 out ;; Ok (sigmoid_v o)) = Ok og /\
    class_grid out = Ok cg /\
    forall idx c, inb idx (removelast (shape out)) -> c < last (shape out) 0 - 5 ->
      let score := get cg (idx ++ [c]) in
      let class_prob := sigmoid (get out (idx ++ [5 + c])) in
      let objectness := get og (idx ++ [0]) in
      score = fmul class_prob objectness /\
      fle (lit 0%Q) score /\ fle score objectness /\ fle objectness (lit 1%Q).
Proof.
  intros Wo Hm Hn.
  destruct (object_grid_spec Wo Hm) as (og & Eog & _ & Hog).
  destruct (class_grid_spec Wo Hm) as (cg & Ecg & _ & Hcg).
  exists og, cg. split; [exact Eog|]. split; [exact Ecg|].
  intros idx c Hi Hc. cbv zeta. rewrite (Hcg idx c Hi Hc), (Hog idx Hi).
  unfold get.
  destruct (nth_is_num (ravel (shape out) (idx ++ [5 + c])) Hn) as (xc & ->).
  destruct (nth_is_num (ravel (shape out) (idx ++ [4])) Hn) as (xo & ->).
  rewrite !sigmoid_num. cbn [fmul lit Scalar_flt flt_op2 fle].
  pose proof (sigmoid_bounds xc) as Bc. pose proof (sigmoid_bounds xo) as Bo.
  rewrite Q2R_zero, Q2R_one.
  split; [reflexivity|]. repeat split; nra.
Qed.

(** X14.  Every score of [extract_class_grids] is the class probability
    times the entry of [extract_object_grids] for the same cell; when the
    raw values are numbers it lies between 0 and that objectness, which is
    at most 1. *)
Theorem class_scores_below_objectness (output : list (ndarray flt)) :
  Forall (fun out => wf out /\ 5 <= last (shape out) 0 /\ no_nan out) output ->
  exists ogs cgs,
    extract_object_grids output = Ok ogs /\
    extract_class_grids output = Ok cgs /\
    forall i out og cg,
      nth_error output i = Some out -> nth_error ogs i = Some og ->
      nth_error cgs i = Some cg ->
      forall idx c, inb idx (removelast (shape out)) -> c < last (shape out) 0 - 5 ->
        let score := get cg (idx ++ [c]) in
        let class_prob := sigmoid (get out (idx ++ [5 + c])) in
        let objectness := get og (idx ++ [0]) in
        score = fmul class_prob objectness /\
        fle (lit 0%Q) score /\ fle score objectness /\ fle objectness (lit 1%Q).
Proof.
  unfold extract_object_grids, extract_class_grids.
  induction 1 as [|out output (Wo & Hm & Hn) _ (ogs & cgs & Eo & Ec & IH)].
  - exists [], []. split; [reflexivity|]. split; [reflexivity|].
    intros [|i] ? ? ? E; discriminate E.
  - destruct (grids_of_output Wo Hm Hn) as (og & cg & Eog & Ecg & Hg).
    exists (og :: ogs), (cg :: cgs).
    rewrite !mapM_cons, Eog, Ecg; cbn [bind]. rewrite Eo, Ec.
    split; [reflexivity|]. split; [reflexivity|].
    intros [|i] out' og' cg'; cbn [nth_error].
    + intros [= <-] [= <-] [= <-]. exact Hg.
    + apply IH.
Qed.

End ScoreOrder.

Lemma one_candidate_classes :
  Forall (fun out => wf out /\ 5 <= last (shape out) 0 /\ no_nan out)
    [one_candidate (Num 0)].
Proof.
  constructor; [|constructor]. split; [reflexivity|]. split; [simpl; lia|].
  pose proof one_candidate_no_nan as Hn. now inversion Hn.
Qed.

Lemma class_scores_below_objectness_witness :
  Forall (fun out => wf out /\ 5 <= last (shape out) 0 /\ no_nan out)
    [one_candidate (Num 0)] /\
  exists ogs cgs,
    extract_object_grids [one_candidate (Num 0)] = Ok ogs /\
    extract_class_grids [one_candidate (Num 0)] = Ok cgs /\
    forall i out og cg,
      nth_error [one_candidate (Num 0)] i = Some out -> nth_error ogs i = Some og ->
      nth_error cgs i = Some cg ->
      forall idx c, inb idx (removelast (shape out)) -> c < last (shape out) 0 - 5 ->
        let score := get cg (idx ++ [c]) in
        let class_prob := sigmoid (get out (idx ++ [5 + c])) in
        let objectness := get og (idx ++ [0]) in
        score = fmul class_prob objectness /\
        fle (lit 0%Q) score /\ fle score objectness /\ fle objectness (lit 1%Q).
Proof.
  split; [exact one_candidate_classes|].
  exact (class_scores_below_objectness one_candidate_classes).
Defined.
